(** * bill-pro-max: the real-time change-propagation broker

    A shallow embedding of [WebSocketManager] and of the part of
    [MongoDBManager] it drives (src/core/BusinessManager.ts, the
    WebSocketManager.ts and MongoDBManager.ts sections), followed by the
    properties of the subscription / watch / broadcast engine.

    Conventions of the embedding.
    - A JavaScript [Map<string, V>] is a [gmap string V]; a [Set<string>] is
      a [gset string].  Iteration ([forEach], [entries()]) goes through
      [elements] / [map_to_list]; JavaScript iterates in insertion order,
      the properties below do not depend on the order.
    - Every handler is first given as a function from broker state to
      broker state: the handler as it runs when every call it awaits
      settles before the next event is dispatched ([step], [run]).  The
      code does not guarantee that: [changeStream.close()] and
      [collection.findOne] go to the store and back, and
      [handleClientDisconnect] does not await the [stopWatching] it
      starts.  Module [Interleaving] cuts the handlers at these awaits
      and lets other events arrive in between ([begin], [resume],
      [play]); the properties that depend on the order in which handlers
      and pending calls run are stated there, and [settled_at_once]
      relates the two.  The outcome of every call into the outside world
      (does [changeStream.close()] reject?  does [collection.watch]
      throw?  what does [findOne] return?  what does [new Date()] read?)
      is an explicit argument, bundled in [Env].
    - The objects the broker only holds references to are kept in a heap:
      [streams] lists the [ChangeStream] objects created by
      [collection.watch], addressed by position; [wire] lists the frames
      handed to [client.send], oldest first.

    The second part of the definitions embeds [BusinessManager] and the
    managers it drives (src/managers/); its conventions are given
    there. *)

From stdpp Require Import base option list gmap sets strings.
From stdpp Require Import pretty.

Open Scope string_scope.
Open Scope list_scope.
Open Scope stdpp_scope.

(** ** Data model *)

Definition Time := nat.

(** [UserDataStore] and the raw MongoDB document are opaque payloads for
    the broker; [convertMongoDocument] throws on a document without a
    [user] field ([doc.user.createdAt] on [undefined]). *)
Definition UserDataStore := string.

Inductive Document :=
| WellFormed (data : UserDataStore)
| IllFormed.

Definition convertMongoDocument (doc : Document) : option UserDataStore :=
  match doc with
  | WellFormed data => Some data
  | IllFormed => None
  end.

(** [WebSocket.readyState] of the ws library. *)
Inductive ReadyState := CONNECTING | OPEN | CLOSING | CLOSED.

#[global] Instance ReadyState_eq_dec : EqDecision ReadyState.
Proof. solve_decision. Defined.

(** The object literals passed to [sendMessage].  A field the literal does
    not mention is [None]. *)
Record Message := mkMessage {
  msg_type : string;
  msg_clientId : option string;
  msg_userId : option string;
  msg_data : option UserDataStore;
  msg_message : option string;
  msg_timestamp : option Time
}.

#[global] Instance Message_eq_dec : EqDecision Message.
Proof. solve_decision. Defined.

Record CloudStorageConfig := mkConfig {
  enableChangeStreams : option bool
}.

(** [!this.config.enableChangeStreams] is false only for [true]. *)
Definition changeStreamsEnabled (config : CloudStorageConfig) : bool :=
  match enableChangeStreams config with
  | Some true => true
  | _ => false
  end.

(** A [ChangeStream] object returned by [collection.watch]: the user its
    [$match] stage filters on (also the [userId] captured by the callback
    registered on it), whether the feed is still delivering, and how many
    times [close()] was called on it. *)
Record ChangeStream := mkChangeStream {
  cs_userId : string;
  cs_live : bool;
  cs_closeCalls : nat
}.

Record ChangeStreamEvent := mkChange {
  fullDocument : option Document
}.

Record MongoDBManager := mkMongo {
  client : bool;                (* [this.client] is not null *)
  collection : bool;            (* [this.collection] is not null *)
  isConnected : bool;
  config : CloudStorageConfig;
  changeStreams : gmap string nat
}.

Record WebSocketManager := mkBroker {
  clients : gmap string ReadyState;
  userSubscriptions : gmap string (gset string);
  mongoManager : MongoDBManager;
  streams : list ChangeStream;
  wire : list (string * Message)
}.

Definition with_clients (f : gmap string ReadyState → gmap string ReadyState)
    (st : WebSocketManager) : WebSocketManager :=
  mkBroker (f (clients st)) (userSubscriptions st) (mongoManager st)
           (streams st) (wire st).

Definition with_userSubscriptions
    (f : gmap string (gset string) → gmap string (gset string))
    (st : WebSocketManager) : WebSocketManager :=
  mkBroker (clients st) (f (userSubscriptions st)) (mongoManager st)
           (streams st) (wire st).

Definition with_mongoManager (f : MongoDBManager → MongoDBManager)
    (st : WebSocketManager) : WebSocketManager :=
  mkBroker (clients st) (userSubscriptions st) (f (mongoManager st))
           (streams st) (wire st).

Definition with_streams (f : list ChangeStream → list ChangeStream)
    (st : WebSocketManager) : WebSocketManager :=
  mkBroker (clients st) (userSubscriptions st) (mongoManager st)
           (f (streams st)) (wire st).

Definition with_wire (f : list (string * Message) → list (string * Message))
    (st : WebSocketManager) : WebSocketManager :=
  mkBroker (clients st) (userSubscriptions st) (mongoManager st)
           (streams st) (f (wire st)).

Definition with_changeStreams (f : gmap string nat → gmap string nat)
    (m : MongoDBManager) : MongoDBManager :=
  mkMongo (client m) (collection m) (isConnected m) (config m)
          (f (changeStreams m)).

(** [new WebSocketManager(server, mongoConfig)]: nothing connected, nothing
    subscribed, the store not yet connected. *)
Definition init (mongoConfig : CloudStorageConfig) : WebSocketManager :=
  mkBroker ∅ ∅ (mkMongo false false false mongoConfig ∅) [] [].

(** The subscriber set of an owner: the value stored in the map, the empty
    set when the map has no entry. *)
Definition subscribers (st : WebSocketManager) (userId : string) : gset string :=
  default ∅ (userSubscriptions st !! userId).

(** [client && client.readyState === WebSocket.OPEN] *)
Definition isOpen (st : WebSocketManager) (clientId : string) : bool :=
  bool_decide (clients st !! clientId = Some OPEN).

(** ** WebSocketManager: sending *)

(** [sendMessage]: the frame goes out only to a registered client whose
    socket is OPEN.  [client.send] on an OPEN socket queues the frame (the
    ws library reports transport failures through the 'error' event), so
    the [catch] around it is not taken. *)
Definition sendMessage (clientId : string) (message : Message)
    (st : WebSocketManager) : WebSocketManager :=
  if isOpen st clientId
  then with_wire (λ w, w ++ [(clientId, message)]) st
  else st.

Definition errorMessage (text : string) (now : Time) : Message :=
  mkMessage "error" None None None (Some text) (Some now).

Definition sendError (clientId : string) (text : string) (now : Time)
    (st : WebSocketManager) : WebSocketManager :=
  sendMessage clientId (errorMessage text now) st.

(** [broadcastToUser]: walk the subscriber set of [userId], if there is
    one, and send to each client that is registered and OPEN. *)
Definition broadcastToUser (userId : string) (message : Message)
    (st : WebSocketManager) : WebSocketManager :=
  match userSubscriptions st !! userId with
  | Some userSubs =>
      foldl (λ acc clientId,
               if isOpen acc clientId then sendMessage clientId message acc
               else acc)
            st (elements userSubs)
  | None => st
  end.

(** [broadcastToAll]: every registered client whose socket is OPEN. *)
Definition broadcastToAll (message : Message)
    (st : WebSocketManager) : WebSocketManager :=
  foldl (λ acc entry,
           if bool_decide (entry.2 = OPEN)
           then sendMessage entry.1 message acc
           else acc)
        st (map_to_list (clients st)).

(** ** MongoDBManager *)

(** What the outside world answers during one event. *)
Inductive FindOutcome :=
| FindRejects                        (* [collection.findOne] rejects *)
| FindNull                           (* no document for this user *)
| FindDocument (doc : Document).

Record Env := mkEnv {
  now : Time;                        (* [new Date()] *)
  closeOk : nat → bool;              (* does [close()] on this stream resolve? *)
  watchOk : bool;                    (* does [collection.watch] return? *)
  findOne : FindOutcome;
  clientCloseOk : bool               (* does [client.close()] resolve? *)
}.

(** How a call that may throw ended. *)
Inductive Completion := Returned | Threw.

(** [changeStream.close()] on the stream at address [sid]: one more call
    recorded; the feed stops when the call resolves, and is left as it was
    when the call rejects. *)
Definition closeStream (ok : bool) (cs : ChangeStream) : ChangeStream :=
  mkChangeStream (cs_userId cs) (if ok then false else cs_live cs)
                 (S (cs_closeCalls cs)).

(** [stopWatching]: nothing without a registered stream; otherwise
    [await changeStream.close()], and the entry is deleted only when the
    close resolved (a rejection is caught and logged). *)
Definition stopWatching (userId : string) (e : Env)
    (st : WebSocketManager) : WebSocketManager :=
  match changeStreams (mongoManager st) !! userId with
  | Some sid =>
      let st1 := with_streams (alter (closeStream (closeOk e sid)) sid) st in
      if closeOk e sid
      then with_mongoManager (with_changeStreams (delete userId)) st1
      else st1
  | None => st
  end.

(** [watchUserData].  The callback argument is always the closure built in
    [handleUserSubscription], which broadcasts to the same [userId]; it is
    represented by [cs_userId] of the new stream. *)
Definition watchUserData (userId : string) (e : Env)
    (st : WebSocketManager) : WebSocketManager * Completion :=
  if negb (collection (mongoManager st)) || negb (isConnected (mongoManager st))
  then (st, Threw)                   (* 'Not connected to MongoDB' *)
  else if negb (changeStreamsEnabled (config (mongoManager st)))
  then (st, Returned)                (* warning only *)
  else
    let st1 := stopWatching userId e st in
    if watchOk e
    then
      let sid := length (streams st1) in
      let st2 := with_streams (λ h, h ++ [mkChangeStream userId true 0]) st1 in
      (with_mongoManager (with_changeStreams <[userId := sid]>) st2, Returned)
    else (st1, Threw).               (* logged and rethrown *)

(** [loadUserData]: [None] is the JavaScript [null]. *)
Definition loadUserData (userId : string) (e : Env) (st : WebSocketManager)
    : option UserDataStore * Completion :=
  if negb (collection (mongoManager st)) || negb (isConnected (mongoManager st))
  then (None, Threw)
  else match findOne e with
       | FindRejects => (None, Threw)
       | FindNull => (None, Returned)
       | FindDocument doc =>
           match convertMongoDocument doc with
           | Some data => (Some data, Returned)
           | None => (None, Threw)
           end
       end.

(** [connect]: a new [MongoClient] is stored first; when its [connect()]
    rejects only [isConnected] is reset. *)
Definition connect (ok : bool) (m : MongoDBManager) : MongoDBManager :=
  if ok
  then mkMongo true true true (config m) (changeStreams m)
  else mkMongo true (collection m) false (config m) (changeStreams m).

(** [connect] when [new MongoClient] itself throws (the driver refuses
    the connection string): [this.client] is not assigned, and the
    [catch] resets [isConnected]. *)
Definition connectRefused (m : MongoDBManager) : MongoDBManager :=
  mkMongo (client m) (collection m) false (config m) (changeStreams m).

(** The loop of [disconnect] over the registered streams: it stops at the
    first [close()] that rejects. *)
Fixpoint closeAll (e : Env) (entries : list (string * nat))
    (st : WebSocketManager) : WebSocketManager * Completion :=
  match entries with
  | [] => (st, Returned)
  | (_, sid) :: rest =>
      let st1 := with_streams (alter (closeStream (closeOk e sid)) sid) st in
      if closeOk e sid then closeAll e rest st1 else (st1, Threw)
  end.

(** [disconnect]: close every registered stream, clear the table, close
    the client.  Any rejection is logged and rethrown, leaving the rest
    undone. *)
Definition disconnect (e : Env) (st : WebSocketManager) : WebSocketManager :=
  match closeAll e (map_to_list (changeStreams (mongoManager st))) st with
  | (st1, Threw) => st1
  | (st1, Returned) =>
      let st2 := with_mongoManager (with_changeStreams (λ _, ∅)) st1 in
      if client (mongoManager st2)
      then if clientCloseOk e
           then with_mongoManager
                  (λ m, mkMongo false false false (config m) (changeStreams m)) st2
           else st2
      else st2
  end.

(** ** WebSocketManager: handlers *)

Definition connectionEstablished (clientId : string) (t : Time) : Message :=
  mkMessage "connection_established" (Some clientId) None None None (Some t).

Definition subscriptionConfirmed (userId : string) (t : Time) : Message :=
  mkMessage "subscription_confirmed" None (Some userId) None None (Some t).

Definition unsubscriptionConfirmed (userId : string) (t : Time) : Message :=
  mkMessage "unsubscription_confirmed" None (Some userId) None None (Some t).

Definition userDataMessage (userId : string) (data : UserDataStore) (t : Time)
    : Message :=
  mkMessage "user_data" None (Some userId) (Some data) None (Some t).

Definition dataUpdate (userId : string) (data : UserDataStore) (t : Time)
    : Message :=
  mkMessage "data_update" None (Some userId) (Some data) None (Some t).

(** The 'connection' listener: [generateClientId] is read from the
    environment; the new socket is OPEN and is greeted. *)
Definition onConnection (clientId : string) (t : Time)
    (st : WebSocketManager) : WebSocketManager :=
  sendMessage clientId (connectionEstablished clientId t)
              (with_clients <[clientId := OPEN]> st).

(** [handleUserSubscription].  The first three statements create the set
    if the map has none and add the client to it. *)
Definition addSubscriber (clientId userId : string)
    (subs : gmap string (gset string)) : gmap string (gset string) :=
  let subs1 := if decide (is_Some (subs !! userId)) then subs
               else <[userId := ∅]> subs in
  <[userId := default ∅ (subs1 !! userId) ∪ {[clientId]}]> subs1.

Definition handleUserSubscription (clientId userId : string) (e : Env)
    (st : WebSocketManager) : WebSocketManager :=
  let st1 := with_userSubscriptions (addSubscriber clientId userId) st in
  match watchUserData userId e st1 with
  | (st2, Returned) =>
      sendMessage clientId (subscriptionConfirmed userId (now e)) st2
  | (st2, Threw) =>
      sendError clientId "Failed to subscribe to user data" (now e) st2
  end.

(** [handleUserUnsubscription].  [userSubs.delete(clientId)] changes the
    set object the map holds, hence the map entry.  [stopWatching] catches
    its own errors, so the [catch] of this handler is not taken.  Here
    the [close()] that [stopWatching] awaits settles before anything else
    happens; [Interleaving.unsubscriptionBegin] is the handler up to that
    await, with the emptied set still in the map. *)
Definition handleUserUnsubscription (clientId userId : string) (e : Env)
    (st : WebSocketManager) : WebSocketManager :=
  let st1 :=
    match userSubscriptions st !! userId with
    | Some userSubs =>
        let userSubs' := userSubs ∖ {[clientId]} in
        let st' := with_userSubscriptions <[userId := userSubs']> st in
        if decide (size userSubs' = 0)
        then with_userSubscriptions (delete userId) (stopWatching userId e st')
        else st'
    | None => st
    end in
  sendMessage clientId (unsubscriptionConfirmed userId (now e)) st1.

Definition handleGetUserData (clientId userId : string) (e : Env)
    (st : WebSocketManager) : WebSocketManager :=
  match loadUserData userId e st with
  | (Some userData, Returned) =>
      sendMessage clientId (userDataMessage userId userData (now e)) st
  | (None, Returned) => sendError clientId "User data not found" (now e) st
  | (_, Threw) => sendError clientId "Failed to get user data" (now e) st
  end.

(** [handleMessage], on the parsed object. *)
Definition handleMessage (clientId type userId : string) (e : Env)
    (st : WebSocketManager) : WebSocketManager :=
  if decide (type = "subscribe_user")
  then handleUserSubscription clientId userId e st
  else if decide (type = "unsubscribe_user")
  then handleUserUnsubscription clientId userId e st
  else if decide (type = "get_user_data")
  then handleGetUserData clientId userId e st
  else sendError clientId ("Unknown message type: " +:+ type) (now e) st.

(** The text frame received on a socket, by what [JSON.parse] makes of
    it.  It throws ([Unparseable]); or it yields a value whose [type]
    cannot be read or cannot be rendered as text, [null] first of all
    ([Null]); or a value with no string under [type] (a number, an array,
    an object without [type] or with a number there, ...), of which the
    [switch] of [handleMessage] only uses the text that
    [`${message.type}`] renders ([Other]); or an object whose [type] and
    [userId] are strings, the frames of the protocol ([Parsed]).  An
    object with a string under [type] and something else than a string
    under [userId] is not represented. *)
Inductive RawMessage :=
| Unparseable
| Null
| Other (rendered : string)
| Parsed (type userId : string).

(** The 'message' listener.  It calls the [async] [handleMessage] without
    awaiting it, so its [catch] only sees what [JSON.parse] throws: on
    [Null], [handleMessage] rejects at [message.type], nothing handles
    the rejection and nothing is sent. *)
Definition onMessage (clientId : string) (raw : RawMessage) (e : Env)
    (st : WebSocketManager) : WebSocketManager :=
  match raw with
  | Unparseable => sendError clientId "Invalid message format" (now e) st
  | Null => st
  | Other rendered =>
      sendError clientId ("Unknown message type: " +:+ rendered) (now e) st
  | Parsed type userId => handleMessage clientId type userId e st
  end.

(** One turn of the loop of [handleClientDisconnect], on an entry of the
    snapshot [Array.from(this.userSubscriptions.entries())].  The set of
    the entry is the object the map still holds under [userId], so deleting
    from it shows in the map.  [stopWatching] is started and not awaited;
    here its [close()] settles at once, before the next turn.
    [Interleaving.disconnectEntryBegin] is the turn as the code takes it,
    with the close left pending and the stream still registered. *)
Definition disconnectEntry (clientId : string) (e : Env)
    (st : WebSocketManager) (entry : string * gset string) : WebSocketManager :=
  let userId := entry.1 in
  let userSubs' := entry.2 ∖ {[clientId]} in
  let st' := with_userSubscriptions <[userId := userSubs']> st in
  if decide (size userSubs' = 0)
  then with_userSubscriptions (delete userId) (stopWatching userId e st')
  else st'.

(** [handleClientDisconnect], the listener of 'close' and of 'error'. *)
Definition handleClientDisconnect (clientId : string) (e : Env)
    (st : WebSocketManager) : WebSocketManager :=
  with_clients (delete clientId)
    (foldl (disconnectEntry clientId e) st
           (map_to_list (userSubscriptions st))).

(** The 'change' listener of the stream at address [sid]; a stream that
    was closed or broke emits nothing. *)
Definition onChange (sid : nat) (change : ChangeStreamEvent) (t : Time)
    (st : WebSocketManager) : WebSocketManager :=
  match streams st !! sid with
  | Some cs =>
      if cs_live cs
      then match fullDocument change with
           | Some doc =>
               match convertMongoDocument doc with
               | Some userData =>
                   broadcastToUser (cs_userId cs)
                     (dataUpdate (cs_userId cs) userData t) st
               | None => st              (* caught and logged *)
               end
           | None => st
           end
      else st
  | None => st
  end.

(** The feed behind the stream at [sid] breaks.  The 'error' listener only
    logs: nothing of the broker changes, the feed itself is gone. *)
Definition breakStream (cs : ChangeStream) : ChangeStream :=
  mkChangeStream (cs_userId cs) false (cs_closeCalls cs).

Definition onStreamError (sid : nat) (st : WebSocketManager) : WebSocketManager :=
  with_streams (alter breakStream sid) st.

(** [getConnectionStats] *)
Record ConnectionStats := mkStats {
  totalClients : nat;
  totalUserSubscriptions : nat;
  mongoConnected : bool;
  activeChangeStreams : nat
}.

Definition getConnectionStats (st : WebSocketManager) : ConnectionStats :=
  mkStats (size (clients st)) (size (userSubscriptions st))
          (isConnected (mongoManager st))
          (size (changeStreams (mongoManager st))).

(** ** Events and runs *)

(** Everything that can happen to the broker: the listeners of the server,
    of a socket and of a change stream, its public methods, and a socket
    changing state under it.  [connectToMongo] comes by the way it ends:
    the driver connects or not ([ConnectToMongo]), or refuses the
    connection string when the client is built
    ([ConnectToMongoRefused]). *)
Inductive Event :=
| Connection (clientId : string) (t : Time)
| MessageFrom (clientId : string) (raw : RawMessage) (e : Env)
| SocketClose (clientId : string) (e : Env)
| SocketError (clientId : string) (e : Env)
| SocketState (clientId : string) (rs : ReadyState)
| Change (sid : nat) (change : ChangeStreamEvent) (t : Time)
| StreamError (sid : nat)
| ConnectToMongo (ok : bool)
| DisconnectFromMongo (e : Env)
| BroadcastToAll (message : Message)
| ConnectToMongoRefused.

Definition step (st : WebSocketManager) (ev : Event) : WebSocketManager :=
  match ev with
  | Connection clientId t => onConnection clientId t st
  | MessageFrom clientId raw e => onMessage clientId raw e st
  | SocketClose clientId e => handleClientDisconnect clientId e st
  | SocketError clientId e => handleClientDisconnect clientId e st
  | SocketState clientId rs =>
      with_clients (λ cl, if decide (is_Some (cl !! clientId))
                          then <[clientId := rs]> cl else cl) st
  | Change sid change t => onChange sid change t st
  | StreamError sid => onStreamError sid st
  | ConnectToMongo ok => with_mongoManager (connect ok) st
  | DisconnectFromMongo e => disconnect e st
  | BroadcastToAll message => broadcastToAll message st
  | ConnectToMongoRefused => with_mongoManager connectRefused st
  end.

Definition run (evs : list Event) (st : WebSocketManager) : WebSocketManager :=
  foldl step st evs.

(** An environment in which every outside call succeeds. *)
Definition calm (t : Time) : Env := mkEnv t (λ _, true) true FindNull true.

Definition subscribe (clientId userId : string) (e : Env) : Event :=
  MessageFrom clientId (Parsed "subscribe_user" userId) e.

Definition unsubscribe (clientId userId : string) (e : Env) : Event :=
  MessageFrom clientId (Parsed "unsubscribe_user" userId) e.

(** The stream object and the table after a successful [collection.watch]. *)
Definition opened (userId : string) (st : WebSocketManager) : WebSocketManager :=
  with_mongoManager (with_changeStreams <[userId := length (streams st)]>)
    (with_streams (λ h, h ++ [mkChangeStream userId true 0]) st).

(** ** Handlers suspended at an [await]

    The handlers above are the handlers as they run when nothing else
    happens before they end.  That is not all the code does:
    [stopWatching] awaits [changeStream.close()] and [loadUserData] awaits
    [collection.findOne], calls that go to the store and back; until such
    a call settles the handler that awaits it is suspended and the broker
    handles other events.  Below, the handlers of the socket events are
    cut at these awaits: the part before the await runs when the event
    arrives, the part after it when the call settles, in the state the
    broker is in by then.  ([handleClientDisconnect] does not await the
    [stopWatching] it starts and returns at once; the rest of that
    [stopWatching] then runs on its own.)  An [await] on a call that
    returned without going to the store (a [stopWatching] that finds no
    stream, a [watchUserData] that returns at its guards) resumes in a
    microtask, before the event loop dispatches the next event, and is
    not cut: a state of the broker is what an event finds when it is
    dispatched.  The [Env] of an event
    still holds every answer of the outside world to the handler,
    whenever the handler gets it.  [connect] and [disconnect] of the
    store, the public methods behind [connectToMongo] and
    [disconnectFromMongo], are taken in one piece. *)

Module Interleaving.

(** A suspended handler: a [stopWatching (userId)], with the stream it
    called [close()] on, and whose call it is, which says what runs
    next; or a [handleGetUserData] waiting for [findOne]. *)
Inductive Suspended :=
| InSubscription (clientId userId : string) (sid : nat) (e : Env)
| InUnsubscription (clientId userId : string) (sid : nat) (e : Env)
| InDisconnect (userId : string) (sid : nat) (e : Env)
| InGetUserData (clientId userId : string) (e : Env).

(** [stopWatching] up to its await ... *)
Definition stopWatchingCall (userId : string) (e : Env)
    (st : WebSocketManager) : WebSocketManager * option nat :=
  match changeStreams (mongoManager st) !! userId with
  | Some sid =>
      (with_streams (alter (closeStream (closeOk e sid)) sid) st, Some sid)
  | None => (st, None)
  end.

(** ... and after it: [this.changeStreams.delete(userId)] removes what
    is registered under [userId] by then. *)
Definition stopWatchingSettled (userId : string) (sid : nat) (e : Env)
    (st : WebSocketManager) : WebSocketManager :=
  if closeOk e sid
  then with_mongoManager (with_changeStreams (delete userId)) st
  else st.

(** [watchUserData] after [await this.stopWatching(userId)], then the
    end of [handleUserSubscription].  The guards of [watchUserData] were
    passed before the await and are not evaluated again:
    [this.collection.watch] throws when [this.collection] is null by now
    (the store was disconnected in between), or when the driver makes it
    throw. *)
Definition subscriptionRest (clientId userId : string) (e : Env)
    (st : WebSocketManager) : WebSocketManager :=
  if collection (mongoManager st) && watchOk e
  then sendMessage clientId (subscriptionConfirmed userId (now e))
                   (opened userId st)
  else sendError clientId "Failed to subscribe to user data" (now e) st.

Definition subscriptionBegin (clientId userId : string) (e : Env)
    (st : WebSocketManager) : WebSocketManager * list Suspended :=
  let st1 := with_userSubscriptions (addSubscriber clientId userId) st in
  if negb (collection (mongoManager st1)) || negb (isConnected (mongoManager st1))
  then (sendError clientId "Failed to subscribe to user data" (now e) st1, [])
  else if negb (changeStreamsEnabled (config (mongoManager st1)))
  then (sendMessage clientId (subscriptionConfirmed userId (now e)) st1, [])
  else match stopWatchingCall userId e st1 with
       | (st2, Some sid) => (st2, [InSubscription clientId userId sid e])
       | (st2, None) => (subscriptionRest clientId userId e st2, [])
       end.

(** The end of [handleUserUnsubscription], after
    [await this.mongoManager.stopWatching(userId)]. *)
Definition unsubscriptionRest (clientId userId : string) (e : Env)
    (st : WebSocketManager) : WebSocketManager :=
  sendMessage clientId (unsubscriptionConfirmed userId (now e))
              (with_userSubscriptions (delete userId) st).

Definition unsubscriptionBegin (clientId userId : string) (e : Env)
    (st : WebSocketManager) : WebSocketManager * list Suspended :=
  match userSubscriptions st !! userId with
  | Some userSubs =>
      let userSubs' := userSubs ∖ {[clientId]} in
      let st' := with_userSubscriptions <[userId := userSubs']> st in
      if decide (size userSubs' = 0)
      then match stopWatchingCall userId e st' with
           | (st2, Some sid) => (st2, [InUnsubscription clientId userId sid e])
           | (st2, None) => (unsubscriptionRest clientId userId e st2, [])
           end
      else (sendMessage clientId (unsubscriptionConfirmed userId (now e)) st', [])
  | None => (sendMessage clientId (unsubscriptionConfirmed userId (now e)) st, [])
  end.

(** One turn of the loop of [handleClientDisconnect]: the entry is
    deleted at once, the [stopWatching] it started is left suspended. *)
Definition disconnectEntryBegin (clientId : string) (e : Env)
    (acc : WebSocketManager * list Suspended) (entry : string * gset string)
    : WebSocketManager * list Suspended :=
  let userId := entry.1 in
  let userSubs' := entry.2 ∖ {[clientId]} in
  let st' := with_userSubscriptions <[userId := userSubs']> acc.1 in
  if decide (size userSubs' = 0)
  then match stopWatchingCall userId e st' with
       | (st2, Some sid) =>
           (with_userSubscriptions (delete userId) st2,
            acc.2 ++ [InDisconnect userId sid e])
       | (st2, None) => (with_userSubscriptions (delete userId) st2, acc.2)
       end
  else (st', acc.2).

Definition disconnectBegin (clientId : string) (e : Env)
    (st : WebSocketManager) : WebSocketManager * list Suspended :=
  let done := foldl (disconnectEntryBegin clientId e) (st, [])
                    (map_to_list (userSubscriptions st)) in
  (with_clients (delete clientId) done.1, done.2).

(** The turn of the loop on [entry], on a state alone. *)
Definition disconnectTurn (clientId : string) (e : Env)
    (st : WebSocketManager) (entry : string * gset string)
    : WebSocketManager * list Suspended :=
  disconnectEntryBegin clientId e (st, []) entry.

(** [handleGetUserData]: [loadUserData] throws at its guard, or awaits
    [findOne]; the answer is sent when that settles. *)
Definition getUserDataRest (clientId userId : string) (e : Env)
    (st : WebSocketManager) : WebSocketManager :=
  match findOne e with
  | FindRejects => sendError clientId "Failed to get user data" (now e) st
  | FindNull => sendError clientId "User data not found" (now e) st
  | FindDocument doc =>
      match convertMongoDocument doc with
      | Some userData =>
          sendMessage clientId (userDataMessage userId userData (now e)) st
      | None => sendError clientId "Failed to get user data" (now e) st
      end
  end.

Definition getUserDataBegin (clientId userId : string) (e : Env)
    (st : WebSocketManager) : WebSocketManager * list Suspended :=
  if negb (collection (mongoManager st)) || negb (isConnected (mongoManager st))
  then (sendError clientId "Failed to get user data" (now e) st, [])
  else (st, [InGetUserData clientId userId e]).

(** Suspended [stopWatching]s of [handleClientDisconnect], for users
    other than [keys]. *)
Definition strangers (keys : list string) (pending : list Suspended) : Prop :=
  Forall (λ waiting, ∃ userId sid e',
            waiting = InDisconnect userId sid e' ∧ userId ∉ keys) pending.

(** What an event does when it arrives, and the handlers it leaves
    suspended.  The events whose handlers await nothing are handled in
    one piece. *)
Definition begin (ev : Event) (st : WebSocketManager)
    : WebSocketManager * list Suspended :=
  match ev with
  | MessageFrom clientId (Parsed type userId) e =>
      if decide (type = "subscribe_user")
      then subscriptionBegin clientId userId e st
      else if decide (type = "unsubscribe_user")
      then unsubscriptionBegin clientId userId e st
      else if decide (type = "get_user_data")
      then getUserDataBegin clientId userId e st
      else (step st ev, [])
  | SocketClose clientId e | SocketError clientId e =>
      disconnectBegin clientId e st
  | _ => (step st ev, [])
  end.

(** The call a handler awaits settles and the handler goes on. *)
Definition resume (st : WebSocketManager) (waiting : Suspended) : WebSocketManager :=
  match waiting with
  | InSubscription clientId userId sid e =>
      subscriptionRest clientId userId e (stopWatchingSettled userId sid e st)
  | InUnsubscription clientId userId sid e =>
      unsubscriptionRest clientId userId e (stopWatchingSettled userId sid e st)
  | InDisconnect userId sid e => stopWatchingSettled userId sid e st
  | InGetUserData clientId userId e => getUserDataRest clientId userId e st
  end.

(** A schedule: events arrive, and pending calls settle, in any order. *)
Inductive Move :=
| Arrive (ev : Event)
| Settle (i : nat).

Definition move (p : WebSocketManager * list Suspended) (m : Move)
    : WebSocketManager * list Suspended :=
  match m with
  | Arrive ev => ((begin ev p.1).1, p.2 ++ (begin ev p.1).2)
  | Settle i =>
      match p.2 !! i with
      | Some waiting => (resume p.1 waiting, delete i p.2)
      | None => p
      end
  end.

Definition play (moves : list Move) (st : WebSocketManager)
    : WebSocketManager * list Suspended :=
  foldl move (st, []) moves.

(** Every call an event started settles before anything else happens. *)
Definition settleAll (p : WebSocketManager * list Suspended) : WebSocketManager :=
  foldl resume p.1 p.2.

(** The events of a schedule, in the order of their arrival. *)
Definition events (moves : list Move) : list Event :=
  omap (λ m, match m with Arrive ev => Some ev | Settle _ => None end) moves.

(** A schedule in which no two handlers overlap: every event arrives when
    no handler is suspended, that is, after every call started by the
    events before it has settled. *)
Fixpoint oneAtATime (moves : list Move) (p : WebSocketManager * list Suspended)
    : bool :=
  match moves with
  | [] => true
  | m :: rest =>
      match m, p.2 with
      | Arrive _, _ :: _ => false
      | _, _ => oneAtATime rest (move p m)
      end
  end.

(** The schedule that handles the events one at a time when none of them
    leaves more than one call pending. *)
Definition inTurn (evs : list Event) : list Move :=
  evs ≫= λ ev, [Arrive ev; Settle 0].

(** An empty set is in the subscription map only while the unsubscribe
    that emptied it is suspended. *)
Definition emptiesAwaited (p : WebSocketManager * list Suspended) : Prop :=
  ∀ userId,
    userSubscriptions p.1 !! userId = Some ∅ →
    ∃ clientId sid e, InUnsubscription clientId userId sid e ∈ p.2.


(** The calls one event leaves pending: at most one, or the closes that
    [handleClientDisconnect] started and did not await. *)
Definition ofOneEvent (pending : list Suspended) : Prop :=
  (length pending ≤ 1)%nat ∨ strangers [] pending.

(** With change streams off no handler ever awaits a [close()]: the only
    call left pending is the [findOne] of a [handleGetUserData]. *)
Definition onlyFetches (pending : list Suspended) : Prop :=
  Forall (λ waiting, ∃ clientId userId e,
            waiting = InGetUserData clientId userId e) pending.

End Interleaving.

(** ** Predicates on broker states *)

(** The owner has a change stream registered in [changeStreams]. *)
Definition watching (st : WebSocketManager) (userId : string) : Prop :=
  is_Some (changeStreams (mongoManager st) !! userId).

(** The change streams that deliver changes of [userId]: every stream
    object ever created for that user whose feed is still running, whether
    or not the broker still holds it in [changeStreams]. *)
Definition delivering (userId : string) (cs : ChangeStream) : Prop :=
  cs_userId cs = userId ∧ cs_live cs = true.

#[global] Instance delivering_dec userId cs : Decision (delivering userId cs).
Proof. unfold delivering. apply _. Defined.

Definition activeWatches (st : WebSocketManager) (userId : string) : nat :=
  length (filter (delivering userId) (streams st)).

(** The recipients of a broadcast to [userId]: the subscribers whose
    socket is registered and OPEN, listed in the order of [elements];
    [Set.forEach] visits them in insertion order, so the frames of one
    broadcast to different sockets may come in another order on the real
    wire. *)
Definition openSocket (st : WebSocketManager) (clientId : string) : Prop :=
  clients st !! clientId = Some OPEN.

#[global] Instance openSocket_dec st clientId : Decision (openSocket st clientId).
Proof. unfold openSocket. apply _. Defined.

Definition recipients (st : WebSocketManager) (userId : string) : list string :=
  filter (openSocket st) (elements (subscribers st userId)).

(** The store is connected and change streams are switched on. *)
Definition storeReady (st : WebSocketManager) : Prop :=
  collection (mongoManager st) = true ∧ isConnected (mongoManager st) = true ∧
  changeStreamsEnabled (config (mongoManager st)) = true.

(** No set stored in the subscription map is empty. *)
Definition entriesNonEmpty (st : WebSocketManager) : Prop :=
  ∀ userId userSubs,
    userSubscriptions st !! userId = Some userSubs → userSubs ≠ ∅.

(** Every registered stream is an object of the heap, created for the user
    it is registered under. *)
Definition registryInHeap (st : WebSocketManager) : Prop :=
  ∀ userId sid,
    changeStreams (mongoManager st) !! userId = Some sid →
    ∃ cs, streams st !! sid = Some cs ∧ cs_userId cs = userId.

(** Every running feed is the one registered for its user. *)
Definition liveTracked (st : WebSocketManager) : Prop :=
  ∀ sid cs,
    streams st !! sid = Some cs → cs_live cs = true →
    changeStreams (mongoManager st) !! cs_userId cs = Some sid.

Definition watchedHaveSubscribers (st : WebSocketManager) : Prop :=
  ∀ userId, watching st userId → is_Some (userSubscriptions st !! userId).

Definition subscribedAreWatched (st : WebSocketManager) : Prop :=
  ∀ userId, is_Some (userSubscriptions st !! userId) → watching st userId.

(** Conditions on the environment of an event. *)
Definition envOf (ev : Event) : option Env :=
  match ev with
  | MessageFrom _ _ e | SocketClose _ e | SocketError _ e
  | DisconnectFromMongo e => Some e
  | _ => None
  end.

(** Every [close()] awaited during the event resolves. *)
Definition closesResolve (ev : Event) : Prop :=
  ∀ e, envOf ev = Some e → ∀ sid, closeOk e sid = true.

(** Nothing fails during the event and the store stays connected. *)
Definition untroubled (ev : Event) : Prop :=
  closesResolve ev ∧
  (∀ e, envOf ev = Some e → watchOk e = true) ∧
  match ev with
  | ConnectToMongo ok => ok = true
  | DisconnectFromMongo _ | ConnectToMongoRefused => False
  | _ => True
  end.

(** Every registered stream is an object of the heap, created for the user
    it is registered under, whose feed is running. *)
Definition registeredRunning (st : WebSocketManager) : Prop :=
  ∀ userId sid,
    changeStreams (mongoManager st) !! userId = Some sid →
    ∃ cs, streams st !! sid = Some cs ∧ cs_userId cs = userId ∧ cs_live cs = true.

(** Nothing fails during the event, and it is not a feed that breaks. *)
Definition quiet (ev : Event) : Prop :=
  untroubled ev ∧ ∀ sid, ev ≠ StreamError sid.

(** The outbound message types of the wire format as the specification
    lists them, and as the handlers spell them. *)
Definition specTypes : list string :=
  ["connection_established"; "subscribed"; "unsubscribed"; "data_update";
   "snapshot"; "error"].

Definition handlerTypes : list string :=
  ["connection_established"; "subscription_confirmed";
   "unsubscription_confirmed"; "data_update"; "user_data"; "error"].

Definition wellFormed (types : list string) (message : Message) : Prop :=
  msg_type message ∈ types ∧ is_Some (msg_timestamp message).

#[global] Instance wellFormed_dec types message : Decision (wellFormed types message).
Proof. unfold wellFormed. apply _. Defined.

(** The messages handed to [broadcastToAll] by its callers. *)
Definition callerMessages (evs : list Event) : list Message :=
  omap (λ ev, match ev with BroadcastToAll m => Some m | _ => None end) evs.

(** What [handleUserSubscription] answers, by the way [watchUserData]
    ended. *)
Definition subscriptionReply (userId : string) (e : Env) (c : Completion) : Message :=
  match c with
  | Returned => subscriptionConfirmed userId (now e)
  | Threw => errorMessage "Failed to subscribe to user data" (now e)
  end.

(** Two states with the same subscription index and the same store side
    (they may differ in the client registry and in the wire). *)
Definition sameCore (st st' : WebSocketManager) : Prop :=
  userSubscriptions st' = userSubscriptions st ∧
  mongoManager st' = mongoManager st ∧ streams st' = streams st.

(** The invariants of the broker: of every run ([sound]), of the runs in
    which no [close()] rejects ([tidy]), of the runs in which nothing
    fails once the store is connected with change streams on
    ([balanced]). *)
Definition sound (st : WebSocketManager) : Prop :=
  entriesNonEmpty st ∧ registryInHeap st.

Definition tidy (st : WebSocketManager) : Prop :=
  sound st ∧ liveTracked st ∧ watchedHaveSubscribers st.

Definition balanced (st : WebSocketManager) : Prop :=
  tidy st ∧ storeReady st ∧ subscribedAreWatched st.

(** The types of the messages built by the handlers that answer a
    client, [data_update] apart. *)
Definition replyTypes : list string :=
  ["connection_established"; "subscription_confirmed";
   "unsubscription_confirmed"; "user_data"; "error"].

(** The messages an event can put on the wire: [broadcastToAll] forwards
    what its caller passes; a change yields a [data_update] built for the
    user of a running stream; everything else is a reply. *)
Definition emitted (st : WebSocketManager) (ev : Event) (message : Message) : Prop :=
  match ev with
  | BroadcastToAll m => message = m
  | Change sid _ t =>
      ∃ cs userData, streams st !! sid = Some cs ∧ cs_live cs = true ∧
                     message = dataUpdate (cs_userId cs) userData t
  | _ => wellFormed replyTypes message
  end.

(** [st'] is [st] with more frames on the wire, all carrying messages
    that satisfy [Q]. *)
Definition wireGrows (Q : Message → Prop) (st st' : WebSocketManager) : Prop :=
  ∃ frames, wire st' = wire st ++ frames ∧ Forall (λ f, Q f.2) frames.

(** Change streams are off and there is no stream at all. *)
Definition featureOff (st : WebSocketManager) : Prop :=
  changeStreamsEnabled (config (mongoManager st)) = false ∧
  changeStreams (mongoManager st) = ∅ ∧ streams st = [].

(** ** Scenarios *)

Definition enabledConfig : CloudStorageConfig := mkConfig (Some true).
Definition unsetConfig : CloudStorageConfig := mkConfig None.

(** Three clients connected, the store connected, and "c1" subscribed to
    "acct-1": one stream, at address 0, registered and running. *)
Definition arrivals : list Event :=
  [Connection "c1" 0; Connection "c2" 0; Connection "c3" 0; ConnectToMongo true].

Definition acct1Watched : WebSocketManager :=
  run (arrivals ++ [subscribe "c1" "acct-1" (calm 1)]) (init enabledConfig).


(** An environment in which [close()] rejects. *)
Definition closeRejects (t : Time) : Env := mkEnv t (λ _, false) true FindNull true.

(** An environment in which [collection.watch] throws. *)
Definition watchThrows (t : Time) : Env := mkEnv t (λ _, true) false FindNull true.

(** A run in which nothing fails: two clients subscribe to "acct-1", one
    disconnects, the other unsubscribes. *)
Definition quietDay : list Event :=
  [Connection "c1" 0; subscribe "c1" "acct-1" (calm 1);
   Connection "c2" 2; subscribe "c2" "acct-1" (calm 3);
   SocketClose "c1" (calm 4); unsubscribe "c2" "acct-1" (calm 5)].

(** "c1" (socket open) and "c2" (socket closing) subscribed to "acct-1". *)
Definition oneOpenOneClosing : WebSocketManager :=
  run [subscribe "c2" "acct-1" (calm 2); SocketState "c2" CLOSING] acct1Watched.

(** ** Beyond the subscription engine *)

(** The clients [broadcastToAll] reaches: the registered sockets that are
    OPEN, in the order in which the registry is walked. *)
Definition openClients (st : WebSocketManager) : list string :=
  (filter (λ entry : string * ReadyState, entry.2 = OPEN)
          (map_to_list (clients st))).*1.

(** What the broker answers to a frame, by the handler the frame goes
    to; [None] for a frame that gets no answer. *)
Definition replyTo (clientId : string) (raw : RawMessage) (e : Env)
    (st : WebSocketManager) : option Message :=
  match raw with
  | Unparseable => Some (errorMessage "Invalid message format" (now e))
  | Null => None
  | Other rendered =>
      Some (errorMessage ("Unknown message type: " +:+ rendered) (now e))
  | Parsed type userId =>
      Some
        (if decide (type = "subscribe_user")
         then subscriptionReply userId e (watchUserData userId e st).2
         else if decide (type = "unsubscribe_user")
         then unsubscriptionConfirmed userId (now e)
         else if decide (type = "get_user_data")
         then match loadUserData userId e st with
              | (Some userData, Returned) => userDataMessage userId userData (now e)
              | (None, Returned) => errorMessage "User data not found" (now e)
              | (_, Threw) => errorMessage "Failed to get user data" (now e)
              end
         else errorMessage ("Unknown message type: " +:+ type) (now e))
  end.

(** The frame a reply makes on the wire: one frame, if there is a reply
    and the socket of the client is registered and OPEN. *)
Definition replyFrame (st : WebSocketManager) (clientId : string)
    (reply : option Message) : list (string * Message) :=
  match reply with
  | Some message => if isOpen st clientId then [(clientId, message)] else []
  | None => []
  end.

(** The frames of a wire addressed to one client. *)
Definition framesFor (clientId : string) (w : list (string * Message))
    : list (string * Message) :=
  filter (λ f, f.1 = clientId) w.

(** [st'] is [st] with more frames on the wire, all addressed to clients
    that satisfy [P]. *)
Definition sentTo (P : string → Prop) (st st' : WebSocketManager) : Prop :=
  ∃ frames, wire st' = wire st ++ frames ∧ Forall (λ f, P f.1) frames.

(** What happens after [quietDay]: another client connects and subscribes,
    a document changes, and a notice is broadcast to everybody. *)
Definition afterwards : list Event :=
  [Connection "c3" 6; subscribe "c3" "acct-1" (calm 7);
   Change 1 (mkChange (Some (WellFormed "books"))) 8;
   BroadcastToAll (errorMessage "maintenance" 9)].

(** The only subscriber of "acct-1" unsubscribes; the close its handler
    awaits settles before anything else arrives. *)
Definition unsubscribeSettled : list Interleaving.Move :=
  [Interleaving.Arrive (Connection "c1" 0);
   Interleaving.Arrive (ConnectToMongo true);
   Interleaving.Arrive (subscribe "c1" "acct-1" (calm 1));
   Interleaving.Arrive (unsubscribe "c1" "acct-1" (calm 2));
   Interleaving.Settle 0].

(** The same, up to the moment the unsubscribe is suspended at the
    [close()] of the stream of "acct-1". *)
Definition unsubscribeAwaits : list Interleaving.Move :=
  [Interleaving.Arrive (Connection "c1" 0);
   Interleaving.Arrive (ConnectToMongo true);
   Interleaving.Arrive (subscribe "c1" "acct-1" (calm 1));
   Interleaving.Arrive (unsubscribe "c1" "acct-1" (calm 2))].

(** Two clients subscribe to "acct-1" and a third to "acct-2"; the third
    and the first disconnect.  "c2" is left subscribed to "acct-1". *)
Definition busyDay : list Event :=
  [Connection "c1" 0; subscribe "c1" "acct-1" (calm 1);
   Connection "c2" 2; subscribe "c2" "acct-1" (calm 3);
   Connection "c3" 4; subscribe "c3" "acct-2" (calm 5);
   SocketClose "c3" (calm 6); SocketClose "c1" (calm 7)].


(** * The business managers

    [BusinessManager] (src/core/BusinessManager.ts) and the managers it
    drives (src/managers/).  A manager is the value of its private field;
    a method is a function from that value to the new value and the
    result.  An array is a list of distinct objects; [find] and
    [findIndex] are [list_find], and an assignment to a field of the
    object found is [alter] at its index.  A [Map] is a [JSMap.t], the
    association list of its entries in insertion order. *)

(** JavaScript numbers.  The managers add and multiply them; nothing
    below relies on a law of arithmetic, so the properties hold for IEEE
    doubles as for any other interpretation. *)
Class JSNumber (N : Type) := {
  jsZero : N;
  jsAdd : N → N → N;
  jsMul : N → N → N
}.

(** Integer amounts, for the examples. *)
#[global] Instance JSNumber_Z : JSNumber Z := {| jsZero := 0%Z; jsAdd := Z.add; jsMul := Z.mul |}.

(** What a call reads from outside: [Date.now()] and the nine characters
    kept of [Math.random().toString(36)], both used by [generateId]; the
    successive readings of [new Date()], and the local year and month
    (0 to 11) of the first of them. *)
Record Outside := mkOutside {
  dateNow : nat;
  mathRandom : string;
  newDate : nat → Time;
  fullYear : nat;
  month : nat
}.

(** A call that returns or throws [new Error(message)]. *)
Inductive Outcome (A : Type) :=
| Ok (a : A)
| Error (message : string).
Arguments Ok {A} a.
Arguments Error {A} message.

(** [s.padStart(n, '0')] *)
Fixpoint zeros (k : nat) : string :=
  match k with
  | 0 => ""
  | S k => "0" +:+ zeros k
  end.

Definition padStart (n : nat) (s : string) : string :=
  zeros (n - String.length s) +:+ s.

(** ** [Map<string, V>] *)

Module JSMap.

Abbreviation t V := (list (string * V)) (only parsing).

Definition index {V} (k : string) (m : t V) : option (nat * (string * V)) :=
  list_find (λ kv, kv.1 = k) m.

Definition get {V} (k : string) (m : t V) : option V :=
  (λ found : nat * (string * V), found.2.2) <$> index k m.

Definition has {V} (k : string) (m : t V) : bool :=
  bool_decide (is_Some (index k m)).

(** [set] keeps the position of a key the map already has. *)
Definition set {V} (k : string) (v : V) (m : t V) : t V :=
  match index k m with
  | Some (i, _) => <[i := (k, v)]> m
  | None => m ++ [(k, v)]
  end.

Definition values {V} (m : t V) : list V := m.*2.

Definition keys {V} (m : t V) : list string := m.*1.

End JSMap.

(** ** Customers *)

Module Customer.

Record t {N : Type} := mk {
  id : string;
  name : string;
  email : option string;
  phone : option string;
  address : option string;
  taxExempt : bool;
  discountRate : option N;
  isActive : bool
}.
Arguments t : clear implicits.
Arguments mk {N}.

(** [Partial<Customer>]: [None] for a property the object does not have. *)
Record partial {N : Type} := mkPartial {
  p_id : option string;
  p_name : option string;
  p_email : option (option string);
  p_phone : option (option string);
  p_address : option (option string);
  p_taxExempt : option bool;
  p_discountRate : option (option N);
  p_isActive : option bool
}.
Arguments partial : clear implicits.
Arguments mkPartial {N}.

(** [{ ...customer, ...updates }] *)
Definition merge {N} (customer : t N) (updates : partial N) : t N :=
  mk (default (id customer) (p_id updates))
     (default (name customer) (p_name updates))
     (default (email customer) (p_email updates))
     (default (phone customer) (p_phone updates))
     (default (address customer) (p_address updates))
     (default (taxExempt customer) (p_taxExempt updates))
     (default (discountRate customer) (p_discountRate updates))
     (default (isActive customer) (p_isActive updates)).

End Customer.

Module CustomerManager.

Abbreviation t N := (JSMap.t (Customer.t N)) (only parsing).

Definition addCustomer {N} (customer : Customer.t N) (m : t N) : t N * bool :=
  if JSMap.has (Customer.id customer) m
  then (m, false)
  else (JSMap.set (Customer.id customer) customer m, true).

(** The constructor: [customers.forEach(customer => this.addCustomer(customer))] *)
Definition new {N} (customers : option (list (Customer.t N))) : t N :=
  foldl (λ m customer, (addCustomer customer m).1) [] (default [] customers).

Definition getCustomer {N} (id : string) (m : t N) : option (Customer.t N) :=
  JSMap.get id m.

Definition getAllCustomers {N} (activeOnly : bool) (m : t N) : list (Customer.t N) :=
  if activeOnly
  then filter (λ customer, Customer.isActive customer = true) (JSMap.values m)
  else JSMap.values m.

Definition updateCustomer {N} (id : string) (updates : Customer.partial N)
    (m : t N) : t N * bool :=
  match JSMap.get id m with
  | Some customer => (JSMap.set id (Customer.merge customer updates) m, true)
  | None => (m, false)
  end.

Definition deactivateCustomer {N} (id : string) (m : t N) : t N * bool :=
  updateCustomer id
    (Customer.mkPartial None None None None None None None (Some false)) m.

Definition activateCustomer {N} (id : string) (m : t N) : t N * bool :=
  updateCustomer id
    (Customer.mkPartial None None None None None None None (Some true)) m.

(** Every customer is stored under its own [id], once. *)
Definition wellKeyed {N} (m : t N) : Prop :=
  NoDup (JSMap.keys m) ∧ Forall (λ kv, Customer.id kv.2 = kv.1) m.

End CustomerManager.

(** ** Rental items *)

Module RentalItem.

Record t {N : Type} := mk {
  id : string;
  name : string;
  description : option string;
  dailyRate : N;
  unit : string;
  category : option string;
  isActive : bool
}.
Arguments t : clear implicits.
Arguments mk {N}.

End RentalItem.

Module RentalItemManager.

Abbreviation t N := (JSMap.t (RentalItem.t N)) (only parsing).

Definition addItem {N} (item : RentalItem.t N) (m : t N) : t N * bool :=
  if JSMap.has (RentalItem.id item) m
  then (m, false)
  else (JSMap.set (RentalItem.id item) item m, true).

Definition new {N} (items : option (list (RentalItem.t N))) : t N :=
  foldl (λ m item, (addItem item m).1) [] (default [] items).

Definition getAllItems {N} (activeOnly : bool) (m : t N) : list (RentalItem.t N) :=
  if activeOnly
  then filter (λ item, RentalItem.isActive item = true) (JSMap.values m)
  else JSMap.values m.

(** Every item is stored under its own [id], once. *)
Definition wellKeyed {N} (m : t N) : Prop :=
  NoDup (JSMap.keys m) ∧ Forall (λ kv, RentalItem.id kv.2 = kv.1) m.

(** [item.category || 'Uncategorized']: the empty string is falsy too. *)
Definition categoryOf {N} (item : RentalItem.t N) : string :=
  match RentalItem.category item with
  | Some c => if decide (c = "") then "Uncategorized" else c
  | None => "Uncategorized"
  end.

(** One turn of the loop of [getItemCountByCategory]:
    [categoryCount.set(category, (categoryCount.get(category) || 0) + 1)] *)
Definition countItem {N} (categoryCount : JSMap.t nat) (item : RentalItem.t N)
    : JSMap.t nat :=
  let category := categoryOf item in
  JSMap.set category (default 0 (JSMap.get category categoryCount) + 1)
            categoryCount.

Definition getItemCountByCategory {N} (activeOnly : bool) (m : t N) : JSMap.t nat :=
  foldl countItem [] (getAllItems activeOnly m).

End RentalItemManager.

(** ** Challans *)

Module Challan.

Inductive Status := pending | delivered | returned | cancelled.

#[global] Instance Status_eq_dec : EqDecision Status.
Proof. solve_decision. Defined.

(** [Omit<ChallanItem, 'itemName'>] *)
Record itemInput {N : Type} := mkInput {
  in_itemId : string;
  in_quantity : N;
  in_dailyRate : N;
  in_notes : option string
}.
Arguments itemInput : clear implicits.
Arguments mkInput {N}.

Record item {N : Type} := mkItem {
  itemId : string;
  itemName : string;
  quantity : N;
  dailyRate : N;
  itemNotes : option string
}.
Arguments item : clear implicits.
Arguments mkItem {N}.

(** A [ChallanItem] where an [Omit<ChallanItem, 'itemName'>] is expected. *)
Definition withoutName {N} (i : item N) : itemInput N :=
  mkInput (itemId i) (quantity i) (dailyRate i) (itemNotes i).

Record t {N : Type} := mk {
  id : string;
  challanNumber : string;
  customerId : string;
  customerName : string;
  challanDate : Time;
  items : list (item N);
  totalAmount : N;
  status : Status;
  notes : option string;
  createdAt : Time;
  updatedAt : Time
}.
Arguments t : clear implicits.
Arguments mk {N}.

End Challan.

Module ChallanManager.

Abbreviation t N := (list (Challan.t N)) (only parsing).

Definition new {N} (challans : option (list (Challan.t N))) : t N :=
  default [] challans.

Definition generateId (o : Outside) : string :=
  "challan_" +:+ pretty (dateNow o) +:+ "_" +:+ mathRandom o.

Definition generateChallanNumber {N} (o : Outside) (s : t N) : string :=
  "CH-" +:+ pretty (fullYear o) +:+ padStart 2 (pretty (month o + 1)) +:+ "-"
        +:+ padStart 4 (pretty (length s + 1)).

Definition calculateChallanTotal {N} `{JSNumber N}
    (items : list (Challan.itemInput N)) : N :=
  foldl (λ total item,
           jsAdd total (jsMul (Challan.in_quantity item) (Challan.in_dailyRate item)))
        jsZero items.

Definition named {N} (item : Challan.itemInput N) : Challan.item N :=
  Challan.mkItem (Challan.in_itemId item) ("Item " +:+ Challan.in_itemId item)
                 (Challan.in_quantity item) (Challan.in_dailyRate item)
                 (Challan.in_notes item).

(** [createChallan]: the first [new Date()] is read by
    [generateChallanNumber], the next three fill the dates. *)
Definition createChallan {N} `{JSNumber N} (customerId customerName : string)
    (items : list (Challan.itemInput N)) (notes : option string)
    (o : Outside) (s : t N) : t N * Challan.t N :=
  let challan :=
    Challan.mk (generateId o) (generateChallanNumber o s) customerId customerName
               (newDate o 1) (named <$> items) (calculateChallanTotal items)
               Challan.pending notes (newDate o 2) (newDate o 3) in
  (s ++ [challan], challan).

Definition index {N} (challanId : string) (s : t N) : option (nat * Challan.t N) :=
  list_find (λ c, Challan.id c = challanId) s.

Definition getChallan {N} (challanId : string) (s : t N) : option (Challan.t N) :=
  snd <$> index challanId s.

Definition getChallansByStatus {N} (status : Challan.Status) (s : t N)
    : list (Challan.t N) :=
  filter (λ c, Challan.status c = status) s.

Definition setStatus {N} (status : Challan.Status) (now : Time)
    (c : Challan.t N) : Challan.t N :=
  Challan.mk (Challan.id c) (Challan.challanNumber c) (Challan.customerId c)
             (Challan.customerName c) (Challan.challanDate c) (Challan.items c)
             (Challan.totalAmount c) status (Challan.notes c)
             (Challan.createdAt c) now.

Definition updateChallanStatus {N} (challanId : string) (status : Challan.Status)
    (now : Time) (s : t N) : t N * bool :=
  match index challanId s with
  | Some (i, _) => (alter (setStatus status now) i s, true)
  | None => (s, false)
  end.

Definition setItems {N} `{JSNumber N} (items : list (Challan.item N)) (now : Time)
    (c : Challan.t N) : Challan.t N :=
  Challan.mk (Challan.id c) (Challan.challanNumber c) (Challan.customerId c)
             (Challan.customerName c) (Challan.challanDate c) items
             (calculateChallanTotal (Challan.withoutName <$> items))
             (Challan.status c) (Challan.notes c) (Challan.createdAt c) now.

Definition updateChallanItems {N} `{JSNumber N} (challanId : string)
    (items : list (Challan.item N)) (now : Time) (s : t N) : t N * bool :=
  match index challanId s with
  | Some (i, _) => (alter (setItems items now) i s, true)
  | None => (s, false)
  end.

Definition setNotes {N} (notes : string) (now : Time) (c : Challan.t N)
    : Challan.t N :=
  Challan.mk (Challan.id c) (Challan.challanNumber c) (Challan.customerId c)
             (Challan.customerName c) (Challan.challanDate c) (Challan.items c)
             (Challan.totalAmount c) (Challan.status c) (Some notes)
             (Challan.createdAt c) now.

Definition addChallanNotes {N} (challanId : string) (notes : string)
    (now : Time) (s : t N) : t N * bool :=
  match index challanId s with
  | Some (i, _) => (alter (setNotes notes now) i s, true)
  | None => (s, false)
  end.

Definition deleteChallan {N} (challanId : string) (s : t N) : t N * bool :=
  match index challanId s with
  | Some (i, _) => (delete i s, true)
  | None => (s, false)
  end.

Record Stats {N : Type} := mkStats {
  totalChallans : nat;
  pendingChallans : nat;
  deliveredChallans : nat;
  returnedChallans : nat;
  cancelledChallans : nat;
  totalAmount : N
}.
Arguments Stats : clear implicits.
Arguments mkStats {N}.

Definition getChallanStats {N} `{JSNumber N} (s : t N) : Stats N :=
  mkStats (length s)
          (length (getChallansByStatus Challan.pending s))
          (length (getChallansByStatus Challan.delivered s))
          (length (getChallansByStatus Challan.returned s))
          (length (getChallansByStatus Challan.cancelled s))
          (foldl (λ sum c, jsAdd sum (Challan.totalAmount c)) jsZero s).

Definition getChallans {N} (s : t N) : list (Challan.t N) := s.

(** The total of a challan is the total of the items it lists. *)
Definition consistent {N} `{JSNumber N} (c : Challan.t N) : Prop :=
  Challan.totalAmount c =
  calculateChallanTotal (Challan.withoutName <$> Challan.items c).

(** The methods that change the challans, as one type of calls. *)
Inductive Call {N : Type} :=
| CreateChallan (customerId customerName : string)
                (items : list (Challan.itemInput N)) (notes : option string)
                (o : Outside)
| UpdateChallanStatus (challanId : string) (status : Challan.Status) (now : Time)
| UpdateChallanItems (challanId : string) (items : list (Challan.item N))
                     (now : Time)
| AddChallanNotes (challanId : string) (notes : string) (now : Time)
| DeleteChallan (challanId : string).
Arguments Call : clear implicits.

Definition call {N} `{JSNumber N} (s : t N) (c : Call N) : t N :=
  match c with
  | CreateChallan customerId customerName items notes o =>
      (createChallan customerId customerName items notes o s).1
  | UpdateChallanStatus challanId status now =>
      (updateChallanStatus challanId status now s).1
  | UpdateChallanItems challanId items now =>
      (updateChallanItems challanId items now s).1
  | AddChallanNotes challanId notes now =>
      (addChallanNotes challanId notes now s).1
  | DeleteChallan challanId => (deleteChallan challanId s).1
  end.

End ChallanManager.

(** ** Deliveries *)

Module Delivery.

Inductive Status := scheduled | in_transit | delivered | failed.

#[global] Instance Status_eq_dec : EqDecision Status.
Proof. solve_decision. Defined.

Inductive Condition := good | fair | poor.

#[global] Instance Condition_eq_dec : EqDecision Condition.
Proof. solve_decision. Defined.

(** [Omit<DeliveryItem, 'itemName'>] *)
Record itemInput {N : Type} := mkInput {
  in_itemId : string;
  in_quantity : N;
  in_condition : Condition;
  in_notes : option string
}.
Arguments itemInput : clear implicits.
Arguments mkInput {N}.

Record item {N : Type} := mkItem {
  itemId : string;
  itemName : string;
  quantity : N;
  condition : Condition;
  itemNotes : option string
}.
Arguments item : clear implicits.
Arguments mkItem {N}.

Record t {N : Type} := mk {
  id : string;
  challanId : string;
  customerId : string;
  deliveryDate : Time;
  deliveryAddress : string;
  items : list (item N);
  deliveryPerson : string;
  customerSignature : option string;
  status : Status;
  notes : option string;
  createdAt : Time;
  updatedAt : Time
}.
Arguments t : clear implicits.
Arguments mk {N}.

End Delivery.

Module DeliveryManager.

Abbreviation t N := (list (Delivery.t N)) (only parsing).

Definition new {N} (deliveries : option (list (Delivery.t N))) : t N :=
  default [] deliveries.

Definition generateId (o : Outside) : string :=
  "delivery_" +:+ pretty (dateNow o) +:+ "_" +:+ mathRandom o.

Definition named {N} (item : Delivery.itemInput N) : Delivery.item N :=
  Delivery.mkItem (Delivery.in_itemId item) ("Item " +:+ Delivery.in_itemId item)
                  (Delivery.in_quantity item) (Delivery.in_condition item)
                  (Delivery.in_notes item).

Definition createDelivery {N} (challanId customerId deliveryAddress
    deliveryPerson : string) (items : list (Delivery.itemInput N))
    (o : Outside) (s : t N) : t N * Delivery.t N :=
  let delivery :=
    Delivery.mk (generateId o) challanId customerId (newDate o 0) deliveryAddress
                (named <$> items) deliveryPerson None Delivery.scheduled None
                (newDate o 1) (newDate o 2) in
  (s ++ [delivery], delivery).

Definition index {N} (deliveryId : string) (s : t N) : option (nat * Delivery.t N) :=
  list_find (λ d, Delivery.id d = deliveryId) s.


Definition getDeliveriesByStatus {N} (status : Delivery.Status) (s : t N)
    : list (Delivery.t N) :=
  filter (λ d, Delivery.status d = status) s.


Definition setItems {N} (items : list (Delivery.item N)) (now : Time)
    (d : Delivery.t N) : Delivery.t N :=
  Delivery.mk (Delivery.id d) (Delivery.challanId d) (Delivery.customerId d)
              (Delivery.deliveryDate d) (Delivery.deliveryAddress d)
              items (Delivery.deliveryPerson d)
              (Delivery.customerSignature d) (Delivery.status d) (Delivery.notes d)
              (Delivery.createdAt d) now.


Record Stats := mkStats {
  totalDeliveries : nat;
  scheduledDeliveries : nat;
  inTransitDeliveries : nat;
  deliveredDeliveries : nat;
  failedDeliveries : nat
}.

Definition getDeliveryStats {N} (s : t N) : Stats :=
  mkStats (length s)
          (length (getDeliveriesByStatus Delivery.scheduled s))
          (length (getDeliveriesByStatus Delivery.in_transit s))
          (length (getDeliveriesByStatus Delivery.delivered s))
          (length (getDeliveriesByStatus Delivery.failed s)).

Definition getPendingDeliveries {N} (s : t N) : list (Delivery.t N) :=
  filter (λ d, Delivery.status d = Delivery.scheduled ∨
               Delivery.status d = Delivery.in_transit) s.

Definition getDeliveries {N} (s : t N) : list (Delivery.t N) := s.

End DeliveryManager.

(** ** Payments *)

Module Payment.

Inductive Status := pending | completed | failed | refunded.

#[global] Instance Status_eq_dec : EqDecision Status.
Proof. solve_decision. Defined.

Inductive Method := cash | card | bank_transfer | upi | cheque.

#[global] Instance Method_eq_dec : EqDecision Method.
Proof. solve_decision. Defined.

Record t {N : Type} := mk {
  id : string;
  challanId : string;
  customerId : string;
  amount : N;
  paymentDate : Time;
  paymentMethod : Method;
  referenceNumber : option string;
  status : Status;
  notes : option string;
  createdAt : Time;
  updatedAt : Time
}.
Arguments t : clear implicits.
Arguments mk {N}.

End Payment.

Module PaymentManager.

Abbreviation t N := (list (Payment.t N)) (only parsing).

Definition new {N} (payments : option (list (Payment.t N))) : t N :=
  default [] payments.

Definition generateId (o : Outside) : string :=
  "payment_" +:+ pretty (dateNow o) +:+ "_" +:+ mathRandom o.

Definition createPayment {N} (challanId customerId : string) (amount : N)
    (method : Payment.Method) (referenceNumber notes : option string)
    (o : Outside) (s : t N) : t N * Payment.t N :=
  let payment :=
    Payment.mk (generateId o) challanId customerId amount (newDate o 0) method
               referenceNumber Payment.pending notes (newDate o 1) (newDate o 2) in
  (s ++ [payment], payment).

Definition index {N} (paymentId : string) (s : t N) : option (nat * Payment.t N) :=
  list_find (λ p, Payment.id p = paymentId) s.

Definition getPayment {N} (paymentId : string) (s : t N) : option (Payment.t N) :=
  snd <$> index paymentId s.

Definition getPaymentsByStatus {N} (status : Payment.Status) (s : t N)
    : list (Payment.t N) :=
  filter (λ p, Payment.status p = status) s.

Definition setStatus {N} (status : Payment.Status) (now : Time)
    (p : Payment.t N) : Payment.t N :=
  Payment.mk (Payment.id p) (Payment.challanId p) (Payment.customerId p)
             (Payment.amount p) (Payment.paymentDate p) (Payment.paymentMethod p)
             (Payment.referenceNumber p) status (Payment.notes p)
             (Payment.createdAt p) now.

Definition updatePaymentStatus {N} (paymentId : string) (status : Payment.Status)
    (now : Time) (s : t N) : t N * bool :=
  match index paymentId s with
  | Some (i, _) => (alter (setStatus status now) i s, true)
  | None => (s, false)
  end.

Definition deletePayment {N} (paymentId : string) (s : t N) : t N * bool :=
  match index paymentId s with
  | Some (i, _) => (delete i s, true)
  | None => (s, false)
  end.

(** [.filter(p => p.status === status).reduce((sum, p) => sum + p.amount, 0)] *)
Definition amountOf {N} `{JSNumber N} (status : Payment.Status) (s : t N) : N :=
  foldl (λ sum p, jsAdd sum (Payment.amount p)) jsZero
        (getPaymentsByStatus status s).

Definition getTotalRevenue {N} `{JSNumber N} (s : t N) : N :=
  amountOf Payment.completed s.

Definition getPendingRevenue {N} `{JSNumber N} (s : t N) : N :=
  amountOf Payment.pending s.

Record Stats {N : Type} := mkStats {
  totalPayments : nat;
  pendingPayments : nat;
  completedPayments : nat;
  failedPayments : nat;
  refundedPayments : nat;
  totalAmount : N;
  pendingAmount : N
}.
Arguments Stats : clear implicits.
Arguments mkStats {N}.

Definition getPaymentStats {N} `{JSNumber N} (s : t N) : Stats N :=
  mkStats (length s)
          (length (getPaymentsByStatus Payment.pending s))
          (length (getPaymentsByStatus Payment.completed s))
          (length (getPaymentsByStatus Payment.failed s))
          (length (getPaymentsByStatus Payment.refunded s))
          (amountOf Payment.completed s)
          (amountOf Payment.pending s).

Definition getPayments {N} (s : t N) : list (Payment.t N) := s.

(** [getPaymentStatsByMethod]: the record of counters, one pair for each
    method, is a function of the method.  [countPayment] is the body of
    the [forEach]: [stats[payment.paymentMethod].count++] and
    [stats[payment.paymentMethod].amount += payment.amount]. *)
Definition countPayment {N} `{JSNumber N} (stats : Payment.Method → nat * N)
    (payment : Payment.t N) : Payment.Method → nat * N :=
  λ method,
    if decide (method = Payment.paymentMethod payment)
    then ((stats method).1 + 1, jsAdd (stats method).2 (Payment.amount payment))
    else stats method.

Definition getPaymentStatsByMethod {N} `{JSNumber N} (s : t N)
    : Payment.Method → nat * N :=
  foldl countPayment (λ _, (0, jsZero)) (getPaymentsByStatus Payment.completed s).

(** The completed payments made by one method. *)
Definition completedBy {N} (method : Payment.Method) (s : t N) : list (Payment.t N) :=
  filter (λ p, Payment.paymentMethod p = method)
         (getPaymentsByStatus Payment.completed s).

End PaymentManager.

(** ** The data store and [BusinessManager] *)

Module BusinessManager.

Record BillingConfig {N : Type} := mkBillingConfig {
  currency : string;
  defaultTaxRate : N;
  defaultDiscountRate : N;
  roundingPrecision : N;
  lateFeeRate : option N;
  gracePeriodDays : option N
}.
Arguments BillingConfig : clear implicits.
Arguments mkBillingConfig {N}.

Record User {N : Type} := mkUser {
  user_id : string;
  user_email : string;
  businessName : string;
  businessAddress : option string;
  user_phone : option string;
  user_createdAt : Time;
  user_updatedAt : Time;
  billingConfig : BillingConfig N
}.
Arguments User : clear implicits.
Arguments mkUser {N}.

(** [UserDataStore]; the billing calculations are carried, none of the
    methods below reads them. *)
Record UserDataStore {N BillingCalculation : Type} := mkStore {
  user : User N;
  inventory : list (RentalItem.t N);
  customers : list (Customer.t N);
  challans : list (Challan.t N);
  deliveries : list (Delivery.t N);
  payments : list (Payment.t N);
  billingCalculations : list BillingCalculation;
  lastSync : Time
}.
Arguments UserDataStore : clear implicits.
Arguments mkStore {N BillingCalculation}.

(** The private fields.  [billingCalculator] is the calculator built on
    the billing configuration of the user. *)
Record t {N BillingCalculation : Type} := mk {
  dataStore : UserDataStore N BillingCalculation;
  billingCalculator : BillingConfig N;
  itemManager : RentalItemManager.t N;
  customerManager : CustomerManager.t N;
  challanManager : ChallanManager.t N;
  deliveryManager : DeliveryManager.t N;
  paymentManager : PaymentManager.t N
}.
Arguments t : clear implicits.
Arguments mk {N BillingCalculation}.

Section Methods.
Context {N B : Type} `{JSNumber N}.

(** [new BusinessManager(dataStore)] *)
Definition new (dataStore : UserDataStore N B) : t N B :=
  mk dataStore (billingConfig (user dataStore))
     (RentalItemManager.new (Some (inventory dataStore)))
     (CustomerManager.new (Some (customers dataStore)))
     (ChallanManager.new (Some (challans dataStore)))
     (DeliveryManager.new (Some (deliveries dataStore)))
     (PaymentManager.new (Some (payments dataStore))).

Definition with_challanManager (f : ChallanManager.t N → ChallanManager.t N)
    (b : t N B) : t N B :=
  mk (dataStore b) (billingCalculator b) (itemManager b) (customerManager b)
     (f (challanManager b)) (deliveryManager b) (paymentManager b).

Definition with_deliveryManager (f : DeliveryManager.t N → DeliveryManager.t N)
    (b : t N B) : t N B :=
  mk (dataStore b) (billingCalculator b) (itemManager b) (customerManager b)
     (challanManager b) (f (deliveryManager b)) (paymentManager b).

Definition with_paymentManager (f : PaymentManager.t N → PaymentManager.t N)
    (b : t N B) : t N B :=
  mk (dataStore b) (billingCalculator b) (itemManager b) (customerManager b)
     (challanManager b) (deliveryManager b) (f (paymentManager b)).

Definition with_customerManager (f : CustomerManager.t N → CustomerManager.t N)
    (b : t N B) : t N B :=
  mk (dataStore b) (billingCalculator b) (itemManager b) (f (customerManager b))
     (challanManager b) (deliveryManager b) (paymentManager b).

Definition createChallan (customerId : string)
    (items : list (Challan.itemInput N)) (notes : option string) (o : Outside)
    (b : t N B) : t N B * Outcome (Challan.t N) :=
  match CustomerManager.getCustomer customerId (customerManager b) with
  | None => (b, Error "Customer not found")
  | Some customer =>
      let created :=
        ChallanManager.createChallan customerId (Customer.name customer) items
                                     notes o (challanManager b) in
      (with_challanManager (λ _, created.1) b, Ok created.2)
  end.

Definition createDelivery (challanId deliveryAddress deliveryPerson : string)
    (o : Outside) (b : t N B) : t N B * Outcome (Delivery.t N) :=
  match ChallanManager.getChallan challanId (challanManager b) with
  | None => (b, Error "Challan not found")
  | Some challan =>
      let items :=
        (λ item, Delivery.mkInput (Challan.itemId item) (Challan.quantity item)
                                  Delivery.good (Some ""))
          <$> Challan.items challan in
      let created :=
        DeliveryManager.createDelivery challanId (Challan.customerId challan)
          deliveryAddress deliveryPerson items o (deliveryManager b) in
      (with_deliveryManager (λ _, created.1) b, Ok created.2)
  end.

Definition createPayment (challanId : string) (amount : N)
    (method : Payment.Method) (referenceNumber notes : option string)
    (o : Outside) (b : t N B) : t N B * Outcome (Payment.t N) :=
  match ChallanManager.getChallan challanId (challanManager b) with
  | None => (b, Error "Challan not found")
  | Some challan =>
      let created :=
        PaymentManager.createPayment challanId (Challan.customerId challan)
          amount method referenceNumber notes o (paymentManager b) in
      (with_paymentManager (λ _, created.1) b, Ok created.2)
  end.

(** [syncDataStore]: [getAllItems()] and [getAllCustomers()] are called
    with their default [activeOnly = true]. *)
Definition syncDataStore (now : Time) (b : t N B) : t N B :=
  mk (mkStore (user (dataStore b))
              (RentalItemManager.getAllItems true (itemManager b))
              (CustomerManager.getAllCustomers true (customerManager b))
              (ChallanManager.getChallans (challanManager b))
              (DeliveryManager.getDeliveries (deliveryManager b))
              (PaymentManager.getPayments (paymentManager b))
              (billingCalculations (dataStore b))
              now)
     (billingCalculator b) (itemManager b) (customerManager b)
     (challanManager b) (deliveryManager b) (paymentManager b).

Definition getDataStore (now : Time) (b : t N B)
    : t N B * UserDataStore N B :=
  let b' := syncDataStore now b in (b', dataStore b').

Record BusinessStats := mkBusinessStats {
  totalChallans : nat;
  pendingChallans : nat;
  deliveredChallans : nat;
  returnedChallans : nat;
  cancelledChallans : nat;
  challanTotalAmount : N;
  totalDeliveries : nat;
  pendingDeliveries : nat;
  deliveredDeliveries : nat;
  failedDeliveries : nat;
  totalPayments : nat;
  pendingPayments : nat;
  completedPayments : nat;
  failedPayments : nat;
  totalRevenue : N;
  pendingRevenue : N;
  totalCustomers : nat;
  totalInventory : nat
}.

Definition getBusinessStats (b : t N B) : BusinessStats :=
  let challanStats := ChallanManager.getChallanStats (challanManager b) in
  let deliveryStats := DeliveryManager.getDeliveryStats (deliveryManager b) in
  let paymentStats := PaymentManager.getPaymentStats (paymentManager b) in
  mkBusinessStats
    (ChallanManager.totalChallans challanStats)
    (ChallanManager.pendingChallans challanStats)
    (ChallanManager.deliveredChallans challanStats)
    (ChallanManager.returnedChallans challanStats)
    (ChallanManager.cancelledChallans challanStats)
    (ChallanManager.totalAmount challanStats)
    (DeliveryManager.totalDeliveries deliveryStats)
    (DeliveryManager.scheduledDeliveries deliveryStats +
     DeliveryManager.inTransitDeliveries deliveryStats)
    (DeliveryManager.deliveredDeliveries deliveryStats)
    (DeliveryManager.failedDeliveries deliveryStats)
    (PaymentManager.totalPayments paymentStats)
    (PaymentManager.pendingPayments paymentStats)
    (PaymentManager.completedPayments paymentStats)
    (PaymentManager.failedPayments paymentStats)
    (PaymentManager.totalAmount paymentStats)
    (PaymentManager.pendingAmount paymentStats)
    (length (filter (λ c, Customer.isActive c = true)
                    (CustomerManager.getAllCustomers true (customerManager b))))
    (length (filter (λ i, RentalItem.isActive i = true)
                    (RentalItemManager.getAllItems true (itemManager b)))).

(** The orchestration methods, as one type of requests. *)
Inductive Request :=
| CreateChallan (customerId : string) (items : list (Challan.itemInput N))
                (notes : option string) (o : Outside)
| CreateDelivery (challanId deliveryAddress deliveryPerson : string) (o : Outside)
| CreatePayment (challanId : string) (amount : N) (method : Payment.Method)
                (referenceNumber notes : option string) (o : Outside).

Definition handle (b : t N B) (r : Request) : t N B :=
  match r with
  | CreateChallan customerId items notes o =>
      (createChallan customerId items notes o b).1
  | CreateDelivery challanId deliveryAddress deliveryPerson o =>
      (createDelivery challanId deliveryAddress deliveryPerson o b).1
  | CreatePayment challanId amount method referenceNumber notes o =>
      (createPayment challanId amount method referenceNumber notes o b).1
  end.

(** What the orchestration methods keep: every challan is for a customer
    of the customer manager, by its name; every delivery and every
    payment is for a challan of the challan manager and its customer. *)
Definition forChallan (b : t N B) (challanId customerId : string) : Prop :=
  ∃ challan, challan ∈ challanManager b ∧ Challan.id challan = challanId ∧
             Challan.customerId challan = customerId.

Definition linked (b : t N B) : Prop :=
  Forall (λ challan,
            ∃ customer,
              CustomerManager.getCustomer (Challan.customerId challan)
                                          (customerManager b) = Some customer ∧
              Challan.customerName challan = Customer.name customer)
         (challanManager b) ∧
  Forall (λ d, forChallan b (Delivery.challanId d) (Delivery.customerId d))
         (deliveryManager b) ∧
  Forall (λ p, forChallan b (Payment.challanId p) (Payment.customerId p))
         (paymentManager b).

End Methods.

End BusinessManager.

(** ** Scenarios of the business managers

    Amounts are integers; the billing calculations are not looked at. *)

Definition monday : Outside :=
  mkOutside 1000 "k3x9a7q2m" (λ k, 1000 + k) 2025 0.

Definition tuesday : Outside :=
  mkOutside 2000 "p8d1z5w4c" (λ k, 2000 + k) 2025 0.

Definition acme : Customer.t Z :=
  Customer.mk "cust-1" "Acme" None None None false None true.

Definition twoChairs : list (Challan.itemInput Z) :=
  [Challan.mkInput "chair" 2%Z 150%Z None].

Definition threeTables : list (Challan.item Z) :=
  [Challan.mkItem "table" "Table" 3%Z 400%Z None].

Definition owner : BusinessManager.User Z :=
  BusinessManager.mkUser "user-1" "owner@example.org" "Rentals" None None 0 0
    (BusinessManager.mkBillingConfig "INR" 0%Z 0%Z 2%Z None None).

(** A business with one customer and nothing else. *)
Definition shop : BusinessManager.t Z unit :=
  BusinessManager.new (BusinessManager.mkStore owner [] [acme] [] [] [] [] 0).

(** The same after the customer was deactivated. *)
Definition shopWithoutAcme : BusinessManager.t Z unit :=
  BusinessManager.with_customerManager
    (λ m, (CustomerManager.deactivateCustomer "cust-1" m).1) shop.

(** One payment of 300 by UPI, created on Monday. *)
Definition onePayment : PaymentManager.t Z * Payment.t Z :=
  PaymentManager.createPayment "challan-1" "cust-1" 300%Z Payment.upi None None
                               monday [].

(** One challan, created on Monday. *)
Definition oneChallan : ChallanManager.t Z :=
  (ChallanManager.createChallan "cust-1" "Acme" twoChairs None monday []).1.

(* ================================================================== *)
(** * Properties *)

(** ** Sets of client identifiers *)

Lemma with_subscriber_nonempty (s : gset string) (c : string) : s ∪ {[c]} ≠ ∅.
Proof.
  intros Hempty. apply (not_elem_of_empty (C:=gset string) c).
  rewrite <- Hempty. apply elem_of_union_r. by apply elem_of_singleton.
Qed.

Lemma sole_subscriber (s : gset string) (c : string) :
  s ≠ ∅ → size (s ∖ {[c]}) = 0 → s = {[c]}.
Proof.
  intros Hs Hsz. apply size_empty_inv in Hsz.
  assert (Honly : ∀ x, x ∈ s → x = c).
  { intros x Hx. destruct (decide (x = c)) as [|Hne]; [done|].
    exfalso. apply (not_elem_of_empty (C:=gset string) x). apply Hsz.
    apply elem_of_difference. split; [done|]. by rewrite elem_of_singleton. }
  apply leibniz_equiv, set_equiv. intros x. rewrite elem_of_singleton.
  split; [apply Honly|]. intros ->.
  apply set_choose_L in Hs as [y Hy]. by rewrite <- (Honly y Hy).
Qed.

Lemma without_stranger (s : gset string) (c : string) : c ∉ s → s ∖ {[c]} = s.
Proof.
  intros Hc. apply leibniz_equiv, set_equiv. intros x.
  rewrite elem_of_difference, elem_of_singleton. split; [tauto|].
  intros Hx. split; [done|]. by intros ->.
Qed.


(** ** Sending leaves everything but the wire alone *)

Section Frames.
Context (clientId : string) (message : Message) (st : WebSocketManager).

Lemma sendMessage_clients : clients (sendMessage clientId message st) = clients st.
Proof. unfold sendMessage. by destruct (isOpen st clientId). Qed.

Lemma sendMessage_userSubscriptions :
  userSubscriptions (sendMessage clientId message st) = userSubscriptions st.
Proof. unfold sendMessage. by destruct (isOpen st clientId). Qed.

Lemma sendMessage_mongoManager :
  mongoManager (sendMessage clientId message st) = mongoManager st.
Proof. unfold sendMessage. by destruct (isOpen st clientId). Qed.

Lemma sendMessage_streams : streams (sendMessage clientId message st) = streams st.
Proof. unfold sendMessage. by destruct (isOpen st clientId). Qed.

Lemma sendMessage_wire :
  wire (sendMessage clientId message st) =
  wire st ++ (if isOpen st clientId then [(clientId, message)] else []).
Proof.
  unfold sendMessage. destruct (isOpen st clientId); simpl; [done|].
  by rewrite app_nil_r.
Qed.
End Frames.

Lemma isOpen_spec st clientId : isOpen st clientId = true ↔ openSocket st clientId.
Proof. unfold isOpen, openSocket. by rewrite bool_decide_eq_true. Qed.

(** The loop of [broadcastToUser], on any list of client ids. *)
Lemma broadcast_loop message (ids : list string) st :
  let st' := foldl (λ acc clientId,
                      if isOpen acc clientId then sendMessage clientId message acc
                      else acc) st ids in
  clients st' = clients st ∧ userSubscriptions st' = userSubscriptions st ∧
  mongoManager st' = mongoManager st ∧ streams st' = streams st ∧
  wire st' = wire st ++ ((λ c, (c, message)) <$> filter (openSocket st) ids).
Proof.
  revert st. induction ids as [|c ids IH]; intros st; simpl.
  { by rewrite app_nil_r. }
  destruct (IH (if isOpen st c then sendMessage c message st else st))
    as (Hc & Hu & Hm & Hs & Hw).
  assert (Hcl : clients (if isOpen st c then sendMessage c message st else st)
                = clients st).
  { destruct (isOpen st c); [apply sendMessage_clients|done]. }
  rewrite Hc, Hu, Hm, Hs, Hw. clear IH Hc Hu Hm Hs Hw.
  assert (Hf : filter (openSocket (if isOpen st c then sendMessage c message st else st)) ids
               = filter (openSocket st) ids).
  { apply list_filter_iff. intros x. unfold openSocket. by rewrite Hcl. }
  rewrite Hf, filter_cons. destruct (isOpen st c) eqn:Ho.
  - rewrite sendMessage_clients, sendMessage_userSubscriptions,
      sendMessage_mongoManager, sendMessage_streams, sendMessage_wire, Ho.
    apply isOpen_spec in Ho. rewrite decide_True by done.
    rewrite fmap_cons, <- app_assoc. done.
  - rewrite decide_False; [done|]. rewrite <- isOpen_spec. by rewrite Ho.
Qed.

Lemma recipients_spec st userId clientId :
  clientId ∈ recipients st userId ↔
  clientId ∈ subscribers st userId ∧ openSocket st clientId.
Proof.
  unfold recipients. rewrite list_elem_of_filter, elem_of_elements. tauto.
Qed.

Lemma recipients_NoDup st userId : NoDup (recipients st userId).
Proof. apply NoDup_filter, NoDup_elements. Qed.

Lemma recipients_length st userId :
  length (recipients st userId) =
  size (filter (openSocket st) (subscribers st userId)).
Proof.
  unfold size, set_size; simpl. apply Permutation_length, NoDup_Permutation.
  - apply recipients_NoDup.
  - apply NoDup_elements.
  - intros c. rewrite recipients_spec, elem_of_elements, elem_of_filter. tauto.
Qed.

Lemma broadcastToUser_effect userId message st :
  let st' := broadcastToUser userId message st in
  clients st' = clients st ∧ userSubscriptions st' = userSubscriptions st ∧
  mongoManager st' = mongoManager st ∧ streams st' = streams st ∧
  wire st' = wire st ++ ((λ c, (c, message)) <$> recipients st userId).
Proof.
  unfold broadcastToUser, recipients, subscribers.
  destruct (userSubscriptions st !! userId) as [userSubs|] eqn:Hsubs; simpl.
  - apply broadcast_loop.
  - rewrite elements_empty. simpl. by rewrite app_nil_r.
Qed.

(** C7.  Broadcasting [message] to [userId] puts on the wire exactly one
    frame, carrying [message], for each subscriber of [userId] whose socket
    is registered and OPEN, and nothing else: with N such subscribers and M
    subscribers whose socket is closed, closing or gone, N frames are sent,
    none is addressed to one of the M, no error frame is produced, and the
    subscription index, the client registry and the store side are left as
    they were. *)
Theorem broadcast_reaches_exactly_the_open_subscribers
    (st : WebSocketManager) (userId : string) (message : Message) :
  let st' := broadcastToUser userId message st in
  let live := filter (openSocket st) (subscribers st userId) in
  let dead := filter (λ c, ¬ openSocket st c) (subscribers st userId) in
  wire st' = wire st ++ ((λ c, (c, message)) <$> recipients st userId) ∧
  NoDup (recipients st userId) ∧
  (∀ c, c ∈ recipients st userId ↔ c ∈ live) ∧
  length (recipients st userId) = size live ∧
  size live + size dead = size (subscribers st userId) ∧
  (∀ c, c ∈ dead → c ∉ recipients st userId) ∧
  userSubscriptions st' = userSubscriptions st ∧
  clients st' = clients st ∧
  mongoManager st' = mongoManager st ∧ streams st' = streams st.
Proof.
  intros st' live dead.
  destruct (broadcastToUser_effect userId message st) as (Hc & Hu & Hm & Hs & Hw).
  split_and!; try done.
  - apply recipients_NoDup.
  - intros c. unfold live. rewrite recipients_spec, elem_of_filter. tauto.
  - apply recipients_length.
  - unfold live, dead. rewrite <- size_union.
    + f_equal. apply leibniz_equiv, filter_union_complement.
    + apply disjoint_filter_complement.
  - intros c. unfold dead. rewrite elem_of_filter, recipients_spec. tauto.
Qed.

(** ** [stopWatching] *)

(** The three ways through [stopWatching]: no registered stream, a close
    that resolves, a close that rejects. *)
Ltac stopWatching_cases :=
  unfold stopWatching;
  match goal with
  | |- context [changeStreams (mongoManager ?st) !! ?u] =>
      let sid := fresh "sid" in
      destruct (changeStreams (mongoManager st) !! u) as [sid|];
      [match goal with |- context [closeOk ?e sid] => destruct (closeOk e sid) end|];
      done
  end.

Section StopWatching.
Context (userId : string) (e : Env) (st : WebSocketManager).
Let st' := stopWatching userId e st.

Lemma stopWatching_clients : clients st' = clients st.
Proof. unfold st'. stopWatching_cases. Qed.

Lemma stopWatching_userSubscriptions : userSubscriptions st' = userSubscriptions st.
Proof. unfold st'. stopWatching_cases. Qed.

Lemma stopWatching_wire : wire st' = wire st.
Proof. unfold st'. stopWatching_cases. Qed.

Lemma stopWatching_store :
  collection (mongoManager st') = collection (mongoManager st) ∧
  isConnected (mongoManager st') = isConnected (mongoManager st) ∧
  config (mongoManager st') = config (mongoManager st) ∧
  client (mongoManager st') = client (mongoManager st).
Proof. unfold st'. stopWatching_cases. Qed.

(** The table of registered streams only loses the entry of [userId],
    and loses it when the close resolved. *)
Lemma stopWatching_changeStreams :
  changeStreams (mongoManager st') =
  match changeStreams (mongoManager st) !! userId with
  | Some sid => if closeOk e sid then delete userId (changeStreams (mongoManager st))
                else changeStreams (mongoManager st)
  | None => changeStreams (mongoManager st)
  end.
Proof. unfold st'. stopWatching_cases. Qed.

Lemma stopWatching_streams :
  streams st' =
  match changeStreams (mongoManager st) !! userId with
  | Some sid => alter (closeStream (closeOk e sid)) sid (streams st)
  | None => streams st
  end.
Proof. unfold st'. stopWatching_cases. Qed.

Lemma stopWatching_lookup_other other :
  other ≠ userId →
  changeStreams (mongoManager st') !! other =
  changeStreams (mongoManager st) !! other.
Proof.
  intros Hne. rewrite stopWatching_changeStreams.
  destruct (changeStreams (mongoManager st) !! userId) as [sid|]; [|done].
  destruct (closeOk e sid); [|done]. by rewrite lookup_delete_ne.
Qed.

Lemma stopWatching_lookup_Some other sid :
  changeStreams (mongoManager st') !! other = Some sid →
  changeStreams (mongoManager st) !! other = Some sid.
Proof.
  rewrite stopWatching_changeStreams.
  destruct (changeStreams (mongoManager st) !! userId) as [sid'|]; [|done].
  destruct (closeOk e sid'); [|done].
  rewrite lookup_delete_Some. tauto.
Qed.

Lemma stopWatching_unregisters :
  (∀ sid, closeOk e sid = true) →
  changeStreams (mongoManager st') !! userId = None.
Proof.
  intros Hok. rewrite stopWatching_changeStreams.
  destruct (changeStreams (mongoManager st) !! userId) as [sid|] eqn:Hsid; [|done].
  rewrite Hok. by rewrite lookup_delete_eq.
Qed.

Lemma stopWatching_lookup_self :
  changeStreams (mongoManager st') !! userId =
  match changeStreams (mongoManager st) !! userId with
  | Some sid => if closeOk e sid then None else Some sid
  | None => None
  end.
Proof.
  rewrite stopWatching_changeStreams.
  destruct (changeStreams (mongoManager st) !! userId) as [sid|] eqn:Hsid; [|done].
  destruct (closeOk e sid); [by rewrite lookup_delete_eq|done].
Qed.

Lemma stopWatching_length : length (streams st') = length (streams st).
Proof.
  rewrite stopWatching_streams.
  destruct (changeStreams (mongoManager st) !! userId); [|done].
  apply length_alter.
Qed.

(** A stream object after [stopWatching] is the object that was at the
    same address, for the same user, and is running only if it was. *)
Lemma stopWatching_stream_before i cs' :
  streams st' !! i = Some cs' →
  ∃ cs, streams st !! i = Some cs ∧ cs_userId cs' = cs_userId cs ∧
        (cs_live cs' = true → cs_live cs = true) ∧
        (changeStreams (mongoManager st) !! userId ≠ Some i → cs' = cs).
Proof.
  rewrite stopWatching_streams.
  destruct (changeStreams (mongoManager st) !! userId) as [sid|]; [|by eauto].
  destruct (decide (i = sid)) as [->|Hne].
  - rewrite list_lookup_alter_eq.
    destruct (streams st !! sid) as [cs|]; simpl; [|done].
    intros [= <-]. exists cs. split_and!; try done.
    simpl. by destruct (closeOk e sid).
  - rewrite list_lookup_alter_ne by done. eauto.
Qed.

Lemma stopWatching_stream_after i cs :
  streams st !! i = Some cs →
  ∃ cs', streams st' !! i = Some cs' ∧ cs_userId cs' = cs_userId cs.
Proof.
  intros Hi. rewrite stopWatching_streams.
  destruct (changeStreams (mongoManager st) !! userId) as [sid|]; [|by eauto].
  destruct (decide (i = sid)) as [->|Hne].
  - rewrite list_lookup_alter_eq, Hi. simpl. eauto.
  - rewrite list_lookup_alter_ne by done. eauto.
Qed.

(** [close()] is called once on the registered stream, on no other. *)
Lemma stopWatching_closeCalls sid cs :
  changeStreams (mongoManager st) !! userId = Some sid →
  streams st !! sid = Some cs →
  streams st' !! sid = Some (closeStream (closeOk e sid) cs).
Proof.
  intros Hsid Hcs. rewrite stopWatching_streams, Hsid.
  by rewrite list_lookup_alter_eq, Hcs.
Qed.

Lemma stopWatching_stops sid cs' :
  changeStreams (mongoManager st) !! userId = Some sid →
  closeOk e sid = true →
  streams st' !! sid = Some cs' → cs_live cs' = false.
Proof.
  intros Hsid Hok. rewrite stopWatching_streams, Hsid, list_lookup_alter_eq.
  destruct (streams st !! sid); simpl; [|done]. intros [= <-]. simpl. by rewrite Hok.
Qed.

Lemma stopWatching_registryInHeap : registryInHeap st → registryInHeap st'.
Proof.
  intros Hreg other sid Hother.
  apply stopWatching_lookup_Some in Hother.
  destruct (Hreg _ _ Hother) as (cs & Hcs & Hu).
  destruct (stopWatching_stream_after _ _ Hcs) as (cs' & Hcs' & Hu').
  exists cs'. split; [done|congruence].
Qed.

Lemma stopWatching_liveTracked :
  (∀ sid, closeOk e sid = true) → liveTracked st → liveTracked st'.
Proof.
  intros Hok Hlive i cs' Hcs' Hrun.
  destruct (stopWatching_stream_before _ _ Hcs') as (cs & Hcs & Hu & Hl & _).
  specialize (Hlive _ _ Hcs (Hl Hrun)). rewrite Hu.
  destruct (decide (cs_userId cs = userId)) as [Heq|Hne].
  - rewrite Heq in Hlive.
    pose proof (stopWatching_stops _ _ Hlive (Hok i) Hcs'). congruence.
  - by rewrite stopWatching_lookup_other.
Qed.
End StopWatching.

(** ** [watchUserData] *)

Lemma watchUserData_cases userId e st :
  watchUserData userId e st =
  if bool_decide (collection (mongoManager st) = true ∧
                  isConnected (mongoManager st) = true)
  then if changeStreamsEnabled (config (mongoManager st))
       then if watchOk e
            then (opened userId (stopWatching userId e st), Returned)
            else (stopWatching userId e st, Threw)
       else (st, Returned)
  else (st, Threw).
Proof.
  unfold watchUserData, opened.
  destruct (collection (mongoManager st)), (isConnected (mongoManager st));
    simpl; try done.
  destruct (changeStreamsEnabled (config (mongoManager st))); simpl; [|done].
  by destruct (watchOk e).
Qed.

Lemma watchUserData_ready userId e st :
  storeReady st → watchOk e = true →
  watchUserData userId e st = (opened userId (stopWatching userId e st), Returned).
Proof.
  intros (Hc & Hi & Hen) Hw. rewrite watchUserData_cases, Hen, Hw.
  by rewrite bool_decide_eq_true_2.
Qed.

Lemma watchUserData_refused userId e st :
  storeReady st → watchOk e = false →
  watchUserData userId e st = (stopWatching userId e st, Threw).
Proof.
  intros (Hc & Hi & Hen) Hw. rewrite watchUserData_cases, Hen, Hw.
  by rewrite bool_decide_eq_true_2.
Qed.

Lemma watchUserData_disabled userId e st :
  collection (mongoManager st) = true → isConnected (mongoManager st) = true →
  changeStreamsEnabled (config (mongoManager st)) = false →
  watchUserData userId e st = (st, Returned).
Proof.
  intros Hc Hi Hen. rewrite watchUserData_cases, Hen.
  by rewrite bool_decide_eq_true_2.
Qed.

Lemma watchUserData_not_connected userId e st :
  collection (mongoManager st) = false ∨ isConnected (mongoManager st) = false →
  watchUserData userId e st = (st, Threw).
Proof.
  intros Hnc. rewrite watchUserData_cases.
  rewrite bool_decide_eq_false_2; [done|]. intros [? ?]. destruct Hnc; congruence.
Qed.

Section WatchUserData.
Context (userId : string) (e : Env) (st : WebSocketManager).
Let st' := (watchUserData userId e st).1.

Lemma watchUserData_shape :
  st' = st ∨ st' = stopWatching userId e st ∨
  st' = opened userId (stopWatching userId e st).
Proof.
  unfold st'. rewrite watchUserData_cases.
  repeat case_match; simpl; auto.
Qed.

Lemma watchUserData_clients : clients st' = clients st.
Proof.
  destruct watchUserData_shape as [->|[->| ->]]; simpl; try done;
    apply stopWatching_clients.
Qed.

Lemma watchUserData_userSubscriptions : userSubscriptions st' = userSubscriptions st.
Proof.
  destruct watchUserData_shape as [->|[->| ->]]; simpl; try done;
    apply stopWatching_userSubscriptions.
Qed.

Lemma watchUserData_wire : wire st' = wire st.
Proof.
  destruct watchUserData_shape as [->|[->| ->]]; simpl; try done;
    apply stopWatching_wire.
Qed.

Lemma watchUserData_store :
  collection (mongoManager st') = collection (mongoManager st) ∧
  isConnected (mongoManager st') = isConnected (mongoManager st) ∧
  config (mongoManager st') = config (mongoManager st) ∧
  client (mongoManager st') = client (mongoManager st).
Proof.
  destruct watchUserData_shape as [->|[->| ->]]; simpl; try done;
    apply stopWatching_store.
Qed.

Lemma watchUserData_lookup_other other :
  other ≠ userId →
  changeStreams (mongoManager st') !! other =
  changeStreams (mongoManager st) !! other.
Proof.
  intros Hne.
  destruct watchUserData_shape as [->|[->| ->]]; simpl; try done.
  - by apply stopWatching_lookup_other.
  - rewrite lookup_insert_ne by done. by apply stopWatching_lookup_other.
Qed.

Lemma watchUserData_registryInHeap : registryInHeap st → registryInHeap st'.
Proof.
  intros Hreg.
  destruct watchUserData_shape as [->|[->| ->]]; try done.
  - by apply stopWatching_registryInHeap.
  - apply (stopWatching_registryInHeap userId e) in Hreg.
    intros other sid. simpl. rewrite lookup_insert.
    case_decide as Hu.
    + intros [= <-]. subst other. exists (mkChangeStream userId true 0).
      split; [|done]. rewrite lookup_app_r by done. by rewrite Nat.sub_diag.
    + intros Hother. destruct (Hreg _ _ Hother) as (cs & Hcs & Hcu).
      exists cs. split; [|done]. by apply lookup_app_l_Some.
Qed.

Lemma watchUserData_liveTracked :
  (∀ sid, closeOk e sid = true) → liveTracked st → liveTracked st'.
Proof.
  intros Hok Hlive.
  destruct watchUserData_shape as [->|[->| ->]]; try done.
  - by apply stopWatching_liveTracked.
  - pose proof (stopWatching_unregisters userId e st Hok) as Hgone.
    apply (stopWatching_liveTracked userId e st Hok) in Hlive.
    intros i cs. simpl. rewrite lookup_app_Some.
    intros [Hi|[Hlen Hi]] Hrun.
    + specialize (Hlive _ _ Hi Hrun).
      rewrite lookup_insert_ne; [done|]. intros Heq. rewrite Heq in Hgone.
      congruence.
    + apply list_lookup_singleton_Some in Hi as [Hi <-]. simpl.
      rewrite lookup_insert_eq. f_equal. lia.
Qed.
End WatchUserData.

(** ** The invariants only read the subscription index and the store side *)

Lemma sameCore_sound st st' : sameCore st st' → sound st → sound st'.
Proof.
  intros (Hu & Hm & Hs) [Hne Hreg]. split.
  - intros u s. rewrite Hu. apply Hne.
  - intros u sid. rewrite Hm, Hs. apply Hreg.
Qed.

Lemma sameCore_tidy st st' : sameCore st st' → tidy st → tidy st'.
Proof.
  intros Hcore (Hsound & Hlive & Hws).
  split; [by eapply sameCore_sound|]. destruct Hcore as (Hu & Hm & Hs). split.
  - intros sid cs. rewrite Hm, Hs. apply Hlive.
  - intros u. unfold watching. rewrite Hm, Hu. apply Hws.
Qed.

Lemma sameCore_balanced st st' : sameCore st st' → balanced st → balanced st'.
Proof.
  intros Hcore (Htidy & Hready & Hsw).
  split; [by eapply sameCore_tidy|]. destruct Hcore as (Hu & Hm & Hs). split.
  - unfold storeReady. by rewrite Hm.
  - intros u. unfold watching. rewrite Hm, Hu. apply Hsw.
Qed.

Lemma sameCore_refl st : sameCore st st.
Proof. by repeat split. Qed.

Lemma sameCore_trans st1 st2 st3 :
  sameCore st1 st2 → sameCore st2 st3 → sameCore st1 st3.
Proof. intros (?&?&?) (?&?&?). repeat split; congruence. Qed.

Lemma sendMessage_sameCore clientId message st :
  sameCore st (sendMessage clientId message st).
Proof.
  repeat split; [apply sendMessage_userSubscriptions
                |apply sendMessage_mongoManager|apply sendMessage_streams].
Qed.

Lemma broadcastToUser_sameCore userId message st :
  sameCore st (broadcastToUser userId message st).
Proof.
  destruct (broadcastToUser_effect userId message st) as (_ & ? & ? & ? & _).
  by repeat split.
Qed.

Lemma broadcastToAll_sameCore message st : sameCore st (broadcastToAll message st).
Proof.
  unfold broadcastToAll. generalize (map_to_list (clients st)).
  intros l. revert st. induction l as [|entry l IH]; intros st; simpl.
  - apply sameCore_refl.
  - eapply sameCore_trans; [|apply IH].
    case_bool_decide; [apply sendMessage_sameCore|apply sameCore_refl].
Qed.

Lemma onChange_sameCore sid change t st : sameCore st (onChange sid change t st).
Proof.
  unfold onChange. repeat case_match; try apply sameCore_refl.
  apply broadcastToUser_sameCore.
Qed.

Lemma handleGetUserData_sameCore clientId userId e st :
  sameCore st (handleGetUserData clientId userId e st).
Proof.
  unfold handleGetUserData, sendError.
  repeat case_match; apply sendMessage_sameCore.
Qed.

(** ** [handleUserSubscription] *)

Lemma addSubscriber_insert clientId userId (subs : gmap string (gset string)) :
  addSubscriber clientId userId subs =
  <[userId := default ∅ (subs !! userId) ∪ {[clientId]}]> subs.
Proof.
  unfold addSubscriber. case_decide as Hin; [done|].
  apply eq_None_not_Some in Hin. rewrite Hin, lookup_insert_eq. simpl.
  by rewrite insert_insert_eq.
Qed.

Section Subscription.
Context (clientId userId : string) (e : Env) (st : WebSocketManager).
Let st1 := with_userSubscriptions (addSubscriber clientId userId) st.
Let st' := handleUserSubscription clientId userId e st.

Lemma handleUserSubscription_core :
  sameCore (watchUserData userId e st1).1 st'.
Proof.
  unfold st', handleUserSubscription. fold st1.
  destruct (watchUserData userId e st1) as [st2 []]; simpl;
    apply sendMessage_sameCore.
Qed.

Lemma handleUserSubscription_clients : clients st' = clients st.
Proof.
  unfold st', handleUserSubscription. fold st1.
  pose proof (watchUserData_clients userId e st1) as Hc.
  destruct (watchUserData userId e st1) as [st2 []]; simpl in *;
    unfold sendError; by rewrite sendMessage_clients.
Qed.

Lemma handleUserSubscription_userSubscriptions :
  userSubscriptions st' =
  <[userId := subscribers st userId ∪ {[clientId]}]> (userSubscriptions st).
Proof.
  destruct handleUserSubscription_core as (-> & _ & _).
  rewrite watchUserData_userSubscriptions. unfold st1. simpl.
  apply addSubscriber_insert.
Qed.

Lemma handleUserSubscription_sound : sound st → sound st'.
Proof.
  intros [Hne Hreg]. eapply sameCore_sound; [apply handleUserSubscription_core|].
  split.
  - intros u s. rewrite watchUserData_userSubscriptions. unfold st1; simpl.
    rewrite addSubscriber_insert, lookup_insert. case_decide.
    + intros [= <-]. apply with_subscriber_nonempty.
    + apply Hne.
  - by apply watchUserData_registryInHeap.
Qed.

Lemma handleUserSubscription_tidy :
  (∀ sid, closeOk e sid = true) → tidy st → tidy st'.
Proof.
  intros Hok (Hsound & Hlive & Hws).
  split; [by apply handleUserSubscription_sound|].
  destruct handleUserSubscription_core as (Hu & Hm & Hs). split.
  - intros sid cs. rewrite Hm, Hs.
    by apply watchUserData_liveTracked.
  - intros u. unfold watching.
    rewrite handleUserSubscription_userSubscriptions, Hm, lookup_insert.
    case_decide as Hd; [by eauto|].
    rewrite watchUserData_lookup_other by done. apply Hws.
Qed.

Lemma handleUserSubscription_balanced :
  (∀ sid, closeOk e sid = true) → watchOk e = true →
  balanced st → balanced st'.
Proof.
  intros Hok Hw (Htidy & Hready & Hsw).
  split; [by apply handleUserSubscription_tidy|].
  destruct handleUserSubscription_core as (Hu & Hm & Hs).
  destruct (watchUserData_store userId e st1) as (Hc & Hi & Hcfg & _).
  split.
  - unfold storeReady. rewrite Hm, Hc, Hi, Hcfg. apply Hready.
  - intros u. unfold watching.
    rewrite handleUserSubscription_userSubscriptions, Hm, lookup_insert.
    case_decide as Hd.
    + subst u. intros _. rewrite watchUserData_ready by done. simpl.
      rewrite lookup_insert_eq. eauto.
    + rewrite watchUserData_lookup_other by done. apply Hsw.
Qed.
End Subscription.

(** ** Removing a client from one entry: [handleUserUnsubscription] and the
       loop body of [handleClientDisconnect] *)

Lemma stopWatching_with_userSubscriptions f userId e st :
  stopWatching userId e (with_userSubscriptions f st) =
  with_userSubscriptions f (stopWatching userId e st).
Proof.
  unfold stopWatching; simpl.
  destruct (changeStreams (mongoManager st) !! userId) as [sid|]; [|done].
  by destruct (closeOk e sid).
Qed.

Lemma disconnectEntry_normal clientId e st userId userSubs :
  disconnectEntry clientId e st (userId, userSubs) =
  if decide (size (userSubs ∖ {[clientId]}) = 0)
  then with_userSubscriptions (delete userId) (stopWatching userId e st)
  else with_userSubscriptions <[userId := userSubs ∖ {[clientId]}]> st.
Proof.
  unfold disconnectEntry; simpl. case_decide; [|done].
  rewrite stopWatching_with_userSubscriptions.
  unfold with_userSubscriptions; simpl. f_equal. apply delete_insert_eq.
Qed.

Lemma handleUserUnsubscription_entry clientId userId e st :
  handleUserUnsubscription clientId userId e st =
  sendMessage clientId (unsubscriptionConfirmed userId (now e))
    match userSubscriptions st !! userId with
    | Some userSubs => disconnectEntry clientId e st (userId, userSubs)
    | None => st
    end.
Proof. done. Qed.

Section Entry.
Context (clientId : string) (e : Env) (st : WebSocketManager)
        (userId : string) (userSubs : gset string).
Let st' := disconnectEntry clientId e st (userId, userSubs).

Lemma disconnectEntry_clients : clients st' = clients st.
Proof.
  unfold st'. rewrite disconnectEntry_normal. case_decide; simpl; [|done].
  apply stopWatching_clients.
Qed.

Lemma disconnectEntry_wire : wire st' = wire st.
Proof.
  unfold st'. rewrite disconnectEntry_normal. case_decide; simpl; [|done].
  apply stopWatching_wire.
Qed.

Lemma disconnectEntry_userSubscriptions :
  userSubscriptions st' =
  if decide (size (userSubs ∖ {[clientId]}) = 0)
  then delete userId (userSubscriptions st)
  else <[userId := userSubs ∖ {[clientId]}]> (userSubscriptions st).
Proof.
  unfold st'. rewrite disconnectEntry_normal. case_decide; simpl; [|done].
  by rewrite stopWatching_userSubscriptions.
Qed.

Lemma disconnectEntry_lookup_other other :
  other ≠ userId →
  userSubscriptions st' !! other = userSubscriptions st !! other.
Proof.
  intros Hne. rewrite disconnectEntry_userSubscriptions.
  case_decide; [by rewrite lookup_delete_ne|by rewrite lookup_insert_ne].
Qed.

Lemma disconnectEntry_store :
  collection (mongoManager st') = collection (mongoManager st) ∧
  isConnected (mongoManager st') = isConnected (mongoManager st) ∧
  config (mongoManager st') = config (mongoManager st) ∧
  client (mongoManager st') = client (mongoManager st).
Proof.
  unfold st'. rewrite disconnectEntry_normal. case_decide; simpl; [|done].
  apply stopWatching_store.
Qed.

Lemma disconnectEntry_watch_other other :
  other ≠ userId →
  changeStreams (mongoManager st') !! other =
  changeStreams (mongoManager st) !! other.
Proof.
  intros Hne. unfold st'. rewrite disconnectEntry_normal.
  case_decide; simpl; [|done]. by apply stopWatching_lookup_other.
Qed.


Lemma disconnectEntry_registryInHeap : registryInHeap st → registryInHeap st'.
Proof.
  intros Hreg. unfold st'. rewrite disconnectEntry_normal. case_decide; [|done].
  by apply (stopWatching_registryInHeap userId e st).
Qed.

Lemma disconnectEntry_sound : sound st → sound st'.
Proof.
  intros [Hne Hreg]. split.
  - intros u s. rewrite disconnectEntry_userSubscriptions. case_decide as Hsz.
    + rewrite lookup_delete_Some. intros [_ Hu]. by eapply Hne.
    + rewrite lookup_insert. case_decide; [|apply Hne].
      intros [= <-] Hempty. rewrite Hempty, size_empty in Hsz. done.
  - by apply disconnectEntry_registryInHeap.
Qed.

Lemma disconnectEntry_tidy :
  (∀ sid, closeOk e sid = true) → tidy st → tidy st'.
Proof.
  intros Hok (Hsound & Hlive & Hws).
  split; [by apply disconnectEntry_sound|]. split.
  - unfold st'. rewrite disconnectEntry_normal. case_decide; [|done].
    by apply (stopWatching_liveTracked userId e st).
  - intros u Hw. rewrite disconnectEntry_userSubscriptions.
    unfold watching, st' in Hw. rewrite disconnectEntry_normal in Hw.
    case_decide; simpl in Hw.
    + destruct (decide (u = userId)) as [->|Hne].
      * rewrite stopWatching_unregisters in Hw by done. by destruct Hw.
      * rewrite lookup_delete_ne by done. apply Hws.
        unfold watching. by rewrite <- (stopWatching_lookup_other userId e st).
    + rewrite lookup_insert. case_decide; [by eauto|]. by apply Hws.
Qed.

(** For the last invariant the entry has to be one of the map. *)
Lemma disconnectEntry_balanced :
  (∀ sid, closeOk e sid = true) →
  is_Some (userSubscriptions st !! userId) →
  balanced st → balanced st'.
Proof.
  intros Hok Hin (Htidy & Hready & Hsw).
  split; [by apply disconnectEntry_tidy|]. split.
  - destruct disconnectEntry_store as (Hc & Hi & Hcfg & _).
    unfold storeReady. rewrite Hc, Hi, Hcfg. apply Hready.
  - intros u. rewrite disconnectEntry_userSubscriptions. unfold watching.
    destruct (decide (u = userId)) as [->|Hne].
    + case_decide.
      * rewrite lookup_delete_eq. by intros [? ?].
      * intros _. unfold st'. rewrite disconnectEntry_normal.
        rewrite decide_False by done. simpl. by apply Hsw.
    + rewrite disconnectEntry_watch_other by done.
      case_decide; [rewrite lookup_delete_ne by done
                   |rewrite lookup_insert_ne by done]; apply Hsw.
Qed.
End Entry.

Section Unsubscription.
Context (clientId userId : string) (e : Env) (st : WebSocketManager).
Let st' := handleUserUnsubscription clientId userId e st.

Lemma handleUserUnsubscription_sound : sound st → sound st'.
Proof.
  intros Hs. unfold st'. rewrite handleUserUnsubscription_entry.
  eapply sameCore_sound; [apply sendMessage_sameCore|].
  destruct (userSubscriptions st !! userId); [|done].
  by apply disconnectEntry_sound.
Qed.

Lemma handleUserUnsubscription_tidy :
  (∀ sid, closeOk e sid = true) → tidy st → tidy st'.
Proof.
  intros Hok Hs. unfold st'. rewrite handleUserUnsubscription_entry.
  eapply sameCore_tidy; [apply sendMessage_sameCore|].
  destruct (userSubscriptions st !! userId); [|done].
  by apply disconnectEntry_tidy.
Qed.

Lemma handleUserUnsubscription_balanced :
  (∀ sid, closeOk e sid = true) → balanced st → balanced st'.
Proof.
  intros Hok Hs. unfold st'. rewrite handleUserUnsubscription_entry.
  eapply sameCore_balanced; [apply sendMessage_sameCore|].
  destruct (userSubscriptions st !! userId) eqn:Hin; [|done].
  apply disconnectEntry_balanced; [done| |done]. by rewrite Hin.
Qed.
End Unsubscription.

(** ** [handleClientDisconnect] *)

Section DisconnectLoop.
Context (clientId : string) (e : Env).
Let loop := foldl (disconnectEntry clientId e).

Lemma disconnect_loop_clients entries st : clients (loop st entries) = clients st.
Proof.
  revert st. induction entries as [|[u s] entries IH]; intros st; [done|].
  simpl. unfold loop in IH. by rewrite IH, disconnectEntry_clients.
Qed.

Lemma disconnect_loop_wire entries st : wire (loop st entries) = wire st.
Proof.
  revert st. induction entries as [|[u s] entries IH]; intros st; [done|].
  simpl. unfold loop in IH. by rewrite IH, disconnectEntry_wire.
Qed.

Lemma disconnect_loop_store entries st :
  collection (mongoManager (loop st entries)) = collection (mongoManager st) ∧
  isConnected (mongoManager (loop st entries)) = isConnected (mongoManager st) ∧
  config (mongoManager (loop st entries)) = config (mongoManager st).
Proof.
  revert st. induction entries as [|[u s] entries IH]; intros st; [done|].
  simpl. destruct (IH (disconnectEntry clientId e st (u, s))) as (-> & -> & ->).
  destruct (disconnectEntry_store clientId e st u s) as (-> & -> & -> & _).
  done.
Qed.

Lemma disconnect_loop_sound entries st : sound st → sound (loop st entries).
Proof.
  revert st. induction entries as [|[u s] entries IH]; intros st Hs; [done|].
  simpl. by apply IH, disconnectEntry_sound.
Qed.

Lemma disconnect_loop_tidy entries st :
  (∀ sid, closeOk e sid = true) → tidy st → tidy (loop st entries).
Proof.
  intros Hok. revert st.
  induction entries as [|[u s] entries IH]; intros st Hs; [done|].
  simpl. by apply IH, disconnectEntry_tidy.
Qed.

Lemma disconnect_loop_balanced entries st :
  (∀ sid, closeOk e sid = true) →
  NoDup entries.*1 →
  (∀ u s, (u, s) ∈ entries → is_Some (userSubscriptions st !! u)) →
  balanced st → balanced (loop st entries).
Proof.
  intros Hok. revert st.
  induction entries as [|[u s] entries IH]; intros st Hnd Hin Hs; [done|].
  simpl. apply NoDup_cons in Hnd as [Hu Hnd]. apply IH; [done| |].
  - intros u' s' Hin'. rewrite disconnectEntry_lookup_other.
    + apply (Hin u' s'). by right.
    + intros ->. apply Hu. apply list_elem_of_fmap. by exists (u, s').
  - apply disconnectEntry_balanced; [done| |done]. apply (Hin u s). by left.
Qed.

(** What the loop leaves in the subscription index, for a snapshot with
    one entry per key. *)
Lemma disconnect_loop_userSubscriptions entries st userId :
  NoDup entries.*1 →
  userSubscriptions (loop st entries) !! userId =
  match (list_to_map entries : gmap string (gset string)) !! userId with
  | Some userSubs =>
      if decide (size (userSubs ∖ {[clientId]}) = 0) then None
      else Some (userSubs ∖ {[clientId]})
  | None => userSubscriptions st !! userId
  end.
Proof.
  revert st. induction entries as [|[u s] entries IH]; intros st Hnd; [done|].
  simpl. apply NoDup_cons in Hnd as [Hu Hnd]. unfold loop in IH.
  rewrite IH by done. clear IH.
  destruct (decide (userId = u)) as [->|Hne].
  - rewrite lookup_insert_eq.
    rewrite (not_elem_of_list_to_map_1 entries u) by done.
    rewrite disconnectEntry_userSubscriptions.
    case_decide; [by rewrite lookup_delete_eq|by rewrite lookup_insert_eq].
  - rewrite lookup_insert_ne by done.
    by rewrite disconnectEntry_lookup_other.
Qed.



(** The registered streams after the loop. *)
Lemma disconnect_loop_changeStreams entries st userId :
  NoDup entries.*1 →
  changeStreams (mongoManager (loop st entries)) !! userId =
  match (list_to_map entries : gmap string (gset string)) !! userId with
  | Some userSubs =>
      if decide (size (userSubs ∖ {[clientId]}) = 0)
      then changeStreams (mongoManager (stopWatching userId e st)) !! userId
      else changeStreams (mongoManager st) !! userId
  | None => changeStreams (mongoManager st) !! userId
  end.
Proof.
  revert st. induction entries as [|[u s] entries IH]; intros st Hnd; [done|].
  simpl. apply NoDup_cons in Hnd as [Hu Hnd]. unfold loop in IH.
  rewrite IH by done. clear IH.
  destruct (decide (userId = u)) as [->|Hne].
  - rewrite lookup_insert_eq.
    rewrite (not_elem_of_list_to_map_1 entries u) by done.
    rewrite disconnectEntry_normal. by case_decide.
  - rewrite lookup_insert_ne by done.
    rewrite !stopWatching_lookup_self.
    by rewrite !disconnectEntry_watch_other by done.
Qed.
End DisconnectLoop.

Section ClientDisconnect.
Context (clientId : string) (e : Env) (st : WebSocketManager).
Let st' := handleClientDisconnect clientId e st.
Let snapshot := map_to_list (userSubscriptions st).

Lemma handleClientDisconnect_core :
  sameCore (foldl (disconnectEntry clientId e) st snapshot) st'.
Proof. by repeat split. Qed.

Lemma handleClientDisconnect_sound : sound st → sound st'.
Proof.
  intros Hs. eapply sameCore_sound; [apply handleClientDisconnect_core|].
  by apply disconnect_loop_sound.
Qed.

Lemma handleClientDisconnect_tidy :
  (∀ sid, closeOk e sid = true) → tidy st → tidy st'.
Proof.
  intros Hok Hs. eapply sameCore_tidy; [apply handleClientDisconnect_core|].
  by apply disconnect_loop_tidy.
Qed.

Lemma handleClientDisconnect_balanced :
  (∀ sid, closeOk e sid = true) → balanced st → balanced st'.
Proof.
  intros Hok Hs. eapply sameCore_balanced; [apply handleClientDisconnect_core|].
  apply disconnect_loop_balanced; try done.
  - apply NoDup_fst_map_to_list.
  - intros u s Hin. apply elem_of_map_to_list in Hin. by rewrite Hin.
Qed.

Lemma handleClientDisconnect_userSubscriptions userId :
  userSubscriptions st' !! userId =
  match userSubscriptions st !! userId with
  | Some userSubs =>
      if decide (size (userSubs ∖ {[clientId]}) = 0) then None
      else Some (userSubs ∖ {[clientId]})
  | None => None
  end.
Proof.
  unfold st', handleClientDisconnect. simpl.
  rewrite disconnect_loop_userSubscriptions by apply NoDup_fst_map_to_list.
  rewrite list_to_map_to_list.
  by destruct (userSubscriptions st !! userId).
Qed.

Lemma handleClientDisconnect_changeStreams userId :
  changeStreams (mongoManager st') !! userId =
  match userSubscriptions st !! userId with
  | Some userSubs =>
      if decide (size (userSubs ∖ {[clientId]}) = 0)
      then changeStreams (mongoManager (stopWatching userId e st)) !! userId
      else changeStreams (mongoManager st) !! userId
  | None => changeStreams (mongoManager st) !! userId
  end.
Proof.
  unfold st', handleClientDisconnect. simpl.
  rewrite disconnect_loop_changeStreams by apply NoDup_fst_map_to_list.
  by rewrite list_to_map_to_list.
Qed.
End ClientDisconnect.

(** ** The store side: feed errors, [connect], [disconnect] *)

Lemma onStreamError_sound sid st : sound st → sound (onStreamError sid st).
Proof.
  intros [Hne Hreg]. split; [done|].
  intros u i Hi. destruct (Hreg _ _ Hi) as (cs & Hcs & Hu). simpl.
  destruct (decide (i = sid)) as [->|Hd].
  - exists (breakStream cs). by rewrite list_lookup_alter_eq, Hcs.
  - exists cs. by rewrite list_lookup_alter_ne.
Qed.

Lemma onStreamError_tidy sid st : tidy st → tidy (onStreamError sid st).
Proof.
  intros (Hs & Hlive & Hws). split; [by apply onStreamError_sound|].
  split; [|done]. intros i cs. simpl.
  destruct (decide (i = sid)) as [->|Hd].
  - rewrite list_lookup_alter_eq. destruct (streams st !! sid); simpl; [|done].
    by intros [= <-].
  - rewrite list_lookup_alter_ne by done. apply Hlive.
Qed.

Lemma onStreamError_balanced sid st : balanced st → balanced (onStreamError sid st).
Proof. intros (Hs & ? & ?). split; [by apply onStreamError_tidy|done]. Qed.

Lemma connect_changeStreams ok m : changeStreams (connect ok m) = changeStreams m.
Proof. by destruct ok. Qed.

Lemma connect_sound ok st : sound st → sound (with_mongoManager (connect ok) st).
Proof.
  intros [Hne Hreg]. split; [done|].
  intros u sid. simpl. rewrite connect_changeStreams. apply Hreg.
Qed.

Lemma connect_tidy ok st : tidy st → tidy (with_mongoManager (connect ok) st).
Proof.
  intros (Hs & Hlive & Hws). split; [by apply connect_sound|]. split.
  - intros sid cs. simpl. rewrite connect_changeStreams. apply Hlive.
  - intros u. unfold watching. simpl. rewrite connect_changeStreams. apply Hws.
Qed.

Lemma connectRefused_sound st :
  sound st → sound (with_mongoManager connectRefused st).
Proof. by intros [Hne Hreg]. Qed.

Lemma connectRefused_tidy st :
  tidy st → tidy (with_mongoManager connectRefused st).
Proof. by intros (Hs & Hlive & Hws). Qed.

Lemma connect_ready st :
  changeStreamsEnabled (config (mongoManager st)) = true →
  storeReady (with_mongoManager (connect true) st).
Proof. by intros Hen. Qed.

Lemma connect_balanced st :
  tidy st → changeStreamsEnabled (config (mongoManager st)) = true →
  subscribedAreWatched st →
  balanced (with_mongoManager (connect true) st).
Proof.
  intros Hs Hen Hsw. split; [by apply connect_tidy|].
  split; [by apply connect_ready|done].
Qed.

Section CloseAll.
Context (e : Env).

Lemma closeAll_frame entries st :
  clients (closeAll e entries st).1 = clients st ∧
  userSubscriptions (closeAll e entries st).1 = userSubscriptions st ∧
  mongoManager (closeAll e entries st).1 = mongoManager st ∧
  wire (closeAll e entries st).1 = wire st.
Proof.
  revert st. induction entries as [|[u sid] entries IH]; intros st; [done|].
  simpl. destruct (closeOk e sid); [|done].
  destruct (IH (with_streams (alter (closeStream true) sid) st))
    as (-> & -> & -> & ->). done.
Qed.

Lemma closeAll_stream_after entries st i cs :
  streams st !! i = Some cs →
  ∃ cs', streams (closeAll e entries st).1 !! i = Some cs' ∧
         cs_userId cs' = cs_userId cs.
Proof.
  revert st cs. induction entries as [|[u sid] entries IH]; intros st cs Hi.
  { by exists cs. }
  simpl.
  assert (∃ cs1, alter (closeStream (closeOk e sid)) sid (streams st) !! i = Some cs1
                 ∧ cs_userId cs1 = cs_userId cs) as (cs1 & Hcs1 & Hu1).
  { destruct (decide (i = sid)) as [->|Hd].
    - rewrite list_lookup_alter_eq, Hi. simpl. eauto.
    - rewrite list_lookup_alter_ne by done. eauto. }
  destruct (closeOk e sid); simpl; [|by eauto].
  destruct (IH (with_streams (alter (closeStream true) sid) st) cs1 Hcs1)
    as (cs' & Hcs' & Hu'). exists cs'. split; [done|congruence].
Qed.

Lemma closeAll_stream_before entries st i cs' :
  streams (closeAll e entries st).1 !! i = Some cs' →
  ∃ cs, streams st !! i = Some cs ∧ (cs_live cs' = true → cs_live cs = true).
Proof.
  revert st cs'. induction entries as [|[u sid] entries IH]; intros st cs' Hi.
  { by exists cs'. }
  simpl in Hi.
  assert (∀ ok cs1,
            alter (closeStream ok) sid (streams st) !! i = Some cs1 →
            ∃ cs, streams st !! i = Some cs ∧
                  (cs_live cs1 = true → cs_live cs = true)) as Hone.
  { intros ok cs1. destruct (decide (i = sid)) as [->|Hd].
    - rewrite list_lookup_alter_eq.
      destruct (streams st !! sid) as [cs|]; simpl; [|done].
      intros [= <-]. exists cs. split; [done|]. simpl. by destruct ok.
    - rewrite list_lookup_alter_ne by done. eauto. }
  destruct (closeOk e sid); simpl in Hi; [|by eapply Hone].
  destruct (IH _ _ Hi) as (cs1 & Hcs1 & Hl1).
  destruct (Hone _ _ Hcs1) as (cs & Hcs & Hl). exists cs. split; [done|]. auto.
Qed.

Lemma closeAll_closes entries st :
  (∀ sid, closeOk e sid = true) →
  (closeAll e entries st).2 = Returned ∧
  ∀ u i cs', (u, i) ∈ entries →
             streams (closeAll e entries st).1 !! i = Some cs' →
             cs_live cs' = false.
Proof.
  intros Hok. revert st.
  induction entries as [|[u sid] entries IH]; intros st.
  { split; [done|]. intros ??? Hin. by apply elem_of_nil in Hin. }
  simpl. rewrite Hok.
  destruct (IH (with_streams (alter (closeStream true) sid) st)) as [Hr Hcl].
  split; [done|]. intros u' i cs' Hin Hi.
  apply elem_of_cons in Hin as [[= -> ->]|Hin]; [|by eapply Hcl].
  destruct (cs_live cs') eqn:Hlive; [|done].
  destruct (closeAll_stream_before _ _ _ _ Hi) as (cs1 & Hcs1 & Hl1).
  simpl in Hcs1. rewrite list_lookup_alter_eq in Hcs1.
  destruct (streams st !! sid); simpl in Hcs1; [|done].
  injection Hcs1 as <-. by specialize (Hl1 Hlive).
Qed.
End CloseAll.

Lemma disconnect_userSubscriptions e st :
  userSubscriptions (disconnect e st) = userSubscriptions st.
Proof.
  unfold disconnect.
  destruct (closeAll_frame e (map_to_list (changeStreams (mongoManager st))) st)
    as (_ & Hu & _ & _).
  destruct (closeAll e _ st) as [st1 []]; simpl in *; [|done].
  by repeat case_match.
Qed.

Lemma disconnect_changeStreams e st :
  changeStreams (mongoManager (disconnect e st)) = ∅ ∨
  changeStreams (mongoManager (disconnect e st)) = changeStreams (mongoManager st).
Proof.
  unfold disconnect.
  destruct (closeAll_frame e (map_to_list (changeStreams (mongoManager st))) st)
    as (_ & _ & Hm & _).
  destruct (closeAll e _ st) as [st1 []]; simpl in *.
  - left. by repeat case_match.
  - right. by rewrite Hm.
Qed.

Lemma disconnect_stream_after e st i cs :
  streams st !! i = Some cs →
  ∃ cs', streams (disconnect e st) !! i = Some cs' ∧ cs_userId cs' = cs_userId cs.
Proof.
  intros Hcs. unfold disconnect.
  destruct (closeAll_stream_after e
              (map_to_list (changeStreams (mongoManager st))) st i cs Hcs)
    as (cs' & Hcs' & Hu).
  exists cs'. split; [|done].
  destruct (closeAll e _ st) as [st1 []]; simpl in *; [|done].
  by repeat case_match.
Qed.

Lemma disconnect_sound e st : sound st → sound (disconnect e st).
Proof.
  intros [Hne Hreg]. split.
  { intros u s. rewrite disconnect_userSubscriptions. apply Hne. }
  intros u sid.
  destruct (disconnect_changeStreams e st) as [-> | ->]; [done|].
  intros Hsid. destruct (Hreg _ _ Hsid) as (cs & Hcs & Hu).
  destruct (disconnect_stream_after e st sid cs Hcs) as (cs' & ? & ?).
  exists cs'. split; [done|congruence].
Qed.

Lemma disconnect_resolved e st :
  (∀ sid, closeOk e sid = true) →
  changeStreams (mongoManager (disconnect e st)) = ∅ ∧
  streams (disconnect e st) =
  streams (closeAll e (map_to_list (changeStreams (mongoManager st))) st).1.
Proof.
  intros Hok. unfold disconnect.
  destruct (closeAll_closes e (map_to_list (changeStreams (mongoManager st))) st Hok)
    as [Hr _].
  destruct (closeAll e _ st) as [st1 c]; simpl in *. subst c.
  by repeat case_match.
Qed.

Lemma disconnect_tidy e st :
  (∀ sid, closeOk e sid = true) → tidy st → tidy (disconnect e st).
Proof.
  intros Hok (Hs & Hlive & Hws). split; [by apply disconnect_sound|].
  destruct (disconnect_resolved e st Hok) as [Hempty Hstreams].
  set (entries := map_to_list (changeStreams (mongoManager st))) in *.
  split.
  - intros i cs'. rewrite Hstreams. intros Hi Hrun.
    destruct (closeAll_stream_before e entries st i cs' Hi) as (cs & Hcs & Hl).
    specialize (Hlive _ _ Hcs (Hl Hrun)).
    apply elem_of_map_to_list in Hlive.
    destruct (closeAll_closes e entries st Hok) as [_ Hcl].
    specialize (Hcl _ _ _ Hlive Hi). congruence.
  - intros u [sid Hsid]. by rewrite Hempty in Hsid.
Qed.

(** ** Every event keeps the invariants *)

Lemma onMessage_sound clientId raw e st :
  sound st → sound (onMessage clientId raw e st).
Proof.
  intros Hs. destruct raw as [| |rendered|type userId]; simpl;
    try (by eapply sameCore_sound; [apply sendMessage_sameCore|]); try done.
  unfold handleMessage. repeat case_decide.
  - by apply handleUserSubscription_sound.
  - by apply handleUserUnsubscription_sound.
  - eapply sameCore_sound; [apply handleGetUserData_sameCore|done].
  - eapply sameCore_sound; [apply sendMessage_sameCore|done].
Qed.

Lemma onMessage_tidy clientId raw e st :
  (∀ sid, closeOk e sid = true) → tidy st → tidy (onMessage clientId raw e st).
Proof.
  intros Hok Hs. destruct raw as [| |rendered|type userId]; simpl;
    try (by eapply sameCore_tidy; [apply sendMessage_sameCore|]); try done.
  unfold handleMessage. repeat case_decide.
  - by apply handleUserSubscription_tidy.
  - by apply handleUserUnsubscription_tidy.
  - eapply sameCore_tidy; [apply handleGetUserData_sameCore|done].
  - eapply sameCore_tidy; [apply sendMessage_sameCore|done].
Qed.

Lemma onMessage_balanced clientId raw e st :
  (∀ sid, closeOk e sid = true) → watchOk e = true →
  balanced st → balanced (onMessage clientId raw e st).
Proof.
  intros Hok Hw Hs. destruct raw as [| |rendered|type userId]; simpl;
    try (by eapply sameCore_balanced; [apply sendMessage_sameCore|]); try done.
  unfold handleMessage. repeat case_decide.
  - by apply handleUserSubscription_balanced.
  - by apply handleUserUnsubscription_balanced.
  - eapply sameCore_balanced; [apply handleGetUserData_sameCore|done].
  - eapply sameCore_balanced; [apply sendMessage_sameCore|done].
Qed.

Lemma onConnection_sameCore clientId t st : sameCore st (onConnection clientId t st).
Proof.
  unfold onConnection.
  eapply sameCore_trans; [|apply sendMessage_sameCore]. by repeat split.
Qed.

Lemma step_sound st ev : sound st → sound (step st ev).
Proof.
  intros Hs. destruct ev; simpl.
  - eapply sameCore_sound; [apply onConnection_sameCore|done].
  - by apply onMessage_sound.
  - by apply handleClientDisconnect_sound.
  - by apply handleClientDisconnect_sound.
  - done.
  - eapply sameCore_sound; [apply onChange_sameCore|done].
  - by apply onStreamError_sound.
  - by apply connect_sound.
  - by apply disconnect_sound.
  - eapply sameCore_sound; [apply broadcastToAll_sameCore|done].
  - by apply connectRefused_sound.
Qed.

Lemma step_tidy st ev : closesResolve ev → tidy st → tidy (step st ev).
Proof.
  intros Hok Hs. destruct ev; simpl.
  - eapply sameCore_tidy; [apply onConnection_sameCore|done].
  - apply onMessage_tidy; [|done]. by apply Hok.
  - apply handleClientDisconnect_tidy; [|done]. by apply Hok.
  - apply handleClientDisconnect_tidy; [|done]. by apply Hok.
  - done.
  - eapply sameCore_tidy; [apply onChange_sameCore|done].
  - by apply onStreamError_tidy.
  - by apply connect_tidy.
  - apply disconnect_tidy; [|done]. by apply Hok.
  - eapply sameCore_tidy; [apply broadcastToAll_sameCore|done].
  - by apply connectRefused_tidy.
Qed.

Lemma step_balanced st ev : untroubled ev → balanced st → balanced (step st ev).
Proof.
  intros (Hok & Hw & Hev) Hs. destruct ev; simpl.
  - eapply sameCore_balanced; [apply onConnection_sameCore|done].
  - apply onMessage_balanced; [by apply Hok|by apply Hw|done].
  - apply handleClientDisconnect_balanced; [|done]. by apply Hok.
  - apply handleClientDisconnect_balanced; [|done]. by apply Hok.
  - done.
  - eapply sameCore_balanced; [apply onChange_sameCore|done].
  - by apply onStreamError_balanced.
  - subst ok. destruct Hs as (Ht & (_ & _ & Hen) & Hsw). by apply connect_balanced.
  - done.
  - eapply sameCore_balanced; [apply broadcastToAll_sameCore|done].
  - done.
Qed.

Lemma init_tidy mongoConfig : tidy (init mongoConfig).
Proof.
  repeat split.
  - by intros u s.
  - by intros u sid.
  - by intros [|i] cs.
  - by intros u [sid Hsid].
Qed.

Lemma run_app evs1 evs2 st : run (evs1 ++ evs2) st = run evs2 (run evs1 st).
Proof. apply foldl_app. Qed.

Lemma run_sound evs st : sound st → sound (run evs st).
Proof.
  revert st. induction evs as [|ev evs IH]; intros st Hs; [done|].
  simpl. by apply IH, step_sound.
Qed.

Lemma run_tidy evs st : Forall closesResolve evs → tidy st → tidy (run evs st).
Proof.
  intros Hevs. revert st. induction Hevs as [|ev evs Hev _ IH]; intros st Hs; [done|].
  simpl. by apply IH, step_tidy.
Qed.

Lemma run_balanced evs st : Forall untroubled evs → balanced st → balanced (run evs st).
Proof.
  intros Hevs. revert st. induction Hevs as [|ev evs Hev _ IH]; intros st Hs; [done|].
  simpl. by apply IH, step_balanced.
Qed.

(** ** The subscription index *)

Lemma subscribers_nonempty_entry st userId :
  subscribers st userId ≠ ∅ → is_Some (userSubscriptions st !! userId).
Proof.
  unfold subscribers. destruct (userSubscriptions st !! userId); [by eauto|done].
Qed.

Lemma sound_entry_iff st userId :
  sound st →
  is_Some (userSubscriptions st !! userId) ↔ subscribers st userId ≠ ∅.
Proof.
  intros [Hne _]. split; [|apply subscribers_nonempty_entry].
  intros [s Hs]. unfold subscribers. rewrite Hs. simpl. by eapply Hne.
Qed.

Lemma handleUserUnsubscription_userSubscriptions clientId userId e st :
  userSubscriptions (handleUserUnsubscription clientId userId e st) !! userId =
  match userSubscriptions st !! userId with
  | Some userSubs =>
      if decide (size (userSubs ∖ {[clientId]}) = 0) then None
      else Some (userSubs ∖ {[clientId]})
  | None => None
  end.
Proof.
  rewrite handleUserUnsubscription_entry, sendMessage_userSubscriptions.
  destruct (userSubscriptions st !! userId) as [s|] eqn:Hs; [|done].
  rewrite disconnectEntry_userSubscriptions.
  case_decide; [by rewrite lookup_delete_eq|by rewrite lookup_insert_eq].
Qed.

Lemma emptied_entry (st : WebSocketManager) userId clientId :
  subscribers st userId ∖ {[clientId]} = ∅ →
  match userSubscriptions st !! userId with
  | Some userSubs =>
      if decide (size (userSubs ∖ {[clientId]}) = 0) then None
      else Some (userSubs ∖ {[clientId]})
  | None => None
  end = None.
Proof.
  unfold subscribers. destruct (userSubscriptions st !! userId) as [s|]; [|done].
  simpl. intros ->. by rewrite size_empty.
Qed.

Lemma handleMessage_subscribe clientId userId e st :
  step st (subscribe clientId userId e) = handleUserSubscription clientId userId e st.
Proof. done. Qed.

Lemma handleMessage_unsubscribe clientId userId e st :
  step st (unsubscribe clientId userId e) =
  handleUserUnsubscription clientId userId e st.
Proof. done. Qed.

(** ** Disconnect *)

Lemma handleClientDisconnect_subscribers clientId e st userId :
  subscribers (handleClientDisconnect clientId e st) userId =
  subscribers st userId ∖ {[clientId]}.
Proof.
  unfold subscribers. rewrite handleClientDisconnect_userSubscriptions.
  destruct (userSubscriptions st !! userId) as [s|]; simpl;
    [|by rewrite empty_difference_L].
  destruct (decide (size (s ∖ {[clientId]}) = 0)) as [Hsz|Hsz]; [|done]. simpl.
  symmetry. apply leibniz_equiv. by apply size_empty_inv.
Qed.



(** ** The reply to a subscribe *)

Lemma watchUserData_completion_subscribed f userId e st :
  (watchUserData userId e (with_userSubscriptions f st)).2 =
  (watchUserData userId e st).2.
Proof. rewrite !watchUserData_cases. simpl. by repeat case_match. Qed.

Lemma isOpen_same_clients st st' clientId :
  clients st' = clients st → isOpen st' clientId = isOpen st clientId.
Proof. unfold isOpen. by intros ->. Qed.

Lemma handleUserSubscription_wire clientId userId e st :
  wire (handleUserSubscription clientId userId e st) =
  wire st ++
  (if isOpen st clientId
   then [(clientId, subscriptionReply userId e (watchUserData userId e st).2)]
   else []).
Proof.
  unfold handleUserSubscription.
  set (st1 := with_userSubscriptions (addSubscriber clientId userId) st).
  pose proof (watchUserData_completion_subscribed
                (addSubscriber clientId userId) userId e st) as Hc.
  pose proof (watchUserData_wire userId e st1) as Hw.
  pose proof (watchUserData_clients userId e st1) as Hcl.
  fold st1 in Hc. rewrite <- Hc.
  destruct (watchUserData userId e st1) as [st2 c]; simpl in *.
  destruct c; unfold sendError; rewrite sendMessage_wire, Hw;
    by rewrite (isOpen_same_clients st st2).
Qed.

(** ** Counting the running feeds of an owner *)

Section Counting.
Context {A : Type} (P : A → Prop) `{!∀ x, Decision (P x)}.

Lemma filter_at_most_one (l : list A) :
  (∀ i j x y, l !! i = Some x → l !! j = Some y → P x → P y → i = j) →
  (length (filter P l) ≤ 1)%nat.
Proof.
  induction l as [|a l IH]; intros Huniq; [simpl; lia|].
  rewrite filter_cons. destruct (decide (P a)) as [Ha|Ha].
  - destruct (filter P l) as [|y rest] eqn:Hf; [simpl; lia|].
    assert (Hy : y ∈ filter P l) by (rewrite Hf; left).
    apply list_elem_of_filter in Hy as [HPy Hy].
    apply list_elem_of_lookup in Hy as [j Hj].
    by specialize (Huniq 0 (S j) a y eq_refl Hj Ha HPy).
  - apply IH. intros i j x y Hi Hj Hx Hy.
    by specialize (Huniq (S i) (S j) x y Hi Hj Hx Hy) as [= ->].
Qed.

Lemma filter_inhabited (l : list A) x :
  x ∈ l → P x → (0 < length (filter P l))%nat.
Proof.
  intros Hx HP. assert (Hin : x ∈ filter P l) by (by apply list_elem_of_filter).
  destruct (filter P l); [by apply elem_of_nil in Hin|simpl; lia].
Qed.

Lemma filter_occupied (l : list A) :
  (0 < length (filter P l))%nat → ∃ i x, l !! i = Some x ∧ P x.
Proof.
  destruct (filter P l) as [|x rest] eqn:Hf; [simpl; lia|]. intros _.
  assert (Hx : x ∈ filter P l) by (rewrite Hf; left).
  apply list_elem_of_filter in Hx as [HP Hx].
  apply list_elem_of_lookup in Hx as [i Hi]. eauto.
Qed.
End Counting.

Lemma activeWatches_at_most_one st userId :
  liveTracked st → (activeWatches st userId ≤ 1)%nat.
Proof.
  intros Hlive. apply filter_at_most_one.
  intros i j x y Hi Hj [Hxu Hxl] [Hyu Hyl].
  pose proof (Hlive _ _ Hi Hxl) as Hri. pose proof (Hlive _ _ Hj Hyl) as Hrj.
  congruence.
Qed.

Lemma activeWatches_watching st userId :
  liveTracked st → (0 < activeWatches st userId)%nat → watching st userId.
Proof.
  intros Hlive Hpos. apply filter_occupied in Hpos as (i & cs & Hi & [Hu Hl]).
  exists i. rewrite <- Hu. by apply Hlive.
Qed.

Lemma tidy_active_subscribed st userId :
  tidy st → (0 < activeWatches st userId)%nat →
  watching st userId ∧ subscribers st userId ≠ ∅.
Proof.
  intros (Hsound & Hlive & Hws) Hpos.
  pose proof (activeWatches_watching _ _ Hlive Hpos) as Hw.
  split; [done|]. apply sound_entry_iff; [done|]. by apply Hws.
Qed.

Lemma tidy_unsubscribed_inactive st userId :
  tidy st → subscribers st userId = ∅ → activeWatches st userId = 0.
Proof.
  intros Htidy Hempty.
  destruct (activeWatches st userId) as [|n] eqn:Hn; [done|].
  destruct (tidy_active_subscribed st userId Htidy) as [_ Hne]; [lia|done].
Qed.

(** ** Registered streams keep running unless their feed breaks *)

Lemma sameCore_registeredRunning st st' :
  sameCore st st' → registeredRunning st → registeredRunning st'.
Proof. intros (_ & Hm & Hs) Hrun u sid. rewrite Hm, Hs. apply Hrun. Qed.

Lemma stopWatching_registeredRunning userId e st :
  registeredRunning st → registeredRunning (stopWatching userId e st).
Proof.
  intros Hrun other sid' Hreg'.
  pose proof (stopWatching_lookup_Some _ _ _ _ _ Hreg') as Hreg.
  destruct (Hrun _ _ Hreg) as (cs & Hcs & Hu & Hl).
  rewrite stopWatching_streams.
  destruct (changeStreams (mongoManager st) !! userId) as [sid|] eqn:Hsid;
    [|by exists cs].
  destruct (decide (sid' = sid)) as [->|Hne].
  - destruct (Hrun _ _ Hsid) as (cs0 & Hcs0 & Hu0 & _).
    assert (other = userId) as -> by congruence.
    rewrite stopWatching_lookup_self, Hsid in Hreg'.
    destruct (closeOk e sid) eqn:Hok; [done|].
    exists (closeStream false cs). by rewrite list_lookup_alter_eq, Hcs.
  - exists cs. by rewrite list_lookup_alter_ne.
Qed.

Lemma opened_registeredRunning userId st :
  registeredRunning st → registeredRunning (opened userId st).
Proof.
  intros Hrun other sid. simpl. rewrite lookup_insert. case_decide as Hu.
  - intros [= <-]. subst other. exists (mkChangeStream userId true 0).
    split; [|done]. rewrite lookup_app_r by done. by rewrite Nat.sub_diag.
  - intros Hreg. destruct (Hrun _ _ Hreg) as (cs & Hcs & ? & ?).
    exists cs. split; [|done]. by apply lookup_app_l_Some.
Qed.

Lemma watchUserData_registeredRunning userId e st :
  registeredRunning st → registeredRunning (watchUserData userId e st).1.
Proof.
  intros Hrun.
  destruct (watchUserData_shape userId e st) as [->|[->| ->]]; [done|..].
  - by apply stopWatching_registeredRunning.
  - by apply opened_registeredRunning, stopWatching_registeredRunning.
Qed.

Lemma disconnectEntry_registeredRunning clientId e st entry :
  registeredRunning st → registeredRunning (disconnectEntry clientId e st entry).
Proof.
  intros Hrun. destruct entry as [u s]. rewrite disconnectEntry_normal.
  case_decide; [|done].
  by apply (stopWatching_registeredRunning u e st).
Qed.

Lemma handleClientDisconnect_registeredRunning clientId e st :
  registeredRunning st → registeredRunning (handleClientDisconnect clientId e st).
Proof.
  intros Hrun.
  eapply sameCore_registeredRunning; [apply handleClientDisconnect_core|].
  generalize (map_to_list (userSubscriptions st)). intros l. revert st Hrun.
  induction l as [|entry l IH]; intros st Hrun; [done|].
  simpl. by apply IH, disconnectEntry_registeredRunning.
Qed.

Lemma onMessage_registeredRunning clientId raw e st :
  registeredRunning st → registeredRunning (onMessage clientId raw e st).
Proof.
  intros Hrun. destruct raw as [| |rendered|type userId]; simpl;
    try (by eapply sameCore_registeredRunning; [apply sendMessage_sameCore|]);
    try done.
  unfold handleMessage. repeat case_decide.
  - eapply sameCore_registeredRunning; [apply handleUserSubscription_core|].
    by apply watchUserData_registeredRunning.
  - rewrite handleUserUnsubscription_entry.
    eapply sameCore_registeredRunning; [apply sendMessage_sameCore|].
    destruct (userSubscriptions st !! userId); [|done].
    by apply disconnectEntry_registeredRunning.
  - eapply sameCore_registeredRunning; [apply handleGetUserData_sameCore|done].
  - eapply sameCore_registeredRunning; [apply sendMessage_sameCore|done].
Qed.

Lemma step_registeredRunning st ev :
  quiet ev → registeredRunning st → registeredRunning (step st ev).
Proof.
  intros [(_ & _ & Hev) Hne] Hrun. destruct ev; simpl.
  - eapply sameCore_registeredRunning; [apply onConnection_sameCore|done].
  - by apply onMessage_registeredRunning.
  - by apply handleClientDisconnect_registeredRunning.
  - by apply handleClientDisconnect_registeredRunning.
  - done.
  - eapply sameCore_registeredRunning; [apply onChange_sameCore|done].
  - by destruct (Hne sid).
  - intros u i. simpl. rewrite connect_changeStreams. apply Hrun.
  - done.
  - eapply sameCore_registeredRunning; [apply broadcastToAll_sameCore|done].
  - done.
Qed.

Lemma run_registeredRunning evs st :
  Forall quiet evs → registeredRunning st → registeredRunning (run evs st).
Proof.
  intros Hevs. revert st. induction Hevs as [|ev evs Hev _ IH]; intros st Hs; [done|].
  simpl. by apply IH, step_registeredRunning.
Qed.


(** ** What goes on the wire *)

Section Wire.
Context (Q : Message → Prop).

Lemma wireGrows_same st st' : wire st' = wire st → wireGrows Q st st'.
Proof. intros Hw. exists []. by rewrite app_nil_r. Qed.

Lemma wireGrows_trans st1 st2 st3 :
  wireGrows Q st1 st2 → wireGrows Q st2 st3 → wireGrows Q st1 st3.
Proof.
  intros (f1 & Hw1 & HQ1) (f2 & Hw2 & HQ2). exists (f1 ++ f2). split.
  - by rewrite Hw2, Hw1, app_assoc.
  - by apply Forall_app.
Qed.

Lemma sendMessage_wireGrows clientId message st :
  Q message → wireGrows Q st (sendMessage clientId message st).
Proof.
  intros HQ. eexists. split; [apply sendMessage_wire|].
  destruct (isOpen st clientId); [by apply Forall_singleton|constructor].
Qed.

Lemma broadcastToUser_wireGrows userId message st :
  Q message → wireGrows Q st (broadcastToUser userId message st).
Proof.
  intros HQ. destruct (broadcastToUser_effect userId message st)
    as (_ & _ & _ & _ & Hw).
  eexists. split; [apply Hw|]. apply Forall_fmap, Forall_true. by intros c.
Qed.

Lemma broadcastToAll_wireGrows message st :
  Q message → wireGrows Q st (broadcastToAll message st).
Proof.
  intros HQ. unfold broadcastToAll. generalize (map_to_list (clients st)).
  intros l. revert st. induction l as [|entry l IH]; intros st; simpl.
  - by apply wireGrows_same.
  - eapply wireGrows_trans; [|apply IH].
    case_bool_decide; [by apply sendMessage_wireGrows|by apply wireGrows_same].
Qed.
End Wire.

Lemma wireGrows_weaken (Q Q' : Message → Prop) st st' :
  (∀ m, Q m → Q' m) → wireGrows Q st st' → wireGrows Q' st st'.
Proof.
  intros HQ (frames & Hw & Hf). exists frames. split; [done|].
  eapply Forall_impl; [done|]. intros f. apply HQ.
Qed.

Ltac reply_type :=
  split; [unfold replyTypes; simpl;
          repeat first [by apply list_elem_of_here | apply list_elem_of_further]
         |by eexists].

Lemma reply_connectionEstablished c t : wellFormed replyTypes (connectionEstablished c t).
Proof. reply_type. Qed.

Lemma reply_subscriptionConfirmed u t : wellFormed replyTypes (subscriptionConfirmed u t).
Proof. reply_type. Qed.

Lemma reply_unsubscriptionConfirmed u t :
  wellFormed replyTypes (unsubscriptionConfirmed u t).
Proof. reply_type. Qed.

Lemma reply_userDataMessage u d t : wellFormed replyTypes (userDataMessage u d t).
Proof. reply_type. Qed.

Lemma reply_errorMessage text t : wellFormed replyTypes (errorMessage text t).
Proof. reply_type. Qed.

Lemma handleUserSubscription_wireGrows clientId userId e st :
  wireGrows (wellFormed replyTypes) st (handleUserSubscription clientId userId e st).
Proof.
  eexists. split; [apply handleUserSubscription_wire|].
  destruct (isOpen st clientId); [|constructor].
  apply Forall_singleton. simpl.
  destruct (watchUserData userId e st).2;
    [apply reply_subscriptionConfirmed|apply reply_errorMessage].
Qed.

Lemma handleUserUnsubscription_wireGrows clientId userId e st :
  wireGrows (wellFormed replyTypes) st (handleUserUnsubscription clientId userId e st).
Proof.
  rewrite handleUserUnsubscription_entry.
  eapply wireGrows_trans;
    [|apply sendMessage_wireGrows, reply_unsubscriptionConfirmed].
  apply wireGrows_same.
  destruct (userSubscriptions st !! userId); [|done]. apply disconnectEntry_wire.
Qed.

Lemma handleGetUserData_wireGrows clientId userId e st :
  wireGrows (wellFormed replyTypes) st (handleGetUserData clientId userId e st).
Proof.
  unfold handleGetUserData, sendError.
  repeat case_match; apply sendMessage_wireGrows;
    first [apply reply_userDataMessage | apply reply_errorMessage].
Qed.

Lemma onMessage_wireGrows clientId raw e st :
  wireGrows (wellFormed replyTypes) st (onMessage clientId raw e st).
Proof.
  destruct raw as [| |rendered|type userId]; simpl;
    try (apply sendMessage_wireGrows, reply_errorMessage);
    try (by apply wireGrows_same).
  unfold handleMessage. repeat case_decide.
  - apply handleUserSubscription_wireGrows.
  - apply handleUserUnsubscription_wireGrows.
  - apply handleGetUserData_wireGrows.
  - apply sendMessage_wireGrows, reply_errorMessage.
Qed.

Lemma handleClientDisconnect_wire clientId e st :
  wire (handleClientDisconnect clientId e st) = wire st.
Proof. unfold handleClientDisconnect. simpl. apply disconnect_loop_wire. Qed.

Lemma disconnect_wire e st : wire (disconnect e st) = wire st.
Proof.
  unfold disconnect.
  destruct (closeAll_frame e (map_to_list (changeStreams (mongoManager st))) st)
    as (_ & _ & _ & Hw).
  destruct (closeAll e _ st) as [st1 []]; simpl in *; [|done].
  by repeat case_match.
Qed.

Lemma step_wireGrows st ev : wireGrows (emitted st ev) st (step st ev).
Proof.
  destruct ev; simpl.
  - unfold onConnection.
    eapply wireGrows_trans;
      [|apply sendMessage_wireGrows, reply_connectionEstablished].
    by apply wireGrows_same.
  - apply onMessage_wireGrows.
  - apply wireGrows_same, handleClientDisconnect_wire.
  - apply wireGrows_same, handleClientDisconnect_wire.
  - by apply wireGrows_same.
  - unfold onChange.
    destruct (streams st !! sid) as [cs|] eqn:Hcs; [|by apply wireGrows_same].
    destruct (cs_live cs) eqn:Hl; [|by apply wireGrows_same].
    destruct (fullDocument change) as [doc|]; [|by apply wireGrows_same].
    destruct (convertMongoDocument doc) as [d|]; [|by apply wireGrows_same].
    apply broadcastToUser_wireGrows. by exists cs, d.
  - by apply wireGrows_same.
  - by apply wireGrows_same.
  - apply wireGrows_same, disconnect_wire.
  - by apply broadcastToAll_wireGrows.
  - by apply wireGrows_same.
Qed.

Lemma replyTypes_handlerTypes m :
  wellFormed replyTypes m → wellFormed handlerTypes m.
Proof.
  intros [Hty Hts]. split; [|done]. unfold replyTypes, handlerTypes in *.
  rewrite !elem_of_cons in *. tauto.
Qed.

Lemma replyTypes_not_data_update m :
  wellFormed replyTypes m → msg_type m ≠ "data_update".
Proof.
  intros [Hty _] Heq. rewrite Heq in Hty. unfold replyTypes in Hty.
  rewrite !elem_of_cons, elem_of_nil in Hty.
  by repeat destruct Hty as [Hty|Hty].
Qed.

Lemma dataUpdate_handlerTypes u d t : wellFormed handlerTypes (dataUpdate u d t).
Proof.
  split; [|by eexists]. unfold handlerTypes. simpl.
  repeat first [by apply list_elem_of_here | apply list_elem_of_further].
Qed.

Lemma callerMessages_cons ev evs m :
  m ∈ callerMessages (ev :: evs) ↔
  ev = BroadcastToAll m ∨ m ∈ callerMessages evs.
Proof.
  unfold callerMessages. simpl. destruct ev; try (split; [by right|by intros [?|?]]).
  rewrite elem_of_cons. split; intros [Hm|Hm]; auto; left; congruence.
Qed.

Lemma emitted_origin st ev m :
  emitted st ev m → ev = BroadcastToAll m ∨ wellFormed handlerTypes m.
Proof.
  destruct ev; simpl; try (intros Hr; right; by apply replyTypes_handlerTypes).
  - intros (cs & d & _ & _ & ->). right. apply dataUpdate_handlerTypes.
  - intros ->. by left.
Qed.

Lemma emitted_origin_off st ev m :
  streams st = [] →
  emitted st ev m → ev = BroadcastToAll m ∨ wellFormed replyTypes m.
Proof.
  intros Hoff. destruct ev; simpl; try (intros Hr; by right).
  - intros (cs & d & Hcs & _). by rewrite Hoff in Hcs.
  - intros ->. by left.
Qed.

Lemma run_wire_origin evs st f :
  f ∈ wire (run evs st) →
  f ∈ wire st ∨ f.2 ∈ callerMessages evs ∨ wellFormed handlerTypes f.2.
Proof.
  revert st. induction evs as [|ev evs IH]; intros st Hf; [by left|].
  change (run (ev :: evs) st) with (run evs (step st ev)) in Hf.
  destruct (IH _ Hf) as [Hin|[Hc|Hwf]].
  - destruct (step_wireGrows st ev) as (frames & Hw & Hfr).
    rewrite Hw in Hin. apply elem_of_app in Hin as [Hin|Hin]; [by left|].
    right. rewrite Forall_forall in Hfr.
    destruct (emitted_origin _ _ _ (Hfr _ Hin)) as [->|Hwf]; [|by right].
    left. apply callerMessages_cons. by left.
  - right. left. apply callerMessages_cons. by right.
  - by right; right.
Qed.

(** ** With change streams switched off *)

Lemma stopWatching_off userId e st :
  changeStreams (mongoManager st) = ∅ → stopWatching userId e st = st.
Proof. intros Hoff. unfold stopWatching. by rewrite Hoff, lookup_empty. Qed.

Lemma watchUserData_off userId e st :
  changeStreamsEnabled (config (mongoManager st)) = false →
  (watchUserData userId e st).1 = st.
Proof. intros Hoff. rewrite watchUserData_cases, Hoff. by case_bool_decide. Qed.

Lemma sameCore_featureOff st st' : sameCore st st' → featureOff st → featureOff st'.
Proof. intros (_ & Hm & Hs). unfold featureOff. by rewrite Hm, Hs. Qed.

Lemma handleUserSubscription_featureOff clientId userId e st :
  featureOff st → featureOff (handleUserSubscription clientId userId e st).
Proof.
  intros Hoff. eapply sameCore_featureOff; [apply handleUserSubscription_core|].
  by rewrite watchUserData_off by apply Hoff.
Qed.

Lemma disconnectEntry_featureOff clientId e st entry :
  featureOff st → featureOff (disconnectEntry clientId e st entry).
Proof.
  intros Hoff. destruct entry as [u s]. rewrite disconnectEntry_normal.
  case_decide; [|done]. by rewrite stopWatching_off by apply Hoff.
Qed.

Lemma handleClientDisconnect_featureOff clientId e st :
  featureOff st → featureOff (handleClientDisconnect clientId e st).
Proof.
  intros Hoff. eapply sameCore_featureOff; [apply handleClientDisconnect_core|].
  generalize (map_to_list (userSubscriptions st)). intros l. revert st Hoff.
  induction l as [|entry l IH]; intros st Hoff; [done|].
  simpl. by apply IH, disconnectEntry_featureOff.
Qed.

Lemma onMessage_featureOff clientId raw e st :
  featureOff st → featureOff (onMessage clientId raw e st).
Proof.
  intros Hoff. destruct raw as [| |rendered|type userId]; simpl;
    try (by eapply sameCore_featureOff; [apply sendMessage_sameCore|]); try done.
  unfold handleMessage. repeat case_decide.
  - by apply handleUserSubscription_featureOff.
  - rewrite handleUserUnsubscription_entry.
    eapply sameCore_featureOff; [apply sendMessage_sameCore|].
    destruct (userSubscriptions st !! userId); [|done].
    by apply disconnectEntry_featureOff.
  - eapply sameCore_featureOff; [apply handleGetUserData_sameCore|done].
  - eapply sameCore_featureOff; [apply sendMessage_sameCore|done].
Qed.

Lemma step_featureOff st ev : featureOff st → featureOff (step st ev).
Proof.
  intros Hoff. destruct ev; simpl.
  - eapply sameCore_featureOff; [apply onConnection_sameCore|done].
  - by apply onMessage_featureOff.
  - by apply handleClientDisconnect_featureOff.
  - by apply handleClientDisconnect_featureOff.
  - done.
  - eapply sameCore_featureOff; [apply onChange_sameCore|done].
  - destruct Hoff as (? & ? & Hs). unfold featureOff, onStreamError. simpl.
    by rewrite Hs.
  - destruct Hoff as (? & ? & ?). unfold featureOff. simpl. by destruct ok.
  - destruct Hoff as (Hen & Hcs & Hs). unfold featureOff, disconnect.
    rewrite Hcs, map_to_list_empty. simpl. by repeat case_match.
  - eapply sameCore_featureOff; [apply broadcastToAll_sameCore|done].
  - done.
Qed.

Lemma run_featureOff evs st : featureOff st → featureOff (run evs st).
Proof.
  revert st. induction evs as [|ev evs IH]; intros st Hoff; [done|].
  simpl. by apply IH, step_featureOff.
Qed.

Lemma run_wire_origin_off evs st f :
  featureOff st →
  f ∈ wire (run evs st) →
  f ∈ wire st ∨ f.2 ∈ callerMessages evs ∨ wellFormed replyTypes f.2.
Proof.
  revert st. induction evs as [|ev evs IH]; intros st Hoff Hf; [by left|].
  change (run (ev :: evs) st) with (run evs (step st ev)) in Hf.
  destruct (IH _ (step_featureOff _ ev Hoff) Hf) as [Hin|[Hc|Hwf]].
  - destruct (step_wireGrows st ev) as (frames & Hw & Hfr).
    rewrite Hw in Hin. apply elem_of_app in Hin as [Hin|Hin]; [by left|].
    right. rewrite Forall_forall in Hfr.
    destruct (emitted_origin_off _ _ _ (proj2 (proj2 Hoff)) (Hfr _ Hin))
      as [->|Hwf]; [|by right].
    left. apply callerMessages_cons. by left.
  - right. left. apply callerMessages_cons. by right.
  - by right; right.
Qed.

(** C8, as the code has it.  Every message the broker puts on the wire is
    either one a caller handed to [broadcastToAll], forwarded as it is, or
    a message built by a handler, whose type is one of
    connection_established, subscription_confirmed,
    unsubscription_confirmed, data_update, user_data, error, and which
    carries a timestamp.  A subscribe during which [watchUserData] returns
    is answered, on an open socket, with one subscription_confirmed
    message for the requested owner. *)
Theorem outbound_messages_are_typed
    (mongoConfig : CloudStorageConfig) (evs : list Event) :
  let st := run evs (init mongoConfig) in
  (∀ frame, frame ∈ wire st →
            frame.2 ∈ callerMessages evs ∨ wellFormed handlerTypes frame.2) ∧
  (∀ clientId userId e,
     (watchUserData userId e st).2 = Returned → openSocket st clientId →
     wire (step st (subscribe clientId userId e)) =
     wire st ++ [(clientId, subscriptionConfirmed userId (now e))]).
Proof.
  intros st. split.
  - intros frame Hin.
    destruct (run_wire_origin evs (init mongoConfig) frame Hin) as [Hinit|?]; [|done].
    by apply elem_of_nil in Hinit.
  - intros clientId userId e Hret Hopen. rewrite handleMessage_subscribe.
    rewrite handleUserSubscription_wire, Hret.
    apply isOpen_spec in Hopen. by rewrite Hopen.
Qed.

(** C4, as the code has it.  When the feed behind a registered stream
    breaks, the 'error' listener only logs: the stream stays registered
    for its owner (the owner is not moved back to unwatched), nothing is
    sent to any connection, no stream is opened in its place, and the
    subscription index and the registry are untouched.  The owner recovers
    at the next subscribe handled with the store connected, change streams
    on and [collection.watch] succeeding, as at any subscribe: [close()]
    is called on the broken stream and a new stream is registered. *)
Theorem feed_error_keeps_the_watch_registered
    (st : WebSocketManager) (sid : nat) (userId : string) (cs : ChangeStream) :
  changeStreams (mongoManager st) !! userId = Some sid →
  streams st !! sid = Some cs →
  let st' := step st (StreamError sid) in
  changeStreams (mongoManager st') !! userId = Some sid ∧
  mongoManager st' = mongoManager st ∧
  userSubscriptions st' = userSubscriptions st ∧
  clients st' = clients st ∧
  wire st' = wire st ∧
  length (streams st') = length (streams st) ∧
  streams st' !! sid = Some (mkChangeStream (cs_userId cs) false (cs_closeCalls cs)) ∧
  (∀ clientId e,
     storeReady st → watchOk e = true →
     let st'' := step st' (subscribe clientId userId e) in
     changeStreams (mongoManager st'') !! userId = Some (length (streams st)) ∧
     streams st'' !! length (streams st) = Some (mkChangeStream userId true 0) ∧
     ∃ cs', streams st'' !! sid = Some cs' ∧
            cs_closeCalls cs' = S (cs_closeCalls cs)).
Proof.
  intros Hsid Hcs st'.
  assert (Hlt : sid < length (streams st)) by (by eapply lookup_lt_Some).
  assert (Hbroken : streams st' !! sid = Some (breakStream cs)).
  { unfold st'. simpl. by rewrite list_lookup_alter_eq, Hcs. }
  assert (Hlen' : length (streams st') = length (streams st)).
  { unfold st'. simpl. apply length_alter. }
  split_and!; try done.
  intros clientId e Hready Hw st''. unfold st''.
  rewrite handleMessage_subscribe.
  set (st1 := with_userSubscriptions (addSubscriber clientId userId) st').
  destruct (handleUserSubscription_core clientId userId e st') as (_ & Hm & Hs).
  fold st1 in Hm, Hs.
  rewrite (watchUserData_ready userId e st1) in Hm, Hs by done.
  simpl in Hm, Hs.
  assert (Hlen : length (streams (stopWatching userId e st1)) = length (streams st)).
  { by rewrite stopWatching_length. }
  split_and!.
  - rewrite Hm. simpl. by rewrite lookup_insert_eq, Hlen.
  - rewrite Hs, lookup_app_r by (rewrite Hlen; lia).
    by rewrite Hlen, Nat.sub_diag.
  - exists (closeStream (closeOk e sid) (breakStream cs)). split; [|done].
    rewrite Hs, lookup_app_l by (rewrite Hlen; lia).
    by apply stopWatching_closeCalls.
Qed.

(** ** Events with a calm environment *)

Lemma calm_closesResolve ev t : envOf ev = Some (calm t) → closesResolve ev.
Proof. intros Hev e. rewrite Hev. by intros [= <-]. Qed.

Lemma no_env_closesResolve ev : envOf ev = None → closesResolve ev.
Proof. intros Hev e. by rewrite Hev. Qed.

Lemma calm_untroubled ev t :
  envOf ev = Some (calm t) → (∀ e, ev ≠ DisconnectFromMongo e) → untroubled ev.
Proof.
  intros Hev Hnd. split; [by eapply calm_closesResolve|]. split.
  - intros e. rewrite Hev. by intros [= <-].
  - destruct ev; try done. by apply (Hnd e).
Qed.

Lemma no_env_untroubled ev :
  envOf ev = None → ev ≠ ConnectToMongo false → ev ≠ ConnectToMongoRefused →
  untroubled ev.
Proof.
  intros Hev Hok Hin. split; [by apply no_env_closesResolve|]. split.
  - intros e. by rewrite Hev.
  - destruct ev; try done. by destruct ok.
Qed.

Lemma untroubled_quiet ev : untroubled ev → (∀ sid, ev ≠ StreamError sid) → quiet ev.
Proof. by split. Qed.

Ltac settled_events :=
  repeat first
    [ apply Forall_nil_2
    | apply Forall_cons_2;
      [ first [ by eapply calm_untroubled
              | by apply no_env_untroubled
              | by eapply calm_closesResolve
              | by apply no_env_closesResolve
              | by apply untroubled_quiet;
                  [first [by eapply calm_untroubled | by apply no_env_untroubled]|]
              ] | ] ].

Ltac evaluated := apply (bool_decide_unpack _); vm_compute; exact I.

(** ** Suspended handlers: settling at once is handling in one piece *)

Lemma stopWatching_halves userId e st :
  stopWatching userId e st =
  match Interleaving.stopWatchingCall userId e st with
  | (st1, Some sid) => Interleaving.stopWatchingSettled userId sid e st1
  | (st1, None) => st1
  end.
Proof.
  unfold stopWatching, Interleaving.stopWatchingCall,
    Interleaving.stopWatchingSettled.
  by destruct (changeStreams (mongoManager st) !! userId).
Qed.

Lemma stopWatchingCall_collection userId e st :
  collection (mongoManager (Interleaving.stopWatchingCall userId e st).1) =
  collection (mongoManager st).
Proof.
  unfold Interleaving.stopWatchingCall.
  by destruct (changeStreams (mongoManager st) !! userId).
Qed.

Lemma stopWatchingSettled_collection userId sid e st :
  collection (mongoManager (Interleaving.stopWatchingSettled userId sid e st)) =
  collection (mongoManager st).
Proof. unfold Interleaving.stopWatchingSettled. by destruct (closeOk e sid). Qed.

Lemma subscription_settled_at_once clientId userId e st :
  Interleaving.settleAll (Interleaving.subscriptionBegin clientId userId e st) =
  handleUserSubscription clientId userId e st.
Proof.
  unfold Interleaving.settleAll, Interleaving.subscriptionBegin,
    handleUserSubscription, watchUserData.
  set (st1 := with_userSubscriptions (addSubscriber clientId userId) st).
  destruct (collection (mongoManager st1)) eqn:Hc; [|done].
  destruct (negb true || negb (isConnected (mongoManager st1))); [done|].
  destruct (negb (changeStreamsEnabled (config (mongoManager st1)))); [done|].
  rewrite stopWatching_halves.
  pose proof (stopWatchingCall_collection userId e st1) as Hcall.
  destruct (Interleaving.stopWatchingCall userId e st1) as [st2 [sid|]];
    cbn [fst snd foldl Interleaving.resume] in *;
    unfold Interleaving.subscriptionRest, opened;
    rewrite ?stopWatchingSettled_collection, Hcall, Hc;
    by destruct (watchOk e).
Qed.

Lemma getUserData_settled_at_once clientId userId e st :
  Interleaving.settleAll (Interleaving.getUserDataBegin clientId userId e st) =
  handleGetUserData clientId userId e st.
Proof.
  unfold Interleaving.settleAll, Interleaving.getUserDataBegin,
    handleGetUserData, loadUserData.
  destruct (negb (collection (mongoManager st)) ||
            negb (isConnected (mongoManager st))); [done|].
  cbn [fst snd foldl Interleaving.resume]. unfold Interleaving.getUserDataRest.
  destruct (findOne e) as [| |doc]; [done..|].
  by destruct (convertMongoDocument doc).
Qed.

Lemma unsubscription_settled_at_once clientId userId e st :
  Interleaving.settleAll (Interleaving.unsubscriptionBegin clientId userId e st) =
  handleUserUnsubscription clientId userId e st.
Proof.
  unfold Interleaving.settleAll, Interleaving.unsubscriptionBegin,
    handleUserUnsubscription.
  destruct (userSubscriptions st !! userId) as [userSubs|]; [|done].
  case_decide; [|done]. rewrite stopWatching_halves.
  by destruct (Interleaving.stopWatchingCall userId e _) as [st2 [sid|]].
Qed.

Section DisconnectSettled.
Import Interleaving.
Context (clientId : string) (e : Env).

Lemma stopWatchingSettled_with_userSubscriptions f userId sid e' st :
  stopWatchingSettled userId sid e' (with_userSubscriptions f st) =
  with_userSubscriptions f (stopWatchingSettled userId sid e' st).
Proof. unfold stopWatchingSettled. by destruct (closeOk e' sid). Qed.

Lemma stopWatchingCall_after_settled userId sid e' other st :
  userId ≠ other →
  stopWatchingCall other e (stopWatchingSettled userId sid e' st) =
  (stopWatchingSettled userId sid e' (stopWatchingCall other e st).1,
   (stopWatchingCall other e st).2).
Proof.
  intros Hne. unfold stopWatchingCall, stopWatchingSettled.
  destruct (closeOk e' sid); simpl.
  - rewrite lookup_delete_ne by done.
    by destruct (changeStreams (mongoManager st) !! other).
  - by destruct (changeStreams (mongoManager st) !! other).
Qed.

Let turn := disconnectTurn clientId e.

Lemma disconnectEntryBegin_pending st pending entry :
  disconnectEntryBegin clientId e (st, pending) entry =
  ((turn st entry).1, pending ++ (turn st entry).2).
Proof.
  unfold turn, disconnectTurn, disconnectEntryBegin. simpl. case_decide.
  - by destruct (stopWatchingCall _ _ _) as [st2 [sid|]]; simpl;
      rewrite ?app_nil_r.
  - by rewrite app_nil_r.
Qed.

Lemma turn_after_settled userId sid e' st entry :
  userId ≠ entry.1 →
  turn (stopWatchingSettled userId sid e' st) entry =
  (stopWatchingSettled userId sid e' (turn st entry).1, (turn st entry).2).
Proof.
  intros Hne. unfold turn, disconnectTurn, disconnectEntryBegin. simpl. case_decide.
  - rewrite <- stopWatchingSettled_with_userSubscriptions.
    rewrite stopWatchingCall_after_settled by done.
    destruct (stopWatchingCall entry.1 e _) as [st2 [sid'|]]; cbn [fst snd];
      by rewrite stopWatchingSettled_with_userSubscriptions.
  - cbn [fst snd]. by rewrite stopWatchingSettled_with_userSubscriptions.
Qed.

Lemma turn_settled st entry :
  foldl resume (turn st entry).1 (turn st entry).2 =
  disconnectEntry clientId e st entry.
Proof.
  unfold turn, disconnectTurn, disconnectEntryBegin, disconnectEntry. simpl.
  case_decide; [|done]. rewrite stopWatching_halves.
  destruct (stopWatchingCall entry.1 e _) as [st2 [sid|]]; [|done].
  simpl. by rewrite stopWatchingSettled_with_userSubscriptions.
Qed.

Lemma turn_after_strangers pending st entry :
  strangers [entry.1] pending →
  turn (foldl resume st pending) entry =
  (foldl resume (turn st entry).1 pending, (turn st entry).2).
Proof.
  revert st. induction pending as [|waiting pending IH]; intros st Hstr.
  { simpl. by destruct (turn st entry). }
  apply Forall_cons in Hstr as [(u & sid & e' & -> & Hu) Hstr].
  cbn [foldl resume]. rewrite IH by done.
  rewrite turn_after_settled; [done|].
  intros ->. apply Hu. by left.
Qed.

Lemma disconnect_loop_settled entries st pending :
  NoDup entries.*1 → strangers entries.*1 pending →
  settleAll (foldl (disconnectEntryBegin clientId e) (st, pending) entries) =
  foldl (disconnectEntry clientId e) (foldl resume st pending) entries.
Proof.
  revert st pending.
  induction entries as [|entry entries IH]; intros st pending Hnd Hstr; [done|].
  rewrite fmap_cons in Hnd, Hstr. apply NoDup_cons in Hnd as [Hfresh Hnd].
  cbn [foldl]. rewrite disconnectEntryBegin_pending.
  assert (Hhere : strangers [entry.1] pending).
  { eapply Forall_impl; [exact Hstr|]. intros waiting (u & sid & e' & -> & Hu).
    exists u, sid, e'. split; [done|]. intros Hin. apply Hu.
    apply list_elem_of_singleton in Hin as ->. by left. }
  rewrite IH; [|done|].
  - f_equal. rewrite foldl_app.
    rewrite <- turn_settled. by rewrite (turn_after_strangers pending st entry).
  - apply Forall_app. split.
    + eapply Forall_impl; [exact Hstr|]. intros waiting (u & sid & e' & -> & Hu).
      exists u, sid, e'. split; [done|]. intros Hin. apply Hu. by right.
    + unfold turn, disconnectTurn, disconnectEntryBegin. simpl. case_decide; [|constructor].
      destruct (stopWatchingCall entry.1 e _) as [st2 [sid|]]; simpl;
        [|constructor].
      apply Forall_singleton. by exists entry.1, sid, e.
Qed.

Lemma disconnect_loop_pending entries p :
  strangers [] p.2 →
  strangers [] (foldl (disconnectEntryBegin clientId e) p entries).2.
Proof.
  revert p. induction entries as [|entry entries IH]; intros p Hp; [done|].
  cbn [foldl]. apply IH. destruct p as [st0 pending0].
  rewrite disconnectEntryBegin_pending. cbn [fst snd]. apply Forall_app.
  split; [done|]. unfold turn, disconnectTurn, disconnectEntryBegin. simpl.
  case_decide; [|constructor].
  destruct (stopWatchingCall entry.1 e _) as [st2 [sid|]]; simpl; [|constructor].
  apply Forall_singleton. exists entry.1, sid, e. split; [done|].
  apply not_elem_of_nil.
Qed.

Lemma strangers_with_clients f pending st :
  strangers [] pending →
  foldl resume (with_clients f st) pending = with_clients f (foldl resume st pending).
Proof.
  revert st. induction pending as [|waiting pending IH]; intros st Hstr; [done|].
  apply Forall_cons in Hstr as [(u & sid & e' & -> & _) Hstr].
  cbn [foldl resume]. rewrite <- IH by done. f_equal.
  unfold stopWatchingSettled. by destruct (closeOk e' sid).
Qed.

Lemma disconnect_settled_at_once st :
  settleAll (disconnectBegin clientId e st) = handleClientDisconnect clientId e st.
Proof.
  unfold disconnectBegin, handleClientDisconnect.
  set (entries := map_to_list (userSubscriptions st)).
  pose proof (disconnect_loop_settled entries st []
                (NoDup_fst_map_to_list _) (Forall_nil_2 _)) as Hloop.
  cbn [foldl] in Hloop. rewrite <- Hloop.
  unfold settleAll. cbn [fst snd].
  apply strangers_with_clients, disconnect_loop_pending. constructor.
Qed.
End DisconnectSettled.

(** Settling every close an event started before anything else happens
    is handling the event in one piece. *)
Lemma settled_at_once ev st :
  Interleaving.settleAll (Interleaving.begin ev st) = step st ev.
Proof.
  destruct ev as [| clientId [| |rendered|type userId] e | | | | | | | | |];
    try done.
  - unfold Interleaving.begin. simpl. unfold handleMessage.
    case_decide; [apply subscription_settled_at_once|].
    case_decide; [apply unsubscription_settled_at_once|].
    case_decide; [apply getUserData_settled_at_once|done].
  - apply disconnect_settled_at_once.
  - apply disconnect_settled_at_once.
Qed.

(** ** Empty subscriber sets under interleaving *)

Section EmptiesAwaited.
Import Interleaving.

Lemma size_zero_empty (s : gset string) : size s = 0 → s = ∅.
Proof. intros Hsz. apply leibniz_equiv. by apply size_empty_inv. Qed.

Lemma stopWatchingCall_userSubscriptions userId e st :
  userSubscriptions (stopWatchingCall userId e st).1 = userSubscriptions st.
Proof.
  unfold stopWatchingCall.
  by destruct (changeStreams (mongoManager st) !! userId).
Qed.

Lemma stopWatchingSettled_userSubscriptions userId sid e st :
  userSubscriptions (stopWatchingSettled userId sid e st) = userSubscriptions st.
Proof. unfold stopWatchingSettled. by destruct (closeOk e sid). Qed.

Lemma subscriptionRest_userSubscriptions clientId userId e st :
  userSubscriptions (subscriptionRest clientId userId e st) = userSubscriptions st.
Proof.
  unfold subscriptionRest, sendError.
  by destruct (_ && _); rewrite sendMessage_userSubscriptions.
Qed.

Lemma getUserDataRest_sameCore clientId userId e st :
  sameCore st (getUserDataRest clientId userId e st).
Proof.
  unfold getUserDataRest, sendError.
  repeat case_match; apply sendMessage_sameCore.
Qed.

Lemma subscriptionBegin_userSubscriptions clientId userId e st :
  userSubscriptions (subscriptionBegin clientId userId e st).1 =
  addSubscriber clientId userId (userSubscriptions st).
Proof.
  unfold subscriptionBegin, sendError.
  set (st1 := with_userSubscriptions (addSubscriber clientId userId) st).
  pose proof (stopWatchingCall_userSubscriptions userId e st1) as Hcall.
  destruct (_ || _); [apply sendMessage_userSubscriptions|].
  destruct (negb _); [apply sendMessage_userSubscriptions|].
  destruct (stopWatchingCall userId e st1) as [st2 [sid|]]; cbn [fst] in *;
    by rewrite ?subscriptionRest_userSubscriptions, Hcall.
Qed.

Lemma resume_userSubscriptions st waiting :
  userSubscriptions (resume st waiting) =
  match waiting with
  | InUnsubscription _ userId _ _ => delete userId (userSubscriptions st)
  | _ => userSubscriptions st
  end.
Proof.
  destruct waiting; simpl.
  - by rewrite subscriptionRest_userSubscriptions,
      stopWatchingSettled_userSubscriptions.
  - unfold unsubscriptionRest. rewrite sendMessage_userSubscriptions. simpl.
    by rewrite stopWatchingSettled_userSubscriptions.
  - by rewrite stopWatchingSettled_userSubscriptions.
  - apply getUserDataRest_sameCore.
Qed.

Lemma strangers_userSubscriptions pending st :
  strangers [] pending →
  userSubscriptions (foldl resume st pending) = userSubscriptions st.
Proof.
  revert st. induction pending as [|waiting pending IH]; intros st Hstr; [done|].
  apply Forall_cons in Hstr as [(u & sid & e' & -> & _) Hstr].
  cbn [foldl]. rewrite IH by done. by rewrite resume_userSubscriptions.
Qed.

Lemma disconnectBegin_userSubscriptions clientId e st :
  userSubscriptions (disconnectBegin clientId e st).1 =
  userSubscriptions (handleClientDisconnect clientId e st).
Proof.
  rewrite <- disconnect_settled_at_once. unfold settleAll.
  rewrite strangers_userSubscriptions; [done|].
  unfold disconnectBegin. cbn [snd].
  apply disconnect_loop_pending. constructor.
Qed.

Lemma other_events_userSubscriptions ev st :
  match ev with
  | MessageFrom _ (Parsed type _) _ =>
      type ≠ "subscribe_user" ∧ type ≠ "unsubscribe_user"
  | SocketClose _ _ | SocketError _ _ => False
  | _ => True
  end →
  userSubscriptions (step st ev) = userSubscriptions st.
Proof.
  destruct ev as [| c [| |rendered|type u] e | | | | | | | | |]; simpl;
    intros Hev; try done.
  - apply onConnection_sameCore.
  - apply sendMessage_sameCore.
  - apply sendMessage_sameCore.
  - destruct Hev as [Hs Hu]. unfold handleMessage.
    rewrite !decide_False by done.
    case_decide; [apply handleGetUserData_sameCore|apply sendMessage_sameCore].
  - apply onChange_sameCore.
  - apply disconnect_userSubscriptions.
  - apply broadcastToAll_sameCore.
Qed.

Lemma emptiesAwaited_more st pending more :
  emptiesAwaited (st, pending) → emptiesAwaited (st, pending ++ more).
Proof.
  intros Hp u Hu. destruct (Hp u Hu) as (c & sid & e & Hin).
  exists c, sid, e. apply elem_of_app. by left.
Qed.

Lemma emptiesAwaited_same st st' pending :
  userSubscriptions st' = userSubscriptions st →
  emptiesAwaited (st, pending) → emptiesAwaited (st', pending).
Proof. intros Hsubs Hp u. simpl. rewrite Hsubs. apply Hp. Qed.

Lemma begin_emptiesAwaited ev st pending :
  emptiesAwaited (st, pending) →
  emptiesAwaited ((begin ev st).1, pending ++ (begin ev st).2).
Proof.
  intros Hp.
  assert (Hother : userSubscriptions (step st ev) = userSubscriptions st →
                   emptiesAwaited (step st ev, pending ++ [])).
  { intros Hsubs. apply emptiesAwaited_more. by eapply emptiesAwaited_same. }
  destruct ev as [| c [| |rendered|type u] e | c e | c e | | | | | | |];
    try (apply Hother; by apply other_events_userSubscriptions).
  - (* a parsed message *)
    unfold begin. case_decide as Hs; [|case_decide as Hu; [|case_decide as Hg]].
    + (* subscribe: the entry holds the client *)
      intros u'. cbn [fst snd].
      rewrite subscriptionBegin_userSubscriptions, addSubscriber_insert,
        lookup_insert.
      case_decide.
      * intros [= Hempty]. by apply with_subscriber_nonempty in Hempty.
      * intros Hu'. destruct (Hp u' Hu') as (c' & sid & e' & Hin).
        exists c', sid, e'. apply elem_of_app. by left.
    + (* unsubscribe *)
      unfold unsubscriptionBegin.
      destruct (userSubscriptions st !! u) as [s|] eqn:Hsu.
      * case_decide as Hsz.
        -- pose proof (stopWatchingCall_userSubscriptions u e
                         (with_userSubscriptions <[u := s ∖ {[c]}]> st)) as Hcall.
           destruct (stopWatchingCall u e _) as [st2 [sid|]]; cbn [fst snd] in *.
           ++ intros u'. cbn [fst snd]. rewrite Hcall. simpl.
              rewrite lookup_insert.
              case_decide as Hd.
              ** subst u'. intros _. exists c, sid, e.
                 apply elem_of_app. right. by left.
              ** intros Hu'. destruct (Hp u' Hu') as (c' & sid' & e' & Hin).
                 exists c', sid', e'. apply elem_of_app. by left.
           ++ intros u'. cbn [fst snd]. unfold unsubscriptionRest.
              rewrite sendMessage_userSubscriptions. simpl. rewrite Hcall. simpl.
              rewrite delete_insert_eq, lookup_delete_Some. intros [_ Hu'].
              destruct (Hp u' Hu') as (c' & sid' & e' & Hin).
              exists c', sid', e'. apply elem_of_app. by left.
        -- intros u'. cbn [fst snd]. rewrite sendMessage_userSubscriptions.
           simpl. rewrite lookup_insert. case_decide.
           ++ intros [= Hempty]. rewrite Hempty, size_empty in Hsz. done.
           ++ intros Hu'. destruct (Hp u' Hu') as (c' & sid' & e' & Hin).
              exists c', sid', e'. apply elem_of_app. by left.
      * apply emptiesAwaited_more.
        eapply emptiesAwaited_same; [|done]. apply sendMessage_userSubscriptions.
    + (* fetch-once: the index is not touched *)
      unfold getUserDataBegin. destruct (_ || _); cbn [fst snd].
      * apply emptiesAwaited_more.
        eapply emptiesAwaited_same; [|done]. apply sendMessage_userSubscriptions.
      * by apply emptiesAwaited_more.
    + apply Hother. apply other_events_userSubscriptions. by split.
  - (* disconnect: no empty set is left *)
    intros u'. unfold begin. cbn [fst snd].
    rewrite disconnectBegin_userSubscriptions,
      handleClientDisconnect_userSubscriptions.
    destruct (userSubscriptions st !! u') as [s|]; [|done].
    case_decide as Hsz; [done|]. intros [= Hempty].
    rewrite Hempty, size_empty in Hsz. done.
  - intros u'. unfold begin. cbn [fst snd].
    rewrite disconnectBegin_userSubscriptions,
      handleClientDisconnect_userSubscriptions.
    destruct (userSubscriptions st !! u') as [s|]; [|done].
    case_decide as Hsz; [done|]. intros [= Hempty].
    rewrite Hempty, size_empty in Hsz. done.
Qed.

Lemma elem_of_delete_other {A} (l : list A) i x y :
  l !! i = Some y → x ∈ l → x ≠ y → x ∈ delete i l.
Proof.
  revert i. induction l as [|a l IH]; intros i Hi Hx Hne.
  { by apply elem_of_nil in Hx. }
  destruct i as [|i]; simpl in *.
  - injection Hi as ->. apply elem_of_cons in Hx as [->|Hx]; done.
  - apply elem_of_cons in Hx as [->|Hx]; [by left|]. right. by eapply IH.
Qed.

Lemma move_emptiesAwaited p m : emptiesAwaited p → emptiesAwaited (move p m).
Proof.
  intros Hp. destruct p as [st pending]. destruct m as [ev|i]; simpl.
  - by apply begin_emptiesAwaited.
  - destruct (pending !! i) as [waiting|] eqn:Hi; [|done].
    intros u. cbn [fst snd]. rewrite resume_userSubscriptions. intros Hu.
    assert (Hbefore : userSubscriptions st !! u = Some ∅ ∧
                      ∀ c sid e, waiting ≠ InUnsubscription c u sid e).
    { destruct waiting; try (split; [done|by intros]).
      apply lookup_delete_Some in Hu as [Hne Hu].
      split; [done|]. intros c' sid' e' [= _ Heq _ _]. by apply Hne. }
    destruct Hbefore as [Hu' Hne].
    destruct (Hp u Hu') as (c' & sid' & e' & Hin).
    exists c', sid', e'. eapply elem_of_delete_other; [exact Hi|exact Hin|].
    intros Heq. by apply (Hne c' sid' e').
Qed.

Lemma play_emptiesAwaited moves mongoConfig :
  emptiesAwaited (play moves (init mongoConfig)).
Proof.
  unfold play.
  assert (Hgen : ∀ p, emptiesAwaited p → emptiesAwaited (foldl move p moves)).
  { induction moves as [|m moves IH]; intros p Hp; [done|].
    cbn [foldl]. by apply IH, move_emptiesAwaited. }
  apply Hgen. by intros u.
Qed.

(** X9.  However the handlers interleave around their
    [await changeStream.close()], once none of them is suspended no empty
    set is left in the subscription map. *)
Lemma settled_entries_nonempty moves mongoConfig :
  (play moves (init mongoConfig)).2 = [] →
  entriesNonEmpty (play moves (init mongoConfig)).1.
Proof.
  intros Hnone userId userSubs Hentry ->.
  destruct (play_emptiesAwaited moves mongoConfig userId Hentry)
    as (c & sid & e & Hin).
  rewrite Hnone in Hin. by apply elem_of_nil in Hin.
Qed.
End EmptiesAwaited.

(** ** The subscription index under interleaving *)

Lemma subscribers_member_insert st clientId userId :
  clientId ∈ subscribers st userId →
  <[userId := subscribers st userId ∪ {[clientId]}]> (userSubscriptions st) =
  userSubscriptions st.
Proof.
  intros Hin. apply insert_id. unfold subscribers in *.
  destruct (userSubscriptions st !! userId) as [s|]; simpl in *;
    [|by apply not_elem_of_empty in Hin].
  f_equal. apply leibniz_equiv, set_equiv. intros x.
  rewrite elem_of_union, elem_of_singleton. split; [by left|].
  by intros [?| ->].
Qed.

Lemma unsubscriptionBegin_emptied clientId userId e st :
  subscribers st userId ∖ {[clientId]} = ∅ →
  (changeStreams (mongoManager st) !! userId = None →
   userSubscriptions (Interleaving.unsubscriptionBegin clientId userId e st).1
     !! userId = None ∧
   (Interleaving.unsubscriptionBegin clientId userId e st).2 = []) ∧
  (∀ sid, changeStreams (mongoManager st) !! userId = Some sid →
          is_Some (userSubscriptions st !! userId) →
          userSubscriptions (Interleaving.unsubscriptionBegin clientId userId e st).1
            !! userId = Some ∅ ∧
          (Interleaving.unsubscriptionBegin clientId userId e st).2 =
            [Interleaving.InUnsubscription clientId userId sid e]).
Proof.
  intros Hlast. unfold Interleaving.unsubscriptionBegin, subscribers in *.
  destruct (userSubscriptions st !! userId) as [s|] eqn:Hs; simpl in Hlast.
  - rewrite Hlast, size_empty, decide_True by done.
    unfold Interleaving.stopWatchingCall. simpl. split.
    + intros ->. cbn [fst snd]. unfold Interleaving.unsubscriptionRest.
      rewrite sendMessage_userSubscriptions. simpl.
      by rewrite lookup_delete_eq.
    + intros sid -> _. cbn [fst snd]. simpl. by rewrite lookup_insert_eq.
  - split.
    + intros _. cbn [fst snd]. by rewrite sendMessage_userSubscriptions.
    + by intros sid _ [? ?].
Qed.

(** C5, as the code has it.  In every state the broker reaches from its
    construction, however the handlers interleave and whatever the outside
    world answers: a set stored in the subscription map is empty only
    while an unsubscribe for its owner is suspended at
    [await stopWatching]; so for an owner with no unsubscribe suspended,
    in particular whenever nothing is pending, the map has an entry
    exactly when the subscriber set is not empty.  A subscribe leaves an
    entry that holds the subscriber.  A disconnect that takes the last
    subscriber away leaves no entry when it returns.  An unsubscribe that
    takes the last subscriber away has deleted the entry before any other
    event is handled when the owner has no registered stream (what it
    awaits is settled already); when the owner has one, the empty set
    stays in the map, the handler is suspended at the [close()] of that
    stream, and the entry is deleted when the handler goes on. *)
Theorem entry_iff_subscribers
    (mongoConfig : CloudStorageConfig) (moves : list Interleaving.Move) :
  let reached := Interleaving.play moves (init mongoConfig) in
  let st := reached.1 in
  (∀ userId,
     userSubscriptions st !! userId = Some ∅ →
     ∃ clientId sid e,
       Interleaving.InUnsubscription clientId userId sid e ∈ reached.2) ∧
  (∀ userId,
     (∀ clientId sid e,
        Interleaving.InUnsubscription clientId userId sid e ∉ reached.2) →
     (is_Some (userSubscriptions st !! userId) ↔ subscribers st userId ≠ ∅)) ∧
  (∀ clientId userId e,
     userSubscriptions (Interleaving.begin (subscribe clientId userId e) st).1
       !! userId = Some (subscribers st userId ∪ {[clientId]})) ∧
  (∀ clientId userId e,
     subscribers st userId ∖ {[clientId]} = ∅ →
     userSubscriptions (Interleaving.begin (SocketClose clientId e) st).1
       !! userId = None ∧
     userSubscriptions (Interleaving.begin (SocketError clientId e) st).1
       !! userId = None) ∧
  (∀ clientId userId e,
     subscribers st userId ∖ {[clientId]} = ∅ →
     let handled := Interleaving.begin (unsubscribe clientId userId e) st in
     (changeStreams (mongoManager st) !! userId = None →
      userSubscriptions handled.1 !! userId = None ∧ handled.2 = []) ∧
     (∀ sid,
        changeStreams (mongoManager st) !! userId = Some sid →
        is_Some (userSubscriptions st !! userId) →
        userSubscriptions handled.1 !! userId = Some ∅ ∧
        handled.2 = [Interleaving.InUnsubscription clientId userId sid e]) ∧
     (∀ sid st2,
        userSubscriptions
          (Interleaving.resume st2
             (Interleaving.InUnsubscription clientId userId sid e))
          !! userId = None)).
Proof.
  intros reached st.
  assert (Hawait : Interleaving.emptiesAwaited reached)
    by apply play_emptiesAwaited.
  split_and!.
  - exact Hawait.
  - intros userId Hnone. split; [|apply subscribers_nonempty_entry].
    intros [s Hs]. unfold subscribers. fold st in Hs. rewrite Hs. simpl.
    intros ->. destruct (Hawait userId Hs) as (c & sid & e & Hin).
    by apply (Hnone c sid e).
  - intros clientId userId e.
    change (Interleaving.begin (subscribe clientId userId e) st)
      with (Interleaving.subscriptionBegin clientId userId e st).
    by rewrite subscriptionBegin_userSubscriptions, addSubscriber_insert,
      lookup_insert_eq.
  - intros clientId userId e Hlast.
    change (Interleaving.begin (SocketClose clientId e) st)
      with (Interleaving.disconnectBegin clientId e st).
    change (Interleaving.begin (SocketError clientId e) st)
      with (Interleaving.disconnectBegin clientId e st).
    rewrite disconnectBegin_userSubscriptions,
      handleClientDisconnect_userSubscriptions.
    split; by apply emptied_entry.
  - intros clientId userId e Hlast.
    change (Interleaving.begin (unsubscribe clientId userId e) st)
      with (Interleaving.unsubscriptionBegin clientId userId e st).
    destruct (unsubscriptionBegin_emptied clientId userId e st Hlast) as [H0 H1].
    split_and!; [done|done|].
    intros sid st2. rewrite resume_userSubscriptions. apply lookup_delete_eq.
Qed.

(** ** Schedules in which no two handlers overlap *)

Section OneAtATime.
Import Interleaving.


Lemma detached_closes_commute st w1 w2 :
  strangers [] [w1; w2] →
  resume (resume st w1) w2 = resume (resume st w2) w1.
Proof.
  intros Hstr. apply Forall_cons in Hstr as [(u1 & s1 & e1 & -> & _) Hstr].
  apply Forall_cons in Hstr as [(u2 & s2 & e2 & -> & _) _].
  simpl. unfold stopWatchingSettled.
  destruct (closeOk e1 s1), (closeOk e2 s2); try done.
  destruct st as [cl us [c co ic cf cs] sts w].
  unfold with_mongoManager, with_changeStreams. simpl.
  by rewrite (delete_delete cs u2 u1).
Qed.

Lemma settle_in_any_order pending i waiting st :
  strangers [] pending → pending !! i = Some waiting →
  foldl resume (resume st waiting) (delete i pending) = foldl resume st pending.
Proof.
  revert i st. induction pending as [|a l IH]; intros i st Hstr Hi; [done|].
  apply Forall_cons in Hstr as [Ha Hl].
  destruct i as [|i]; simpl in *; [by injection Hi as ->|].
  rewrite <- (IH i (resume st a)) by done. f_equal.
  apply detached_closes_commute. apply Forall_cons. split.
  - eapply Forall_lookup_1 in Hl; [|exact Hi]. done.
  - by apply Forall_singleton.
Qed.

Lemma begin_ofOneEvent ev st : ofOneEvent (begin ev st).2.
Proof.
  assert (Hnone : ofOneEvent []) by (left; simpl; lia).
  destruct ev as [| c [| |rendered|type u] e | c e | c e | | | | | | |];
    try exact Hnone.
  - unfold begin. repeat case_decide; [| | |exact Hnone].
    + unfold subscriptionBegin. repeat case_match; left; simpl; lia.
    + unfold unsubscriptionBegin. repeat case_match; left; simpl; lia.
    + unfold getUserDataBegin. repeat case_match; left; simpl; lia.
  - right. apply disconnect_loop_pending. constructor.
  - right. apply disconnect_loop_pending. constructor.
Qed.

Lemma ofOneEvent_delete pending i : ofOneEvent pending → ofOneEvent (delete i pending).
Proof.
  intros [Hlen|Hstr].
  - left. pose proof (sublist_length _ _ (sublist_delete pending i)). lia.
  - right. unfold strangers in *. rewrite Forall_forall in Hstr |- *.
    intros w Hw. by apply Hstr, (list_elem_of_delete_inv w i).
Qed.

Lemma settleAll_settle st pending i waiting :
  ofOneEvent pending → pending !! i = Some waiting →
  settleAll (resume st waiting, delete i pending) = settleAll (st, pending).
Proof.
  intros [Hlen|Hstr] Hi; unfold settleAll; cbn [fst snd].
  - destruct pending as [|a [|b l]]; simpl in *; [done| |lia].
    destruct i; simpl in *; by simplify_eq.
  - by apply settle_in_any_order.
Qed.

Lemma oneAtATime_settled moves p :
  ofOneEvent p.2 → oneAtATime moves p = true →
  settleAll (foldl move p moves) = run (events moves) (settleAll p) ∧
  ofOneEvent (foldl move p moves).2.
Proof.
  revert p. induction moves as [|m moves IH]; intros [st pending] Hone Hturn;
    [done|].
  cbn [foldl]. destruct m as [ev|i].
  - cbn [oneAtATime fst snd] in Hturn.
    destruct pending as [|w pending]; [|done].
    destruct (IH (move (st, []) (Arrive ev))) as [Hs Ho].
    + apply begin_ofOneEvent.
    + done.
    + split; [|done]. rewrite Hs. unfold move. cbn [fst snd app].
      destruct (begin ev st) as [st1 pending1] eqn:Hb. cbn [fst snd].
      rewrite <- Hb, settled_at_once. done.
  - cbn [oneAtATime] in Hturn.
    assert (Hturn' : oneAtATime moves (move (st, pending) (Settle i)) = true).
    { by destruct pending. }
    unfold move in *. cbn [fst snd] in *.
    destruct (pending !! i) as [waiting|] eqn:Hi.
    + destruct (IH (resume st waiting, delete i pending)) as [Hs Ho].
      * by apply ofOneEvent_delete.
      * done.
      * split; [|done]. rewrite Hs. cbn [events omap].
        change (omap _ moves) with (events moves).
        by rewrite (settleAll_settle st pending i waiting).
    + by apply IH.
Qed.

(** In a schedule in which no two handlers overlap, a state in which
    nothing is pending is the state reached by handling the events one
    after the other, each in one piece. *)
Lemma oneAtATime_run moves st :
  oneAtATime moves (st, []) = true →
  (play moves st).2 = [] →
  (play moves st).1 = run (events moves) st.
Proof.
  intros Hturn Hnone.
  destruct (oneAtATime_settled moves (st, [])) as [Hs _]; [left; simpl; lia|done|].
  change (settleAll (st, [])) with st in Hs.
  unfold play in *. rewrite <- Hs. unfold settleAll. by rewrite Hnone.
Qed.

End OneAtATime.

(** ** The registry of streams under interleaving *)

Section RegistryInHeap.
Import Interleaving.













End RegistryInHeap.

(** ** What [handleClientDisconnect] leaves when it returns *)

Section DisconnectReturns.
Import Interleaving.
Context (clientId : string) (e : Env).



(** The loop calls [close()] and does not wait: the table of streams is
    as it was when the handler returns, and the closes it started are
    the ones on the streams registered for the owners it emptied. *)
Lemma disconnect_loop_begin entries p :
  mongoManager (foldl (disconnectEntryBegin clientId e) p entries).1 =
    mongoManager p.1 ∧
  (foldl (disconnectEntryBegin clientId e) p entries).2 =
    p.2 ++ omap (λ entry : string * gset string,
                   if decide (size (entry.2 ∖ {[clientId]}) = 0)
                   then sid ← changeStreams (mongoManager p.1) !! entry.1;
                        Some (InDisconnect entry.1 sid e)
                   else None) entries.
Proof.
  revert p. induction entries as [|entry entries IH]; intros [st pending].
  { simpl. by rewrite app_nil_r. }
  cbn [foldl]. destruct (IH (disconnectEntryBegin clientId e (st, pending) entry))
    as [Hm Hp].
  assert (Hturn : mongoManager (disconnectEntryBegin clientId e (st, pending) entry).1
                  = mongoManager st ∧
                  (disconnectEntryBegin clientId e (st, pending) entry).2 =
                  pending ++
                  match (if decide (size (entry.2 ∖ {[clientId]}) = 0)
                         then sid ← changeStreams (mongoManager st) !! entry.1;
                              Some (InDisconnect entry.1 sid e)
                         else None) with
                  | Some waiting => [waiting]
                  | None => []
                  end).
  { unfold disconnectEntryBegin, stopWatchingCall. cbn [fst snd].
    case_decide; [|by rewrite app_nil_r]. simpl.
    destruct (changeStreams (mongoManager st) !! entry.1); simpl;
      by rewrite ?app_nil_r. }
  destruct Hturn as [Hm1 Hp1]. rewrite Hm, Hp, Hm1, Hp1. cbn [fst snd].
  split; [done|]. rewrite <- app_assoc. f_equal. cbn [omap list_omap].
  by destruct (if decide _ then _ else _).
Qed.

Lemma disconnectBegin_store st :
  mongoManager (disconnectBegin clientId e st).1 = mongoManager st.
Proof.
  unfold disconnectBegin. cbn [fst]. simpl.
  apply (disconnect_loop_begin _ (st, [])).
Qed.

Lemma disconnectBegin_pending st waiting :
  waiting ∈ (disconnectBegin clientId e st).2 ↔
  ∃ userId sid userSubs,
    waiting = InDisconnect userId sid e ∧
    userSubscriptions st !! userId = Some userSubs ∧
    userSubs ∖ {[clientId]} = ∅ ∧
    changeStreams (mongoManager st) !! userId = Some sid.
Proof.
  unfold disconnectBegin. cbn [snd].
  rewrite (proj2 (disconnect_loop_begin _ (st, []))). cbn [fst snd app].
  rewrite list_elem_of_omap. split.
  - intros ([u s] & Hin & Hw). apply elem_of_map_to_list in Hin.
    cbn [fst snd] in Hw. case_decide as Hsz; [|done].
    destruct (changeStreams (mongoManager st) !! u) as [sid|] eqn:Hsid; [|done].
    injection Hw as <-. exists u, sid, s. split_and!; try done.
    by apply size_zero_empty.
  - intros (u & sid & s & -> & Hs & Hempty & Hsid). exists (u, s). split.
    + by apply elem_of_map_to_list.
    + cbn [fst snd]. rewrite Hempty, size_empty, decide_True by done.
      by rewrite Hsid.
Qed.



End DisconnectReturns.



(** ** What a suspended handler does when it goes on *)

Lemma stopWatchingSettled_frame userId sid e st :
  clients (Interleaving.stopWatchingSettled userId sid e st) = clients st ∧
  streams (Interleaving.stopWatchingSettled userId sid e st) = streams st ∧
  wire (Interleaving.stopWatchingSettled userId sid e st) = wire st.
Proof. unfold Interleaving.stopWatchingSettled. by destruct (closeOk e sid). Qed.


Lemma subscriptionRest_wire clientId userId e st :
  wire (Interleaving.subscriptionRest clientId userId e st) =
  wire st ++
  (if isOpen st clientId
   then [(clientId,
          if collection (mongoManager st) && watchOk e
          then subscriptionConfirmed userId (now e)
          else errorMessage "Failed to subscribe to user data" (now e))]
   else []).
Proof.
  unfold Interleaving.subscriptionRest, sendError.
  destruct (_ && _); by rewrite sendMessage_wire.
Qed.


Lemma subscriptionRest_failed clientId userId e st :
  collection (mongoManager st) && watchOk e = false →
  mongoManager (Interleaving.subscriptionRest clientId userId e st) =
  mongoManager st.
Proof.
  intros Hfail. unfold Interleaving.subscriptionRest, sendError.
  rewrite Hfail. apply sendMessage_mongoManager.
Qed.

(** C3, as the code has it.  A subscribe for a pair (connection, owner)
    that is already in the index leaves the subscription map exactly as it
    was, in any state and whatever the store answers, whether the handler
    runs in one piece or is suspended at its await and goes on later (no
    second insertion).  The watch is not left alone: with the store
    connected and change streams on, [close()] is called on the
    registered stream and the handler waits for it; with that close
    resolving, nothing else happening before it settles, and the watch
    opening, the stream has stopped and a new stream, at a fresh address,
    is registered in its place.  The connection is sent a second
    confirmation. *)
Theorem resubscribe_keeps_index_restarts_watch
    (st : WebSocketManager) (clientId userId : string) (e : Env) :
  clientId ∈ subscribers st userId →
  userSubscriptions (handleUserSubscription clientId userId e st) =
    userSubscriptions st ∧
  userSubscriptions (Interleaving.begin (subscribe clientId userId e) st).1 =
    userSubscriptions st ∧
  (∀ st2 sid,
     userSubscriptions
       (Interleaving.resume st2 (Interleaving.InSubscription clientId userId sid e)) =
     userSubscriptions st2) ∧
  (∀ sid cs,
     changeStreams (mongoManager st) !! userId = Some sid →
     streams st !! sid = Some cs →
     storeReady st →
     (Interleaving.begin (subscribe clientId userId e) st).2 =
       [Interleaving.InSubscription clientId userId sid e] ∧
     (∃ cs', streams (Interleaving.begin (subscribe clientId userId e) st).1 !! sid
               = Some cs' ∧
             cs_closeCalls cs' = S (cs_closeCalls cs)) ∧
     (closeOk e sid = true → watchOk e = true →
      let st' := handleUserSubscription clientId userId e st in
      streams st' !! sid =
        Some (mkChangeStream (cs_userId cs) false (S (cs_closeCalls cs))) ∧
      changeStreams (mongoManager st') !! userId = Some (length (streams st)) ∧
      length (streams st) ≠ sid ∧
      streams st' !! length (streams st) = Some (mkChangeStream userId true 0) ∧
      wire st' = wire st ++
                 (if isOpen st clientId
                  then [(clientId, subscriptionConfirmed userId (now e))]
                  else []))).
Proof.
  intros Hin. split_and!.
  - rewrite handleUserSubscription_userSubscriptions.
    by apply subscribers_member_insert.
  - change (Interleaving.begin (subscribe clientId userId e) st)
      with (Interleaving.subscriptionBegin clientId userId e st).
    rewrite subscriptionBegin_userSubscriptions, addSubscriber_insert.
    by apply subscribers_member_insert.
  - intros st2 sid. by rewrite resume_userSubscriptions.
  - intros sid cs Hsid Hcs Hready.
    assert (Hlt : sid < length (streams st)) by (by eapply lookup_lt_Some).
    set (st1 := with_userSubscriptions (addSubscriber clientId userId) st).
    change (Interleaving.begin (subscribe clientId userId e) st)
      with (Interleaving.subscriptionBegin clientId userId e st).
    assert (Hbegin : Interleaving.subscriptionBegin clientId userId e st =
                     (with_streams (alter (closeStream (closeOk e sid)) sid) st1,
                      [Interleaving.InSubscription clientId userId sid e])).
    { unfold Interleaving.subscriptionBegin. fold st1.
      destruct Hready as (Hc & Hi & Hen). simpl.
      rewrite Hc, Hi, Hen. simpl. unfold Interleaving.stopWatchingCall.
      simpl. by rewrite Hsid. }
    rewrite Hbegin. cbn [fst snd]. split_and!.
    + done.
    + exists (closeStream (closeOk e sid) cs). simpl.
      by rewrite list_lookup_alter_eq, Hcs.
    + intros Hok Hw. set (st' := handleUserSubscription clientId userId e st).
      assert (Hwatch : watchUserData userId e st1 =
                       (opened userId (stopWatching userId e st1), Returned)).
      { by apply watchUserData_ready. }
      destruct (handleUserSubscription_core clientId userId e st)
        as (Hu' & Hm' & Hs').
      fold st1 in Hu', Hm', Hs'. rewrite Hwatch in Hu', Hm', Hs'. simpl in *.
      fold st' in Hu', Hm', Hs'.
      assert (Hlen : length (streams (stopWatching userId e st1)) =
                     length (streams st)).
      { by rewrite stopWatching_length. }
      split_and!.
      * rewrite Hs'. rewrite lookup_app_l by (rewrite Hlen; lia).
        rewrite (stopWatching_closeCalls userId e st1 sid cs) by done.
        unfold closeStream. by rewrite Hok.
      * rewrite Hm'. simpl. by rewrite lookup_insert_eq, Hlen.
      * lia.
      * rewrite Hs'. rewrite lookup_app_r by (rewrite Hlen; lia).
        by rewrite Hlen, Nat.sub_diag.
      * unfold st'. rewrite handleUserSubscription_wire.
        by rewrite watchUserData_ready.
Qed.

(** C9.  When [watchUserData] throws during a subscribe (the store is not
    connected, or [collection.watch] fails), the requesting connection,
    if its socket is open, is sent a message of type error, 'Failed to
    subscribe to user data', and no confirmation, and it stays in the
    subscriber set of the owner: the insertion, which is the first thing
    the handler does, is not undone.  The owner then has subscribers and,
    when it had no watch before or [collection.watch] was reached and the
    close resolved, no registered watch.  The same holds when the failure
    comes after the handler was suspended at the [close()] of the
    registered stream: when it goes on and [collection.watch] throws, or
    the store has been disconnected in between, the error is sent then,
    the index is not touched, and with the close resolved the owner is
    left without a registered watch. *)
Theorem failed_watch_keeps_subscriber
    (st : WebSocketManager) (clientId userId : string) (e : Env) :
  (watchUserData userId e st).2 = Threw →
  let st' := handleUserSubscription clientId userId e st in
  clientId ∈ subscribers st' userId ∧
  subscribers st' userId = subscribers st userId ∪ {[clientId]} ∧
  wire st' = wire st ++
             (if isOpen st clientId
              then [(clientId,
                     mkMessage "error" None None None
                       (Some "Failed to subscribe to user data") (Some (now e)))]
              else []) ∧
  (¬ watching st userId ∨ (storeReady st ∧ ∀ sid, closeOk e sid = true) →
   ¬ watching st' userId) ∧
  subscribers (Interleaving.begin (subscribe clientId userId e) st).1 userId =
    subscribers st userId ∪ {[clientId]} ∧
  (∀ st2 sid,
     collection (mongoManager st2) && watchOk e = false →
     let st3 := Interleaving.resume st2
                  (Interleaving.InSubscription clientId userId sid e) in
     userSubscriptions st3 = userSubscriptions st2 ∧
     wire st3 = wire st2 ++
                (if isOpen st2 clientId
                 then [(clientId,
                        mkMessage "error" None None None
                          (Some "Failed to subscribe to user data")
                          (Some (now e)))]
                 else []) ∧
     (closeOk e sid = true → ¬ watching st3 userId)).
Proof.
  intros Hthrew st'.
  assert (Hsubs : subscribers st' userId = subscribers st userId ∪ {[clientId]}).
  { unfold subscribers at 1, st'.
    by rewrite handleUserSubscription_userSubscriptions, lookup_insert_eq. }
  split_and!.
  - rewrite Hsubs. apply elem_of_union_r. by apply elem_of_singleton.
  - done.
  - unfold st'. by rewrite handleUserSubscription_wire, Hthrew.
  - set (st1 := with_userSubscriptions (addSubscriber clientId userId) st).
    destruct (handleUserSubscription_core clientId userId e st) as (_ & Hm' & _).
    fold st1 st' in Hm'. unfold watching. rewrite Hm'.
    assert (Hthrew1 : (watchUserData userId e st1).2 = Threw).
    { unfold st1. by rewrite watchUserData_completion_subscribed. }
    rewrite watchUserData_cases in Hthrew1 |- *.
    repeat case_match; simpl in *; try done.
    + intros [Hnot|[_ Hok]].
      * intros [sid Hsid]. apply stopWatching_lookup_Some in Hsid.
        apply Hnot. by exists sid.
      * rewrite stopWatching_unregisters by done. by intros [? ?].
    + intros [Hnot|[(Hc & Hi & _) _]]; [done|].
      by rewrite bool_decide_eq_true_2 in *.
  - change (Interleaving.begin (subscribe clientId userId e) st)
      with (Interleaving.subscriptionBegin clientId userId e st).
    unfold subscribers at 1.
    by rewrite subscriptionBegin_userSubscriptions, addSubscriber_insert,
      lookup_insert_eq.
  - intros st2 sid Hfail. cbn [Interleaving.resume].
    destruct (stopWatchingSettled_frame userId sid e st2) as (Hc & _ & Hw).
    split_and!.
    + by rewrite subscriptionRest_userSubscriptions,
        stopWatchingSettled_userSubscriptions.
    + rewrite subscriptionRest_wire, Hw, stopWatchingSettled_collection, Hfail.
      by rewrite (isOpen_same_clients st2 _ clientId Hc).
    + intros Hok. unfold watching.
      rewrite subscriptionRest_failed
        by (by rewrite stopWatchingSettled_collection).
      unfold Interleaving.stopWatchingSettled. rewrite Hok. simpl.
      rewrite lookup_delete_eq. by intros [? ?].
Qed.

(** ** Handlers that do not overlap *)

(** C2, as the code has it.  Take a schedule in which no two handlers
    overlap (every event arrives after each call started by the events
    before it has settled) and no [close()] rejects.  In every state of
    it in which nothing is pending, each owner has at most one running
    change feed; an owner with a running feed is watched and has
    subscribers.  Creation is tied to subscribe requests, not to
    first-subscriber transitions: every subscribe handled to its end, the
    close it awaits settling before anything else happens, while the
    store is connected with change streams on and [collection.watch]
    succeeding, registers a stream created on the spot (any stream
    registered before is closed first), and leaves exactly one running
    feed.  An unsubscribe or a disconnect that empties the subscriber set
    leaves none, once the close it started has settled. *)
Theorem at_most_one_watch_per_owner
    (mongoConfig : CloudStorageConfig) (moves : list Interleaving.Move)
    (userId : string) :
  Forall closesResolve (Interleaving.events moves) →
  Interleaving.oneAtATime moves (init mongoConfig, []) = true →
  (Interleaving.play moves (init mongoConfig)).2 = [] →
  let st := (Interleaving.play moves (init mongoConfig)).1 in
  (activeWatches st userId ≤ 1)%nat ∧
  (activeWatches st userId = 1 →
   watching st userId ∧ subscribers st userId ≠ ∅) ∧
  (∀ clientId e,
     storeReady st → (∀ sid, closeOk e sid = true) → watchOk e = true →
     let st' := Interleaving.settleAll
                  (Interleaving.begin (subscribe clientId userId e) st) in
     changeStreams (mongoManager st') !! userId = Some (length (streams st)) ∧
     length (streams st') = S (length (streams st)) ∧
     activeWatches st' userId = 1) ∧
  (∀ clientId e,
     (∀ sid, closeOk e sid = true) →
     subscribers st userId ∖ {[clientId]} = ∅ →
     activeWatches (Interleaving.settleAll
                      (Interleaving.begin (unsubscribe clientId userId e) st))
                   userId = 0 ∧
     activeWatches (Interleaving.settleAll
                      (Interleaving.begin (SocketClose clientId e) st))
                   userId = 0).
Proof.
  intros Hevs Hturn Hnone st. unfold st. clear st.
  rewrite (oneAtATime_run moves (init mongoConfig) Hturn Hnone).
  set (st := run (Interleaving.events moves) (init mongoConfig)).
  assert (Htidy : tidy st) by (by apply run_tidy; [|apply init_tidy]).
  split_and!.
  - apply activeWatches_at_most_one, Htidy.
  - intros H1. apply tidy_active_subscribed; [done|lia].
  - intros clientId e Hready Hok Hw. rewrite settled_at_once.
    set (st' := step st (subscribe clientId userId e)).
    assert (Htidy' : tidy st').
    { apply step_tidy; [|done]. intros e' [= <-]. apply Hok. }
    unfold st' in *. rewrite handleMessage_subscribe in *.
    set (st1 := with_userSubscriptions (addSubscriber clientId userId) st).
    destruct (handleUserSubscription_core clientId userId e st) as (_ & Hm' & Hs').
    fold st1 in Hm', Hs'.
    rewrite (watchUserData_ready userId e st1) in Hm', Hs' by done.
    simpl in Hm', Hs'.
    assert (Hlen : length (streams (stopWatching userId e st1)) = length (streams st)).
    { by rewrite stopWatching_length. }
    split_and!.
    + rewrite Hm'. simpl. by rewrite lookup_insert_eq, Hlen.
    + rewrite Hs', length_app, Hlen. simpl. lia.
    + apply Nat.le_antisymm; [apply activeWatches_at_most_one, Htidy'|].
      unfold activeWatches. rewrite Hs'.
      apply (filter_inhabited _ _ (mkChangeStream userId true 0)); [|done].
      apply elem_of_app. right. by left.
  - intros clientId e Hok Hlast. rewrite !settled_at_once.
    assert (Hclose : ∀ ev, envOf ev = Some e → closesResolve ev).
    { intros ev Hev e' He'. rewrite Hev in He'. by injection He' as <-. }
    split; apply tidy_unsubscribed_inactive.
    + by apply step_tidy; [apply Hclose|].
    + unfold subscribers. rewrite handleMessage_unsubscribe.
      rewrite handleUserUnsubscription_userSubscriptions.
      by rewrite emptied_entry.
    + by apply step_tidy; [apply Hclose|].
    + change (step st (SocketClose clientId e))
        with (handleClientDisconnect clientId e st).
      by rewrite handleClientDisconnect_subscribers.
Qed.



(** ** With change streams off, under interleaving *)

Section FeatureOffInterleaved.
Import Interleaving.

Lemma stopWatchingCall_off userId e st :
  changeStreams (mongoManager st) = ∅ →
  stopWatchingCall userId e st = (st, None).
Proof. intros Hoff. unfold stopWatchingCall. by rewrite Hoff, lookup_empty. Qed.

Lemma disconnectBegin_off clientId e st :
  changeStreams (mongoManager st) = ∅ → (disconnectBegin clientId e st).2 = [].
Proof.
  intros Hcs.
  destruct (disconnectBegin clientId e st).2 as [|w l] eqn:Hp; [done|].
  assert (Hin : w ∈ (disconnectBegin clientId e st).2) by (rewrite Hp; left).
  apply disconnectBegin_pending in Hin as (u & sid & s & _ & _ & _ & Hsid).
  by rewrite Hcs, lookup_empty in Hsid.
Qed.

Lemma begin_off ev st :
  featureOff st →
  begin ev st = (step st ev, []) ∨
  ∃ clientId userId e, begin ev st = (st, [InGetUserData clientId userId e]).
Proof.
  intros (Hen & Hcs & Hs).
  assert (Hdone : (begin ev st).2 = [] → begin ev st = (step st ev, [])).
  { intros Hnone. pose proof (settled_at_once ev st) as Hsettled.
    unfold settleAll in Hsettled. rewrite Hnone in Hsettled.
    cbn [foldl] in Hsettled.
    destruct (begin ev st) as [st1 pending]. simpl in *. by subst. }
  destruct ev as [c t|c raw e|c e|c e|c rs|sid change t|sid|ok|e|m|];
    try (by left).
  - destruct raw as [| |rendered|type userId]; try (by left).
    destruct (decide (type = "subscribe_user")) as [Hsub|Hsub];
      [|destruct (decide (type = "unsubscribe_user")) as [Hunsub|Hunsub];
        [|destruct (decide (type = "get_user_data")) as [Hget|Hget]]].
    + left. apply Hdone. unfold begin. rewrite decide_True by done.
      unfold subscriptionBegin. simpl. rewrite Hen. simpl.
      by destruct (_ || _).
    + left. apply Hdone. unfold begin.
      rewrite decide_False, decide_True by done.
      unfold unsubscriptionBegin.
      destruct (userSubscriptions st !! userId) as [s|]; [|done].
      case_decide; [|done]. by rewrite stopWatchingCall_off.
    + destruct (negb (collection (mongoManager st))
                || negb (isConnected (mongoManager st))) eqn:Hguard.
      * left. apply Hdone. unfold begin.
        rewrite !decide_False, decide_True by done.
        unfold getUserDataBegin. by rewrite Hguard.
      * right. exists c, userId, e. unfold begin.
        rewrite !decide_False, decide_True by done.
        unfold getUserDataBegin. by rewrite Hguard.
    + left. unfold begin. by rewrite !decide_False.
  - left. apply Hdone. by apply disconnectBegin_off.
  - left. apply Hdone. by apply disconnectBegin_off.
Qed.

Lemma getUserDataRest_wireGrows clientId userId e st :
  wireGrows (wellFormed replyTypes) st (getUserDataRest clientId userId e st).
Proof.
  unfold getUserDataRest, sendError.
  repeat case_match; apply sendMessage_wireGrows;
    first [apply reply_userDataMessage | apply reply_errorMessage].
Qed.

Lemma move_off p m :
  featureOff p.1 → onlyFetches p.2 →
  featureOff (move p m).1 ∧ onlyFetches (move p m).2.
Proof.
  intros Hoff Hfetch. destruct m as [ev|i]; simpl.
  - destruct (begin_off ev p.1 Hoff) as [->|(c & u & e & ->)]; simpl.
    + split; [by apply step_featureOff|by rewrite app_nil_r].
    + split; [done|]. apply Forall_app. split; [done|].
      apply Forall_singleton. by exists c, u, e.
  - destruct (p.2 !! i) as [waiting|] eqn:Hi; [|done]. simpl. split.
    + unfold onlyFetches in Hfetch. rewrite Forall_forall in Hfetch.
      destruct (Hfetch waiting) as (c & u & e & ->);
        [by eapply list_elem_of_lookup_2|].
      simpl. eapply sameCore_featureOff; [apply getUserDataRest_sameCore|done].
    + unfold onlyFetches in *. rewrite Forall_forall in *.
      intros w Hw. apply Hfetch. by eapply list_elem_of_delete_inv.
Qed.

Lemma foldl_move_off moves p :
  featureOff p.1 → onlyFetches p.2 →
  featureOff (foldl move p moves).1 ∧ onlyFetches (foldl move p moves).2.
Proof.
  revert p. induction moves as [|m moves IH]; intros p Hoff Hfetch; [done|].
  cbn [foldl]. destruct (move_off p m Hoff Hfetch). by apply IH.
Qed.

Lemma events_cons m moves :
  events (m :: moves) =
  match m with Arrive ev => ev :: events moves | Settle _ => events moves end.
Proof. by destruct m. Qed.

Lemma foldl_move_wire_origin_off moves p f :
  featureOff p.1 → onlyFetches p.2 →
  f ∈ wire (foldl move p moves).1 →
  f ∈ wire p.1 ∨ f.2 ∈ callerMessages (events moves) ∨ wellFormed replyTypes f.2.
Proof.
  revert p. induction moves as [|m moves IH]; intros p Hoff Hfetch Hf; [by left|].
  cbn [foldl] in Hf. destruct (move_off p m Hoff Hfetch) as [Hoff' Hfetch'].
  rewrite events_cons.
  destruct (IH _ Hoff' Hfetch' Hf) as [Hin|[Hc|Hwf]].
  - destruct m as [ev|i]; simpl in Hin.
    + destruct (begin_off ev p.1 Hoff) as [Hb|(c & u & e & Hb)];
        rewrite Hb in Hin; simpl in Hin; [|by left].
      destruct (step_wireGrows p.1 ev) as (frames & Hw & Hfr).
      rewrite Hw in Hin. apply elem_of_app in Hin as [Hin|Hin]; [by left|].
      right. rewrite Forall_forall in Hfr.
      destruct (emitted_origin_off _ _ _ (proj2 (proj2 Hoff)) (Hfr _ Hin))
        as [->|Hwf]; [|by right].
      left. apply callerMessages_cons. by left.
    + destruct (p.2 !! i) as [waiting|] eqn:Hi; [|by left]. simpl in Hin.
      unfold onlyFetches in Hfetch. rewrite Forall_forall in Hfetch.
      destruct (Hfetch waiting) as (c & u & e & ->);
        [by eapply list_elem_of_lookup_2|].
      destruct (getUserDataRest_wireGrows c u e p.1) as (frames & Hw & Hfr).
      simpl in Hin. rewrite Hw in Hin.
      apply elem_of_app in Hin as [Hin|Hin]; [by left|].
      right. right. rewrite Forall_forall in Hfr. by apply Hfr.
  - right. left. destruct m as [ev|i]; [|done].
    apply callerMessages_cons. by right.
  - by right; right.
Qed.

End FeatureOffInterleaved.

(** C10, as the code has it.  With change streams not enabled in the
    configuration (unset or false), in every state the broker reaches,
    however the handlers interleave: no stream has ever been created or
    registered, no handler awaits a [close()] (the only call a handler
    can be waiting for is the [findOne] of a one-shot fetch), a change
    event has no effect, and the only data_update messages on the wire
    are those a caller passed to [broadcastToAll].  A subscribe is
    handled in one piece.  Handled while the store is connected it adds
    the client to the subscriber set and is answered with a message of
    type subscription_confirmed for the owner; handled while the store is
    not connected it still adds the client, and is answered with a
    message of type error, 'Failed to subscribe to user data'. *)
Theorem change_streams_off
    (mongoConfig : CloudStorageConfig) (moves : list Interleaving.Move) :
  changeStreamsEnabled mongoConfig = false →
  let reached := Interleaving.play moves (init mongoConfig) in
  let st := reached.1 in
  (changeStreams (mongoManager st) = ∅ ∧ streams st = [] ∧
   ∀ userId, activeWatches st userId = 0) ∧
  (∀ waiting, waiting ∈ reached.2 →
     ∃ clientId userId e,
       waiting = Interleaving.InGetUserData clientId userId e) ∧
  (∀ sid change t, step st (Change sid change t) = st) ∧
  (∀ frame, frame ∈ wire st → msg_type frame.2 = "data_update" →
            frame.2 ∈ callerMessages (Interleaving.events moves)) ∧
  (∀ clientId userId e,
     let st' := step st (subscribe clientId userId e) in
     Interleaving.begin (subscribe clientId userId e) st = (st', []) ∧
     clientId ∈ subscribers st' userId ∧
     wire st' = wire st ++
       (if isOpen st clientId
        then [(clientId,
               if collection (mongoManager st) && isConnected (mongoManager st)
               then mkMessage "subscription_confirmed" None (Some userId)
                      None None (Some (now e))
               else mkMessage "error" None None None
                      (Some "Failed to subscribe to user data")
                      (Some (now e)))]
        else [])).
Proof.
  intros Hen reached st.
  assert (Hinit : featureOff (init mongoConfig)) by done.
  destruct (foldl_move_off moves (init mongoConfig, []) Hinit)
    as [Hoff Hfetch]; [by apply Forall_nil|].
  fold (Interleaving.play moves (init mongoConfig)) in Hoff, Hfetch.
  fold reached in Hoff, Hfetch. fold st in Hoff.
  destruct Hoff as (Hen' & Hcs & Hs).
  split_and!; try done.
  - intros userId. unfold activeWatches. by rewrite Hs.
  - intros waiting Hin. unfold Interleaving.onlyFetches in Hfetch.
    rewrite Forall_forall in Hfetch. by apply Hfetch.
  - intros sid change t. simpl. unfold onChange. by rewrite Hs.
  - intros frame Hin Hty.
    destruct (foldl_move_wire_origin_off moves (init mongoConfig, []) frame)
      as [Hi|[?|Hwf]]; try done.
    + by apply Forall_nil.
    + by apply elem_of_nil in Hi.
    + by apply replyTypes_not_data_update in Hwf.
  - intros clientId userId e.
    assert (Hoff : featureOff st) by done.
    destruct (begin_off (subscribe clientId userId e) st Hoff)
      as [Hb|(c & u & e' & Hb)].
    + split_and!; [done| |].
      * rewrite handleMessage_subscribe. unfold subscribers.
        rewrite handleUserSubscription_userSubscriptions, lookup_insert_eq. simpl.
        apply elem_of_union_r. by apply elem_of_singleton.
      * rewrite handleMessage_subscribe.
        rewrite handleUserSubscription_wire, watchUserData_cases, Hen'.
        destruct (collection (mongoManager st)), (isConnected (mongoManager st));
          simpl; done.
    + exfalso. unfold subscribe, Interleaving.begin in Hb.
      rewrite decide_True in Hb by done.
      unfold Interleaving.subscriptionBegin in Hb. simpl in Hb.
      rewrite Hen' in Hb. simpl in Hb.
      by destruct (_ || _).
Qed.

(** An interleaving in which two subscribes for "acct-1" arrive while the
    [close()] of the first is pending: both read the same registered
    stream, both delete the entry when their close settles, both open a
    stream.  Two feeds of "acct-1" are left running, one of them registered
    nowhere; it outlives the last subscriber. *)
Lemma overlapping_subscribes_leave_two_feeds :
  let p := Interleaving.play
             [Interleaving.Arrive (subscribe "c2" "acct-1" (calm 2));
              Interleaving.Arrive (subscribe "c3" "acct-1" (calm 3));
              Interleaving.Settle 0; Interleaving.Settle 0] acct1Watched in
  let q := foldl Interleaving.move p
             [Interleaving.Arrive (SocketClose "c1" (calm 4));
              Interleaving.Arrive (SocketClose "c2" (calm 4));
              Interleaving.Arrive (SocketClose "c3" (calm 4));
              Interleaving.Settle 0] in
  activeWatches acct1Watched "acct-1" = 1 ∧
  p.2 = [] ∧
  streams p.1 = [mkChangeStream "acct-1" false 2;
                 mkChangeStream "acct-1" true 0;
                 mkChangeStream "acct-1" true 0] ∧
  changeStreams (mongoManager p.1) !! "acct-1" = Some 2 ∧
  activeWatches p.1 "acct-1" = 2 ∧
  q.2 = [] ∧ userSubscriptions q.1 = ∅ ∧
  changeStreams (mongoManager q.1) = ∅ ∧
  activeWatches q.1 "acct-1" = 1.
Proof. by vm_compute. Qed.

(** An interleaving in which a subscribe arrives while the last
    unsubscribe awaits its [close()]: the entry the subscribe filled is
    deleted when the unsubscribe goes on.  The new subscriber is confirmed,
    a stream is registered and running, and the subscription index is
    empty. *)
Lemma subscribe_during_unsubscribe_is_lost :
  let p := Interleaving.play
             [Interleaving.Arrive (unsubscribe "c1" "acct-1" (calm 2));
              Interleaving.Arrive (subscribe "c2" "acct-1" (calm 3));
              Interleaving.Settle 0; Interleaving.Settle 0] acct1Watched in
  p.2 = [] ∧ userSubscriptions p.1 = ∅ ∧
  last (wire p.1) = Some ("c2", subscriptionConfirmed "acct-1" 3) ∧
  changeStreams (mongoManager p.1) !! "acct-1" = Some 1 ∧
  activeWatches p.1 "acct-1" = 1.
Proof. by vm_compute. Qed.

(** A [close()] that rejects: [stopWatching] keeps the entry,
    [watchUserData] then overwrites it, and the stream that did not close
    is registered nowhere. *)
Lemma rejected_close_leaves_two_feeds :
  let st := step acct1Watched (subscribe "c1" "acct-1" (closeRejects 2)) in
  streams st = [mkChangeStream "acct-1" true 1; mkChangeStream "acct-1" true 0] ∧
  changeStreams (mongoManager st) !! "acct-1" = Some 1 ∧
  activeWatches st "acct-1" = 2.
Proof. by vm_compute. Qed.

(** ** The claims at concrete inputs *)



(** C2 as stated fails: creation and destruction of a watch are not tied
    to transitions of the subscriber set.  A subscribe repeated by the only
    subscriber of "acct-1" leaves the subscriber set as it is; the running
    stream is closed and another one is created. *)
Lemma watch_restarted_without_transition :
  let st' := step acct1Watched (subscribe "c1" "acct-1" (calm 2)) in
  subscribers acct1Watched "acct-1" = {["c1"]} ∧
  subscribers st' "acct-1" = {["c1"]} ∧
  userSubscriptions st' = userSubscriptions acct1Watched ∧
  streams acct1Watched = [mkChangeStream "acct-1" true 0] ∧
  streams st' = [mkChangeStream "acct-1" false 1; mkChangeStream "acct-1" true 0].
Proof. cbv zeta. split_and!; vm_compute; reflexivity. Qed.

Lemma at_most_one_watch_per_owner_witness :
  Forall closesResolve
    (Interleaving.events (Interleaving.inTurn (ConnectToMongo true :: busyDay))) ∧
  Interleaving.oneAtATime (Interleaving.inTurn (ConnectToMongo true :: busyDay))
    (init enabledConfig, []) = true ∧
  (Interleaving.play (Interleaving.inTurn (ConnectToMongo true :: busyDay))
     (init enabledConfig)).2 = [] ∧
  streams (Interleaving.play (Interleaving.inTurn (ConnectToMongo true :: busyDay))
             (init enabledConfig)).1 =
    [mkChangeStream "acct-1" false 1; mkChangeStream "acct-1" true 0;
     mkChangeStream "acct-2" false 1] ∧
  (activeWatches
     (Interleaving.play (Interleaving.inTurn (ConnectToMongo true :: busyDay))
        (init enabledConfig)).1 "acct-1" ≤ 1)%nat.
Proof.
  assert (Hevs : Forall closesResolve
            (Interleaving.events
               (Interleaving.inTurn (ConnectToMongo true :: busyDay))))
    by (cbn; settled_events).
  assert (Hturn : Interleaving.oneAtATime
                    (Interleaving.inTurn (ConnectToMongo true :: busyDay))
                    (init enabledConfig, []) = true)
    by (vm_compute; reflexivity).
  assert (Hnone : (Interleaving.play
                     (Interleaving.inTurn (ConnectToMongo true :: busyDay))
                     (init enabledConfig)).2 = [])
    by (vm_compute; reflexivity).
  refine (conj Hevs (conj Hturn (conj Hnone (conj _ _)))).
  - vm_compute; reflexivity.
  - exact (proj1 (at_most_one_watch_per_owner enabledConfig
                    (Interleaving.inTurn (ConnectToMongo true :: busyDay))
                    "acct-1" Hevs Hturn Hnone)).
Defined.

(** C3 as stated fails: "c1" is subscribed to "acct-1", which is watched
    through the stream at address 0; a second subscribe of "c1" calls
    [close()] on that stream, which stops, and registers the stream at
    address 1. *)
Lemma resubscribe_replaces_the_watch :
  let st' := step acct1Watched (subscribe "c1" "acct-1" (calm 2)) in
  "c1" ∈ subscribers acct1Watched "acct-1" ∧
  changeStreams (mongoManager acct1Watched) !! "acct-1" = Some 0 ∧
  streams acct1Watched !! 0 = Some (mkChangeStream "acct-1" true 0) ∧
  streams st' !! 0 = Some (mkChangeStream "acct-1" false 1) ∧
  changeStreams (mongoManager st') !! "acct-1" = Some 1 ∧
  ¬ (mongoManager st' = mongoManager acct1Watched ∧
     streams st' = streams acct1Watched).
Proof.
  split_and!; [evaluated|by vm_compute..|].
  intros [_ Hs]. by vm_compute in Hs.
Qed.

Lemma resubscribe_keeps_index_restarts_watch_witness :
  "c1" ∈ subscribers acct1Watched "acct-1" ∧
  changeStreams (mongoManager acct1Watched) !! "acct-1" = Some 0 ∧
  streams acct1Watched !! 0 = Some (mkChangeStream "acct-1" true 0) ∧
  storeReady acct1Watched ∧
  userSubscriptions (handleUserSubscription "c1" "acct-1" (calm 2) acct1Watched) =
    userSubscriptions acct1Watched ∧
  streams (handleUserSubscription "c1" "acct-1" (calm 2) acct1Watched) !! 0 =
    Some (mkChangeStream (cs_userId (mkChangeStream "acct-1" true 0)) false
            (S (cs_closeCalls (mkChangeStream "acct-1" true 0)))) ∧
  changeStreams (mongoManager
                   (handleUserSubscription "c1" "acct-1" (calm 2) acct1Watched))
    !! "acct-1" = Some (length (streams acct1Watched)).
Proof.
  assert (H1 : "c1" ∈ subscribers acct1Watched "acct-1") by evaluated.
  assert (H3 : changeStreams (mongoManager acct1Watched) !! "acct-1" = Some 0)
    by (by vm_compute).
  assert (H4 : streams acct1Watched !! 0 = Some (mkChangeStream "acct-1" true 0))
    by (by vm_compute).
  assert (H5 : storeReady acct1Watched) by (by vm_compute).
  pose proof (resubscribe_keeps_index_restarts_watch
                acct1Watched "c1" "acct-1" (calm 2) H1) as (Hidx & _ & _ & Hwatch).
  destruct (Hwatch 0 (mkChangeStream "acct-1" true 0) H3 H4 H5)
    as (_ & _ & Hrestart).
  destruct (Hrestart eq_refl eq_refl) as (Hold & Hnew & _).
  exact (conj H1 (conj H3 (conj H4 (conj H5 (conj Hidx (conj Hold Hnew)))))).
Defined.

(** C5 as stated fails: "c1", the only subscriber of "acct-1", sends an
    unsubscribe.  The handler takes it out of the set and is suspended at
    the [close()] of the stream of "acct-1": in the state the broker is
    in until that close settles, the map has an entry for "acct-1" and
    the subscriber set is empty.  The entry is deleted when the handler
    goes on. *)
Lemma emptied_entry_awaits_the_close :
  let reached := Interleaving.play unsubscribeAwaits (init enabledConfig) in
  userSubscriptions reached.1 !! "acct-1" = Some ∅ ∧
  subscribers reached.1 "acct-1" = ∅ ∧
  reached.2 = [Interleaving.InUnsubscription "c1" "acct-1" 0 (calm 2)] ∧
  ¬ (is_Some (userSubscriptions reached.1 !! "acct-1") ↔
     subscribers reached.1 "acct-1" ≠ ∅) ∧
  userSubscriptions (Interleaving.move reached (Interleaving.Settle 0)).1
    !! "acct-1" = None.
Proof.
  assert (Hentry : userSubscriptions
                     (Interleaving.play unsubscribeAwaits (init enabledConfig)).1
                   !! "acct-1" = Some ∅) by (vm_compute; reflexivity).
  assert (Hsubs : subscribers
                    (Interleaving.play unsubscribeAwaits (init enabledConfig)).1
                    "acct-1" = ∅) by (vm_compute; reflexivity).
  cbv zeta. split_and!; [done|done|vm_compute; reflexivity| |vm_compute; reflexivity].
  intros [Hne _]. apply Hne; [by rewrite Hentry|done].
Qed.

Lemma entry_iff_subscribers_witness :
  subscribers (Interleaving.play (Interleaving.inTurn
                 (arrivals ++ [subscribe "c1" "acct-1" (calm 1)]))
                 (init enabledConfig)).1 "acct-1" ∖ {["c1"]} = ∅ ∧
  changeStreams (mongoManager (Interleaving.play (Interleaving.inTurn
                 (arrivals ++ [subscribe "c1" "acct-1" (calm 1)]))
                 (init enabledConfig)).1) !! "acct-1" = Some 0 ∧
  is_Some (userSubscriptions (Interleaving.play (Interleaving.inTurn
                 (arrivals ++ [subscribe "c1" "acct-1" (calm 1)]))
                 (init enabledConfig)).1 !! "acct-1") ∧
  userSubscriptions
    (Interleaving.begin (unsubscribe "c1" "acct-1" (calm 2))
       (Interleaving.play (Interleaving.inTurn
          (arrivals ++ [subscribe "c1" "acct-1" (calm 1)]))
          (init enabledConfig)).1).1 !! "acct-1" = Some ∅ ∧
  (Interleaving.begin (unsubscribe "c1" "acct-1" (calm 2))
     (Interleaving.play (Interleaving.inTurn
        (arrivals ++ [subscribe "c1" "acct-1" (calm 1)]))
        (init enabledConfig)).1).2 =
  [Interleaving.InUnsubscription "c1" "acct-1" 0 (calm 2)].
Proof.
  assert (Hlast : subscribers (Interleaving.play (Interleaving.inTurn
                    (arrivals ++ [subscribe "c1" "acct-1" (calm 1)]))
                    (init enabledConfig)).1 "acct-1" ∖ {["c1"]} = ∅)
    by (vm_compute; reflexivity).
  assert (Hsid : changeStreams (mongoManager (Interleaving.play (Interleaving.inTurn
                    (arrivals ++ [subscribe "c1" "acct-1" (calm 1)]))
                    (init enabledConfig)).1) !! "acct-1" = Some 0)
    by (vm_compute; reflexivity).
  assert (Hentry : is_Some (userSubscriptions (Interleaving.play (Interleaving.inTurn
                    (arrivals ++ [subscribe "c1" "acct-1" (calm 1)]))
                    (init enabledConfig)).1 !! "acct-1"))
    by (vm_compute; eauto).
  refine (conj Hlast (conj Hsid (conj Hentry _))).
  exact (proj1 (proj2 (proj2 (proj2 (proj2 (proj2
           (entry_iff_subscribers enabledConfig
              (Interleaving.inTurn
                 (arrivals ++ [subscribe "c1" "acct-1" (calm 1)]))))))
           "c1" "acct-1" (calm 2) Hlast)) 0 Hsid Hentry).
Defined.


(** C4 as stated fails: "acct-1" is watched through the stream at address
    0; after the feed of that stream breaks the stream is still the one
    registered for "acct-1". *)
Lemma feed_error_does_not_unwatch :
  let st' := step acct1Watched (StreamError 0) in
  changeStreams (mongoManager acct1Watched) !! "acct-1" = Some 0 ∧
  streams st' !! 0 = Some (mkChangeStream "acct-1" false 0) ∧
  changeStreams (mongoManager st') !! "acct-1" = Some 0 ∧
  watching st' "acct-1" ∧
  ¬ (changeStreams (mongoManager st') !! "acct-1" = None).
Proof.
  assert (Hreg : changeStreams (mongoManager (step acct1Watched (StreamError 0)))
                 !! "acct-1" = Some 0) by (vm_compute; reflexivity).
  split_and!.
  - vm_compute; reflexivity.
  - vm_compute; reflexivity.
  - exact Hreg.
  - by exists 0.
  - by rewrite Hreg.
Qed.

Lemma feed_error_keeps_the_watch_registered_witness :
  changeStreams (mongoManager acct1Watched) !! "acct-1" = Some 0 ∧
  streams acct1Watched !! 0 = Some (mkChangeStream "acct-1" true 0) ∧
  changeStreams (mongoManager (step acct1Watched (StreamError 0))) !! "acct-1" = Some 0.
Proof.
  assert (H1 : changeStreams (mongoManager acct1Watched) !! "acct-1" = Some 0)
    by (by vm_compute).
  assert (H2 : streams acct1Watched !! 0 = Some (mkChangeStream "acct-1" true 0))
    by (by vm_compute).
  refine (conj H1 (conj H2 _)).
  exact (proj1 (feed_error_keeps_the_watch_registered acct1Watched 0 "acct-1"
                  (mkChangeStream "acct-1" true 0) H1 H2)).
Defined.

Lemma broadcast_reaches_exactly_the_open_subscribers_witness :
  "c2" ∈ filter (λ c, ¬ openSocket oneOpenOneClosing c)
                (subscribers oneOpenOneClosing "acct-1") ∧
  ("c2" ∉ recipients oneOpenOneClosing "acct-1") ∧
  wire (broadcastToUser "acct-1" (dataUpdate "acct-1" "doc" 9) oneOpenOneClosing) =
  wire oneOpenOneClosing ++
  ((λ c, (c, dataUpdate "acct-1" "doc" 9)) <$> recipients oneOpenOneClosing "acct-1").
Proof.
  assert (Hdead : "c2" ∈ filter (λ c, ¬ openSocket oneOpenOneClosing c)
                                (subscribers oneOpenOneClosing "acct-1")).
  { apply elem_of_filter. split; [by vm_compute|evaluated]. }
  pose proof (broadcast_reaches_exactly_the_open_subscribers
                oneOpenOneClosing "acct-1" (dataUpdate "acct-1" "doc" 9)) as Hb.
  cbv zeta in Hb. destruct Hb as (Hw & _ & _ & _ & _ & Hnone & _).
  exact (conj Hdead (conj (Hnone "c2" Hdead) Hw)).
Defined.

Lemma failed_watch_keeps_subscriber_witness :
  (watchUserData "acct-1" (watchThrows 2) acct1Watched).2 = Threw ∧
  storeReady acct1Watched ∧
  isOpen acct1Watched "c2" = true ∧
  "c2" ∈ subscribers (handleUserSubscription "c2" "acct-1" (watchThrows 2)
                        acct1Watched) "acct-1" ∧
  wire (handleUserSubscription "c2" "acct-1" (watchThrows 2) acct1Watched) =
  wire acct1Watched ++
  (if isOpen acct1Watched "c2"
   then [("c2", mkMessage "error" None None None
                  (Some "Failed to subscribe to user data")
                  (Some (now (watchThrows 2))))]
   else []) ∧
  ¬ watching (handleUserSubscription "c2" "acct-1" (watchThrows 2) acct1Watched)
             "acct-1".
Proof.
  assert (Hthrew : (watchUserData "acct-1" (watchThrows 2) acct1Watched).2 = Threw)
    by (vm_compute; reflexivity).
  assert (Hready : storeReady acct1Watched) by (by vm_compute).
  assert (Hopen : isOpen acct1Watched "c2" = true) by (vm_compute; reflexivity).
  pose proof (failed_watch_keeps_subscriber acct1Watched "c2" "acct-1"
                (watchThrows 2) Hthrew) as Hc.
  cbv zeta in Hc. destruct Hc as (Hin & _ & Hwire & Hnot & _).
  refine (conj Hthrew (conj Hready (conj Hopen (conj Hin (conj Hwire _))))).
  apply Hnot. right. split; [exact Hready|]. intros sid. reflexivity.
Defined.

(** C10 as stated fails: with change streams left unset and the store not
    connected, the subscribe of "c1", whose socket is open, is answered
    with a message of type error, 'Failed to subscribe to user data', and
    no confirmation is sent. *)
Lemma subscribe_fails_while_store_not_connected :
  let st := run [Connection "c1" 0] (init unsetConfig) in
  let st' := step st (subscribe "c1" "acct-1" (calm 1)) in
  changeStreamsEnabled unsetConfig = false ∧
  openSocket st "c1" ∧
  isConnected (mongoManager st) = false ∧
  wire st' = wire st ++
             [("c1", mkMessage "error" None None None
                       (Some "Failed to subscribe to user data") (Some 1))] ∧
  Forall (λ frame, msg_type frame.2 ≠ "subscription_confirmed") (wire st').
Proof.
  cbv zeta. split_and!.
  - reflexivity.
  - vm_compute; reflexivity.
  - reflexivity.
  - vm_compute; reflexivity.
  - evaluated.
Qed.

Lemma change_streams_off_witness :
  changeStreamsEnabled unsetConfig = false ∧
  collection (mongoManager
    (Interleaving.play
       (Interleaving.inTurn [Connection "c1" 0; ConnectToMongo true])
       (init unsetConfig)).1) &&
  isConnected (mongoManager
    (Interleaving.play
       (Interleaving.inTurn [Connection "c1" 0; ConnectToMongo true])
       (init unsetConfig)).1) = true ∧
  isOpen (Interleaving.play
            (Interleaving.inTurn [Connection "c1" 0; ConnectToMongo true])
            (init unsetConfig)).1 "c1" = true ∧
  Interleaving.begin (subscribe "c1" "acct-1" (calm 1))
    (Interleaving.play
       (Interleaving.inTurn [Connection "c1" 0; ConnectToMongo true])
       (init unsetConfig)).1 =
  (step (Interleaving.play
           (Interleaving.inTurn [Connection "c1" 0; ConnectToMongo true])
           (init unsetConfig)).1
        (subscribe "c1" "acct-1" (calm 1)), []) ∧
  "c1" ∈ subscribers
           (step (Interleaving.play
                    (Interleaving.inTurn [Connection "c1" 0; ConnectToMongo true])
                    (init unsetConfig)).1
                 (subscribe "c1" "acct-1" (calm 1))) "acct-1" ∧
  wire (step (Interleaving.play
                (Interleaving.inTurn [Connection "c1" 0; ConnectToMongo true])
                (init unsetConfig)).1
             (subscribe "c1" "acct-1" (calm 1))) =
  wire (Interleaving.play
          (Interleaving.inTurn [Connection "c1" 0; ConnectToMongo true])
          (init unsetConfig)).1 ++
  [("c1", mkMessage "subscription_confirmed" None (Some "acct-1")
            None None (Some 1))] ∧
  streams (Interleaving.play
             (Interleaving.inTurn
                [Connection "c1" 0; ConnectToMongo true;
                 subscribe "c1" "acct-1" (calm 1)])
             (init unsetConfig)).1 = [].
Proof.
  assert (Hready : collection (mongoManager
    (Interleaving.play
       (Interleaving.inTurn [Connection "c1" 0; ConnectToMongo true])
       (init unsetConfig)).1) &&
  isConnected (mongoManager
    (Interleaving.play
       (Interleaving.inTurn [Connection "c1" 0; ConnectToMongo true])
       (init unsetConfig)).1) = true) by (vm_compute; reflexivity).
  assert (Hopen : isOpen (Interleaving.play
            (Interleaving.inTurn [Connection "c1" 0; ConnectToMongo true])
            (init unsetConfig)).1 "c1" = true) by (vm_compute; reflexivity).
  pose proof (change_streams_off unsetConfig
                (Interleaving.inTurn [Connection "c1" 0; ConnectToMongo true])
                eq_refl) as Hoff.
  cbv zeta in Hoff. destruct Hoff as (_ & _ & _ & _ & Hsub).
  destruct (Hsub "c1" "acct-1" (calm 1)) as (Hbegin & Hin & Hwire).
  rewrite Hopen, Hready in Hwire.
  refine (conj eq_refl (conj Hready (conj Hopen (conj Hbegin
            (conj Hin (conj Hwire _)))))).
  exact (proj1 (proj2 (proj1 (change_streams_off unsetConfig
           (Interleaving.inTurn
              [Connection "c1" 0; ConnectToMongo true;
               subscribe "c1" "acct-1" (calm 1)]) eq_refl)))).
Defined.

(** C8 as stated fails: the subscribe of "c1", during which
    [watchUserData] returns, is answered with a message of type
    subscription_confirmed, which is not one of the listed types; no
    message of type subscribed is sent. *)
Lemma confirmation_is_not_typed_subscribed :
  (watchUserData "acct-1" (calm 1) (run arrivals (init enabledConfig))).2 = Returned ∧
  last (wire acct1Watched) = Some ("c1", subscriptionConfirmed "acct-1" 1) ∧
  (msg_type (subscriptionConfirmed "acct-1" 1) ∉ specTypes) ∧
  ¬ Forall (λ frame, wellFormed specTypes frame.2) (wire acct1Watched) ∧
  Forall (λ frame, msg_type frame.2 ≠ "subscribed") (wire acct1Watched).
Proof.
  split_and!.
  - vm_compute; reflexivity.
  - vm_compute; reflexivity.
  - evaluated.
  - evaluated.
  - evaluated.
Qed.

Lemma outbound_messages_are_typed_witness :
  (watchUserData "acct-1" (calm 1) (run arrivals (init enabledConfig))).2 = Returned ∧
  openSocket (run arrivals (init enabledConfig)) "c1" ∧
  wire (step (run arrivals (init enabledConfig)) (subscribe "c1" "acct-1" (calm 1))) =
  wire (run arrivals (init enabledConfig)) ++
  [("c1", subscriptionConfirmed "acct-1" (now (calm 1)))].
Proof.
  assert (Hret : (watchUserData "acct-1" (calm 1)
                    (run arrivals (init enabledConfig))).2 = Returned)
    by (vm_compute; reflexivity).
  assert (Hopen : openSocket (run arrivals (init enabledConfig)) "c1")
    by (vm_compute; reflexivity).
  refine (conj Hret (conj Hopen _)).
  exact (proj2 (outbound_messages_are_typed enabledConfig arrivals)
           "c1" "acct-1" (calm 1) Hret Hopen).
Defined.

(* ================================================================== *)
(** * Further properties of the broker *)

Lemma broadcastToAll_loop message (entries : list (string * ReadyState)) st :
  (∀ entry, entry ∈ entries → clients st !! entry.1 = Some entry.2) →
  let st' := foldl (λ acc entry,
                      if bool_decide (entry.2 = OPEN)
                      then sendMessage entry.1 message acc
                      else acc) st entries in
  clients st' = clients st ∧ sameCore st st' ∧
  wire st' = wire st ++
             ((λ c, (c, message)) <$>
              (filter (λ entry : string * ReadyState, entry.2 = OPEN) entries).*1).
Proof.
  revert st. induction entries as [|entry entries IH]; intros st Hreg; simpl.
  { split; [done|]. split; [apply sameCore_refl|]. by rewrite app_nil_r. }
  assert (Hhere : clients st !! entry.1 = Some entry.2)
    by apply Hreg, list_elem_of_here.
  set (st1 := if bool_decide (entry.2 = OPEN)
              then sendMessage entry.1 message st else st).
  assert (Hcl : clients st1 = clients st).
  { unfold st1. case_bool_decide; [apply sendMessage_clients|done]. }
  assert (Hcore : sameCore st st1).
  { unfold st1. case_bool_decide; [apply sendMessage_sameCore|apply sameCore_refl]. }
  destruct (IH st1) as (Hc & Hs & Hw).
  { intros entry' Hin. rewrite Hcl. by apply Hreg, list_elem_of_further. }
  split; [by rewrite Hc|]. split; [by eapply sameCore_trans|].
  rewrite Hw. unfold st1. rewrite filter_cons.
  case_bool_decide as Hopen.
  - rewrite decide_True by done. rewrite sendMessage_wire.
    unfold isOpen. rewrite Hhere, Hopen, bool_decide_eq_true_2 by done.
    by rewrite fmap_cons, fmap_cons, <- app_assoc.
  - by rewrite decide_False by done.
Qed.

(** X1.  [broadcastToAll] puts on the wire exactly one frame, carrying the
    message as it was given, for each registered client whose socket is
    OPEN, whatever the client is subscribed to, and nothing else; the
    registry, the subscription index and the store side are left as they
    were. *)
Theorem broadcastToAll_reaches_exactly_the_open_clients
    (st : WebSocketManager) (message : Message) :
  let st' := broadcastToAll message st in
  wire st' = wire st ++ ((λ c, (c, message)) <$> openClients st) ∧
  NoDup (openClients st) ∧
  (∀ c, c ∈ openClients st ↔ openSocket st c) ∧
  clients st' = clients st ∧ sameCore st st'.
Proof.
  intros st'.
  destruct (broadcastToAll_loop message (map_to_list (clients st)) st)
    as (Hc & Hs & Hw).
  { intros [c rs]. apply elem_of_map_to_list. }
  split_and!; try done.
  - unfold openClients. eapply NoDup_fmap_fst.
    + intros c rs1 rs2 H1 H2. apply list_elem_of_filter in H1 as [_ H1], H2 as [_ H2].
      apply elem_of_map_to_list in H1, H2. congruence.
    + apply NoDup_filter, NoDup_map_to_list.
  - intros c. unfold openClients, openSocket. rewrite list_elem_of_fmap. split.
    + intros ([c' rs] & -> & Hin). apply list_elem_of_filter in Hin as [Ho Hin].
      apply elem_of_map_to_list in Hin. simpl in *. by subst rs.
    + intros Hc'. exists (c, OPEN). split; [done|].
      apply list_elem_of_filter. split; [done|]. by apply elem_of_map_to_list.
Qed.

(** ** One reply per message *)

Lemma handleUserUnsubscription_wire clientId userId e st :
  wire (handleUserUnsubscription clientId userId e st) =
  wire st ++
  (if isOpen st clientId
   then [(clientId, unsubscriptionConfirmed userId (now e))] else []).
Proof.
  rewrite handleUserUnsubscription_entry, sendMessage_wire.
  destruct (userSubscriptions st !! userId) as [s|]; [|done].
  rewrite disconnectEntry_wire.
  by rewrite (isOpen_same_clients st _ clientId (disconnectEntry_clients _ _ _ _ _)).
Qed.

Lemma handleUserUnsubscription_clients clientId userId e st :
  clients (handleUserUnsubscription clientId userId e st) = clients st.
Proof.
  rewrite handleUserUnsubscription_entry, sendMessage_clients.
  destruct (userSubscriptions st !! userId) as [s|]; [|done].
  apply disconnectEntry_clients.
Qed.

Lemma handleGetUserData_wire clientId userId e st :
  wire (handleGetUserData clientId userId e st) =
  wire st ++
  replyFrame st clientId (replyTo clientId (Parsed "get_user_data" userId) e st).
Proof.
  unfold handleGetUserData, replyTo, replyFrame, sendError.
  rewrite decide_False, decide_False, decide_True by done.
  destruct (loadUserData userId e st) as [[d|] []]; apply sendMessage_wire.
Qed.

Lemma onMessage_clients clientId raw e st :
  clients (onMessage clientId raw e st) = clients st.
Proof.
  destruct raw as [| |rendered|type userId]; simpl;
    [apply sendMessage_clients|done|apply sendMessage_clients|].
  unfold handleMessage. repeat case_decide.
  - apply handleUserSubscription_clients.
  - apply handleUserUnsubscription_clients.
  - unfold handleGetUserData, sendError. repeat case_match; apply sendMessage_clients.
  - apply sendMessage_clients.
Qed.

Lemma onMessage_wire clientId raw e st :
  wire (onMessage clientId raw e st) =
  wire st ++ replyFrame st clientId (replyTo clientId raw e st).
Proof.
  destruct raw as [| |rendered|type userId]; simpl;
    [apply sendMessage_wire|by rewrite app_nil_r|apply sendMessage_wire|].
  unfold handleMessage. repeat case_decide; subst.
  - apply handleUserSubscription_wire.
  - apply handleUserUnsubscription_wire.
  - rewrite handleGetUserData_wire. unfold replyTo.
    by rewrite decide_False, decide_False, decide_True by done.
  - apply sendMessage_wire.
Qed.







(** ** Unsubscribing what is not subscribed *)

Lemma with_userSubscriptions_same st (subs : gmap string (gset string)) :
  subs = userSubscriptions st → with_userSubscriptions (λ _, subs) st = st.
Proof. intros ->. by destruct st. Qed.

(** X3.  In every state the broker reaches, however the handlers
    interleave: an unsubscribe for an owner the client is not subscribed
    to, with no unsubscribe for that owner suspended, changes nothing and
    awaits nothing: the client is only sent the confirmation.  While an
    unsubscribe that emptied the set of the owner is suspended, the empty
    set is still in the map, and the unsubscribe of a client that is not
    in it calls [close()] once more on the registered stream and is
    suspended in its turn. *)
Theorem unsubscribing_a_stranger_only_confirms
    (mongoConfig : CloudStorageConfig) (moves : list Interleaving.Move)
    (clientId userId : string) (e : Env) :
  let reached := Interleaving.play moves (init mongoConfig) in
  let st := reached.1 in
  clientId ∉ subscribers st userId →
  ((∀ c sid e', Interleaving.InUnsubscription c userId sid e' ∉ reached.2) →
   Interleaving.begin (unsubscribe clientId userId e) st =
   (sendMessage clientId (unsubscriptionConfirmed userId (now e)) st, [])) ∧
  (∀ sid cs,
     userSubscriptions st !! userId = Some ∅ →
     changeStreams (mongoManager st) !! userId = Some sid →
     streams st !! sid = Some cs →
     (∃ c sid' e', Interleaving.InUnsubscription c userId sid' e' ∈ reached.2) ∧
     let handled := Interleaving.begin (unsubscribe clientId userId e) st in
     handled.2 = [Interleaving.InUnsubscription clientId userId sid e] ∧
     streams handled.1 !! sid =
       Some (mkChangeStream (cs_userId cs)
               (if closeOk e sid then false else cs_live cs)
               (S (cs_closeCalls cs))) ∧
     wire handled.1 = wire st ∧
     userSubscriptions handled.1 = userSubscriptions st).
Proof.
  intros reached st Hstranger.
  assert (Hawait : Interleaving.emptiesAwaited reached)
    by apply play_emptiesAwaited.
  change (Interleaving.begin (unsubscribe clientId userId e) st)
    with (Interleaving.unsubscriptionBegin clientId userId e st).
  unfold Interleaving.unsubscriptionBegin. split.
  - intros Hnone. unfold subscribers in Hstranger.
    destruct (userSubscriptions st !! userId) as [s|] eqn:Hs; [|done].
    simpl in Hstranger. rewrite (without_stranger s clientId Hstranger).
    rewrite decide_False.
    + f_equal. f_equal.
      change (with_userSubscriptions <[userId:=s]> st)
        with (with_userSubscriptions (λ _, <[userId:=s]> (userSubscriptions st)) st).
      apply with_userSubscriptions_same. by apply insert_id.
    + intros Hsz. apply size_zero_empty in Hsz. subst s.
      destruct (Hawait userId Hs) as (c & sid & e' & Hin).
      by apply (Hnone c sid e').
  - intros sid cs Hs Hsid Hcs. split.
    + exact (Hawait userId Hs).
    + rewrite Hs, empty_difference_L, size_empty, decide_True by done.
      unfold Interleaving.stopWatchingCall. simpl. rewrite Hsid.
      cbn [fst snd]. split_and!.
      * done.
      * simpl. by rewrite list_lookup_alter_eq, Hcs.
      * done.
      * simpl. by apply insert_id.
Qed.

(** ** Connection statistics *)

Lemma tidy_watches_within_owners st :
  tidy st →
  (size (changeStreams (mongoManager st)) ≤ size (userSubscriptions st))%nat.
Proof.
  intros (_ & _ & Hws).
  rewrite <- (size_dom (D:=gset string) (changeStreams (mongoManager st))).
  rewrite <- (size_dom (D:=gset string) (userSubscriptions st)).
  apply subseteq_size. intros u. rewrite !elem_of_dom. apply Hws.
Qed.

Lemma balanced_watches_are_owners st :
  balanced st →
  size (changeStreams (mongoManager st)) = size (userSubscriptions st).
Proof.
  intros ((_ & _ & Hws) & _ & Hsw).
  rewrite <- (size_dom (D:=gset string) (changeStreams (mongoManager st))).
  rewrite <- (size_dom (D:=gset string) (userSubscriptions st)).
  f_equal. apply leibniz_equiv, set_equiv. intros u. rewrite !elem_of_dom.
  split; [apply Hws|apply Hsw].
Qed.

(** X6.  In a schedule in which no two handlers overlap and no [close()]
    rejects, whenever nothing is pending, [getConnectionStats] reports no
    more change streams than subscribed users; [totalUserSubscriptions]
    is the number of owners with at least one subscriber; and when the
    schedule starts by connecting the store, with change streams on and
    nothing failing, the two numbers are equal.  Right after a
    disconnect they need not be: [handleClientDisconnect] returns with
    [activeChangeStreams] as it was, the streams of the owners it took
    out of the map being unregistered only when their [close()]
    settles. *)
Theorem stats_count_at_most_one_stream_per_owner
    (mongoConfig : CloudStorageConfig) (moves : list Interleaving.Move) :
  Forall closesResolve (Interleaving.events moves) →
  Interleaving.oneAtATime moves (init mongoConfig, []) = true →
  (Interleaving.play moves (init mongoConfig)).2 = [] →
  let st := (Interleaving.play moves (init mongoConfig)).1 in
  let stats := getConnectionStats st in
  (activeChangeStreams stats ≤ totalUserSubscriptions stats)%nat ∧
  totalUserSubscriptions stats =
    size (filter (λ userId, subscribers st userId ≠ ∅)
                 (dom (userSubscriptions st))) ∧
  (changeStreamsEnabled mongoConfig = true →
   Forall untroubled (Interleaving.events moves) →
   head (Interleaving.events moves) = Some (ConnectToMongo true) →
   activeChangeStreams stats = totalUserSubscriptions stats) ∧
  (∀ clientId e,
     let after := getConnectionStats
                    (Interleaving.begin (SocketClose clientId e) st).1 in
     activeChangeStreams after = activeChangeStreams stats ∧
     totalUserSubscriptions after =
       size (filter (λ userId, subscribers st userId ∖ {[clientId]} ≠ ∅)
                    (dom (userSubscriptions st)))).
Proof.
  intros Hevs Hturn Hnone st stats. unfold stats, st. clear stats st.
  rewrite (oneAtATime_run moves (init mongoConfig) Hturn Hnone).
  set (st := run (Interleaving.events moves) (init mongoConfig)).
  assert (Htidy : tidy st) by (apply run_tidy; [done|apply init_tidy]).
  split_and!.
  - by apply tidy_watches_within_owners.
  - simpl.
    rewrite <- (size_dom (D:=gset string)). f_equal.
    apply leibniz_equiv, set_equiv. intros u. rewrite elem_of_filter.
    rewrite elem_of_dom, (sound_entry_iff _ u (proj1 Htidy)). tauto.
  - intros Hen Hun Hhead. unfold st in *.
    destruct (Interleaving.events moves) as [|ev evs']; [done|].
    injection Hhead as ->. simpl.
    apply balanced_watches_are_owners.
    apply Forall_cons in Hun as [_ Hun].
    change (run (ConnectToMongo true :: evs') (init mongoConfig))
      with (run evs' (with_mongoManager (connect true) (init mongoConfig))).
    apply run_balanced; [done|]. apply connect_balanced.
    + apply init_tidy.
    + done.
    + by intros u [s Hs].
  - intros clientId e.
    change (Interleaving.begin (SocketClose clientId e) st)
      with (Interleaving.disconnectBegin clientId e st).
    unfold getConnectionStats.
    cbn [activeChangeStreams totalUserSubscriptions].
    rewrite disconnectBegin_store. split; [done|].
    rewrite <- (size_dom (D:=gset string)). f_equal.
    apply leibniz_equiv, set_equiv. intros u. rewrite elem_of_filter.
    rewrite !elem_of_dom, disconnectBegin_userSubscriptions,
      handleClientDisconnect_userSubscriptions.
    unfold subscribers.
    destruct (userSubscriptions st !! u) as [s|]; simpl.
    + case_decide as Hsz.
      * apply size_zero_empty in Hsz. rewrite Hsz.
        split; [by intros [? ?]|]. by intros [? _].
      * split; [|by eauto]. intros _. split; [|by eauto].
        intros Hempty. by rewrite Hempty, size_empty in Hsz.
    + split; [by intros [? ?]|]. by intros [_ [? ?]].
Qed.

(** ** [disconnect] of the store *)

Lemma closeAll_throws e entries st :
  (∃ entry, entry ∈ entries ∧ closeOk e entry.2 = false) →
  (closeAll e entries st).2 = Threw.
Proof.
  revert st. induction entries as [|[u sid] entries IH]; intros st (entry & Hin & Hrej).
  { by apply elem_of_nil in Hin. }
  simpl. destruct (closeOk e sid) eqn:Hok; [|done].
  apply IH. apply elem_of_cons in Hin as [->|Hin]; [|by eauto].
  simpl in Hrej. congruence.
Qed.

Lemma disconnect_clients e st : clients (disconnect e st) = clients st.
Proof.
  unfold disconnect.
  destruct (closeAll_frame e (map_to_list (changeStreams (mongoManager st))) st)
    as (Hc & _ & _ & _).
  destruct (closeAll e _ st) as [st1 []]; simpl in *; [|done].
  by repeat case_match.
Qed.

(** X7.  [disconnect] of the store never touches the clients, the
    subscriptions or the wire.  When every [close()] resolves, the table
    of streams is emptied and every stream it listed has stopped; the
    store is marked disconnected when it had a client whose [close()]
    resolved, and keeps its connection flag otherwise.  When the
    [close()] of a registered stream rejects, the manager is left exactly
    as it was: no stream is unregistered and the connection flag stays. *)
Theorem store_disconnect_is_all_or_nothing (e : Env) (st : WebSocketManager) :
  let st' := disconnect e st in
  userSubscriptions st' = userSubscriptions st ∧
  clients st' = clients st ∧ wire st' = wire st ∧
  ((∀ sid, closeOk e sid = true) →
   changeStreams (mongoManager st') = ∅ ∧
   (∀ userId sid cs',
      changeStreams (mongoManager st) !! userId = Some sid →
      streams st' !! sid = Some cs' → cs_live cs' = false) ∧
   (client (mongoManager st) = true → clientCloseOk e = true →
    isConnected (mongoManager st') = false ∧
    collection (mongoManager st') = false ∧ client (mongoManager st') = false) ∧
   (client (mongoManager st) = false ∨ clientCloseOk e = false →
    isConnected (mongoManager st') = isConnected (mongoManager st) ∧
    collection (mongoManager st') = collection (mongoManager st))) ∧
  ((∃ userId sid, changeStreams (mongoManager st) !! userId = Some sid ∧
                  closeOk e sid = false) →
   mongoManager st' = mongoManager st).
Proof.
  intros st'.
  split; [apply disconnect_userSubscriptions|].
  split; [apply disconnect_clients|]. split; [apply disconnect_wire|].
  set (entries := map_to_list (changeStreams (mongoManager st))).
  destruct (closeAll_frame e entries st) as (_ & _ & Hm & _).
  split.
  - intros Hok.
    destruct (disconnect_resolved e st Hok) as [Hempty Hstreams].
    destruct (closeAll_closes e entries st Hok) as [Hret Hcl].
    split; [done|]. split.
    { intros u sid cs' Hsid. unfold st'. rewrite Hstreams. apply (Hcl u).
      by apply elem_of_map_to_list. }
    unfold st', disconnect. fold entries.
    destruct (closeAll e entries st) as [st1 c]; simpl in *. subst c.
    rewrite Hm. split.
    + intros -> ->. done.
    + intros [Hcl'|Hcl']; rewrite Hcl'; [simpl; by rewrite Hm|].
      destruct (client _); simpl; by rewrite Hm.
  - intros (u & sid & Hsid & Hrej).
    assert (Hthrew : (closeAll e entries st).2 = Threw).
    { apply closeAll_throws. exists (u, sid). split; [|done].
      by apply elem_of_map_to_list. }
    unfold st', disconnect. fold entries.
    destruct (closeAll e entries st) as [st1 c]; simpl in *. by subst c.
Qed.

(** ** Reconnecting the store *)



(** ** Who is sent what *)

Lemma sentTo_none P st st' : wire st' = wire st → sentTo P st st'.
Proof. intros Hw. exists []. by rewrite app_nil_r. Qed.

Lemma step_sentTo st ev : sentTo (openSocket (step st ev)) st (step st ev).
Proof.
  destruct ev as [c t|c raw e|c e|c e|c rs|sid change t|sid|ok|e|message|].
  - simpl. unfold onConnection.
    set (st1 := with_clients <[c:=OPEN]> st).
    exists (if isOpen st1 c then [(c, connectionEstablished c t)] else []).
    split; [by rewrite sendMessage_wire|].
    destruct (isOpen st1 c) eqn:Hopen; [|constructor]. apply Forall_singleton.
    unfold openSocket. rewrite sendMessage_clients. by apply isOpen_spec.
  - eexists. split; [apply onMessage_wire|]. unfold replyFrame.
    destruct (replyTo c raw e st) as [reply|]; [|constructor].
    destruct (isOpen st c) eqn:Hopen; [|constructor]. apply Forall_singleton.
    unfold openSocket. simpl. rewrite onMessage_clients. by apply isOpen_spec.
  - apply sentTo_none, handleClientDisconnect_wire.
  - apply sentTo_none, handleClientDisconnect_wire.
  - by apply sentTo_none.
  - simpl. unfold onChange.
    destruct (streams st !! sid) as [cs|]; [|by apply sentTo_none].
    destruct (cs_live cs); [|by apply sentTo_none].
    destruct (fullDocument change) as [doc|]; [|by apply sentTo_none].
    destruct (convertMongoDocument doc) as [d|]; [|by apply sentTo_none].
    destruct (broadcastToUser_effect (cs_userId cs)
                (dataUpdate (cs_userId cs) d t) st) as (Hc & _ & _ & _ & Hw).
    eexists. split; [apply Hw|]. apply Forall_fmap, Forall_forall.
    intros c' Hin. apply recipients_spec in Hin as [_ Hopen].
    unfold openSocket in *. simpl. by rewrite Hc.
  - by apply sentTo_none.
  - by apply sentTo_none.
  - apply sentTo_none, disconnect_wire.
  - simpl. unfold broadcastToAll.
    destruct (broadcastToAll_loop message (map_to_list (clients st)) st)
      as (Hc & _ & Hw).
    { intros [c rs]. apply elem_of_map_to_list. }
    eexists. split; [apply Hw|]. apply Forall_fmap, Forall_forall.
    intros c' Hin. apply list_elem_of_fmap in Hin as ([c'' rs] & -> & Hin).
    apply list_elem_of_filter in Hin as [Ho Hin].
    apply elem_of_map_to_list in Hin. simpl in *. subst rs.
    unfold openSocket. by rewrite Hc.
  - by apply sentTo_none.
Qed.

Lemma step_clients_absent st ev clientId :
  clients st !! clientId = None →
  (∀ t, ev ≠ Connection clientId t) →
  clients (step st ev) !! clientId = None.
Proof.
  intros Habs Hnew.
  destruct ev as [c t|c raw e|c e|c e|c rs|sid change t|sid|ok|e|message|]; simpl.
  - unfold onConnection. rewrite sendMessage_clients. simpl.
    rewrite lookup_insert_ne; [done|]. intros ->. by apply (Hnew t).
  - by rewrite onMessage_clients.
  - unfold handleClientDisconnect. simpl. rewrite disconnect_loop_clients.
    by apply lookup_delete_None; right.
  - unfold handleClientDisconnect. simpl. rewrite disconnect_loop_clients.
    by apply lookup_delete_None; right.
  - case_decide as Hreg; [|done].
    rewrite lookup_insert_ne; [done|]. intros ->. rewrite Habs in Hreg.
    by destruct Hreg.
  - unfold onChange.
    destruct (streams st !! sid) as [cs|]; [|done].
    destruct (cs_live cs); [|done].
    destruct (fullDocument change) as [doc|]; [|done].
    destruct (convertMongoDocument doc) as [d|]; [|done].
    by destruct (broadcastToUser_effect (cs_userId cs)
                   (dataUpdate (cs_userId cs) d t) st) as (-> & _).
  - done.
  - done.
  - by rewrite disconnect_clients.
  - unfold broadcastToAll.
    destruct (broadcastToAll_loop message (map_to_list (clients st)) st)
      as (Hc & _).
    { intros [c rs]. apply elem_of_map_to_list. }
    by rewrite Hc.
  - done.
Qed.

Lemma filter_none {A} (P : A → Prop) `{!∀ x, Decision (P x)} (l : list A) :
  Forall (λ x, ¬ P x) l → filter P l = [].
Proof.
  induction 1 as [|x l Hx _ IH]; [done|].
  by rewrite filter_cons, decide_False.
Qed.

(** X4.  A client that is not in the registry is sent nothing: whatever
    happens next, short of a new connection under its identifier, no frame
    is addressed to it and it stays out of the registry. *)
Theorem a_departed_client_receives_nothing
    (st : WebSocketManager) (evs : list Event) (clientId : string) :
  clients st !! clientId = None →
  (∀ t, Connection clientId t ∉ evs) →
  framesFor clientId (wire (run evs st)) = framesFor clientId (wire st) ∧
  clients (run evs st) !! clientId = None.
Proof.
  revert st. induction evs as [|ev evs IH]; intros st Habs Hnew; [done|].
  change (run (ev :: evs) st) with (run evs (step st ev)).
  assert (Hev : ∀ t, ev ≠ Connection clientId t).
  { intros t ->. apply (Hnew t), list_elem_of_here. }
  pose proof (step_clients_absent st ev clientId Habs Hev) as Habs'.
  destruct (IH (step st ev) Habs') as [Hw Hc].
  { intros t Hin. apply (Hnew t). by apply list_elem_of_further. }
  split; [|done]. rewrite Hw.
  destruct (step_sentTo st ev) as (frames & -> & Hopen).
  unfold framesFor. rewrite filter_app.
  assert (Hnone : filter (λ f : string * Message, f.1 = clientId) frames = []).
  { apply filter_none. eapply Forall_impl; [exact Hopen|]. simpl.
    intros f Ho Hf. rewrite Hf in Ho. unfold openSocket in Ho. congruence. }
  by rewrite Hnone, app_nil_r.
Qed.

(** ** From a change in the store to the subscribers *)

(** X5.  In a schedule in which no two handlers overlap, started once
    the store is connected with change streams on, and in which nothing
    fails, whenever nothing is pending every subscriber with an OPEN
    socket is reached by each change of its owner's document: the owner
    has a registered stream, and a change event with a full document on
    that stream puts one [data_update] frame, carrying the converted
    document, on the wire for each open subscriber and changes nothing
    else.  A change event without a document, or with one that cannot be
    converted, is dropped. *)
Theorem open_subscribers_receive_each_change
    (mongoConfig : CloudStorageConfig) (moves : list Interleaving.Move)
    (userId clientId : string) (data : UserDataStore) (t : Time) :
  changeStreamsEnabled mongoConfig = true →
  Forall quiet (Interleaving.events moves) →
  Interleaving.oneAtATime moves
    (run [ConnectToMongo true] (init mongoConfig), []) = true →
  (Interleaving.play moves (run [ConnectToMongo true] (init mongoConfig))).2 = [] →
  let st := (Interleaving.play moves
               (run [ConnectToMongo true] (init mongoConfig))).1 in
  clientId ∈ subscribers st userId → openSocket st clientId →
  ∃ sid,
    changeStreams (mongoManager st) !! userId = Some sid ∧
    let st' := step st (Change sid (mkChange (Some (WellFormed data))) t) in
    wire st' = wire st ++
               ((λ c, (c, dataUpdate userId data t)) <$> recipients st userId) ∧
    clientId ∈ recipients st userId ∧
    clients st' = clients st ∧ sameCore st st' ∧
    step st (Change sid (mkChange None) t) = st ∧
    step st (Change sid (mkChange (Some IllFormed)) t) = st.
Proof.
  intros Hen Hquiet Hturn Hnone st. unfold st. clear st.
  rewrite (oneAtATime_run moves _ Hturn Hnone).
  set (st := run (Interleaving.events moves) _). intros Hsub Hopen.
  assert (Hun : Forall untroubled (Interleaving.events moves)).
  { eapply Forall_impl; [exact Hquiet|]. by intros ev [Hu _]. }
  assert (Hbal : balanced st).
  { apply run_balanced; [done|]. simpl. apply connect_balanced.
    - apply init_tidy.
    - done.
    - by intros u [s Hs]. }
  assert (Hrun : registeredRunning st).
  { apply run_registeredRunning; [done|]. by intros u sid. }
  destruct Hbal as (Htidy & _ & Hsw).
  assert (Hentry : is_Some (userSubscriptions st !! userId)).
  { apply (sound_entry_iff st userId (proj1 Htidy)). intros Hempty.
    rewrite Hempty in Hsub. by apply not_elem_of_empty in Hsub. }
  destruct (Hsw userId Hentry) as [sid Hsid]. exists sid. split; [done|].
  destruct (Hrun _ _ Hsid) as (cs & Hcs & Hu & Hl).
  cbn zeta. simpl. unfold onChange. rewrite Hcs, Hl. simpl. rewrite Hu.
  destruct (broadcastToUser_effect userId (dataUpdate userId data t) st)
    as (Hc & Hsubs & Hm & Hs & Hw).
  split_and!; try done.
  by apply recipients_spec.
Qed.

(** ** The further properties at concrete inputs *)

Lemma unsubscribing_a_stranger_only_confirms_witness :
  ("c2" ∉ subscribers (Interleaving.play (Interleaving.inTurn
                         (arrivals ++ [subscribe "c1" "acct-1" (calm 1)]))
                         (init enabledConfig)).1 "acct-1") ∧
  (∀ c sid e', Interleaving.InUnsubscription c "acct-1" sid e' ∉
               (Interleaving.play (Interleaving.inTurn
                  (arrivals ++ [subscribe "c1" "acct-1" (calm 1)]))
                  (init enabledConfig)).2) ∧
  Interleaving.begin (unsubscribe "c2" "acct-1" (calm 2))
    (Interleaving.play (Interleaving.inTurn
       (arrivals ++ [subscribe "c1" "acct-1" (calm 1)]))
       (init enabledConfig)).1 =
  (sendMessage "c2" (unsubscriptionConfirmed "acct-1" (now (calm 2)))
     (Interleaving.play (Interleaving.inTurn
        (arrivals ++ [subscribe "c1" "acct-1" (calm 1)]))
        (init enabledConfig)).1, []).
Proof.
  assert (Hstranger : "c2" ∉ subscribers
            (Interleaving.play (Interleaving.inTurn
               (arrivals ++ [subscribe "c1" "acct-1" (calm 1)]))
               (init enabledConfig)).1 "acct-1") by evaluated.
  assert (Hnone : ∀ c sid e', Interleaving.InUnsubscription c "acct-1" sid e' ∉
               (Interleaving.play (Interleaving.inTurn
                  (arrivals ++ [subscribe "c1" "acct-1" (calm 1)]))
                  (init enabledConfig)).2).
  { intros c sid e' Hin. vm_compute in Hin. by apply elem_of_nil in Hin. }
  refine (conj Hstranger (conj Hnone _)).
  exact (proj1 (unsubscribing_a_stranger_only_confirms enabledConfig
                  (Interleaving.inTurn
                     (arrivals ++ [subscribe "c1" "acct-1" (calm 1)]))
                  "c2" "acct-1" (calm 2) Hstranger) Hnone).
Defined.

Lemma stats_count_at_most_one_stream_per_owner_witness :
  Forall closesResolve
    (Interleaving.events (Interleaving.inTurn (ConnectToMongo true :: busyDay))) ∧
  Interleaving.oneAtATime (Interleaving.inTurn (ConnectToMongo true :: busyDay))
    (init enabledConfig, []) = true ∧
  (Interleaving.play (Interleaving.inTurn (ConnectToMongo true :: busyDay))
     (init enabledConfig)).2 = [] ∧
  Forall untroubled
    (Interleaving.events (Interleaving.inTurn (ConnectToMongo true :: busyDay))) ∧
  totalUserSubscriptions
    (getConnectionStats
       (Interleaving.play (Interleaving.inTurn (ConnectToMongo true :: busyDay))
          (init enabledConfig)).1) = 1 ∧
  activeChangeStreams
    (getConnectionStats
       (Interleaving.play (Interleaving.inTurn (ConnectToMongo true :: busyDay))
          (init enabledConfig)).1) =
  totalUserSubscriptions
    (getConnectionStats
       (Interleaving.play (Interleaving.inTurn (ConnectToMongo true :: busyDay))
          (init enabledConfig)).1).
Proof.
  assert (Hcl : Forall closesResolve
            (Interleaving.events
               (Interleaving.inTurn (ConnectToMongo true :: busyDay))))
    by (cbn; settled_events).
  assert (Hun : Forall untroubled
            (Interleaving.events
               (Interleaving.inTurn (ConnectToMongo true :: busyDay))))
    by (cbn; settled_events).
  assert (Hturn : Interleaving.oneAtATime
                    (Interleaving.inTurn (ConnectToMongo true :: busyDay))
                    (init enabledConfig, []) = true)
    by (vm_compute; reflexivity).
  assert (Hnone : (Interleaving.play
                     (Interleaving.inTurn (ConnectToMongo true :: busyDay))
                     (init enabledConfig)).2 = [])
    by (vm_compute; reflexivity).
  refine (conj Hcl (conj Hturn (conj Hnone (conj Hun (conj _ _))))).
  - vm_compute; reflexivity.
  - exact (proj1 (proj2 (proj2 (stats_count_at_most_one_stream_per_owner
                    enabledConfig
                    (Interleaving.inTurn (ConnectToMongo true :: busyDay))
                    Hcl Hturn Hnone)))
             eq_refl Hun eq_refl).
Defined.

Lemma open_subscribers_receive_each_change_witness :
  changeStreamsEnabled enabledConfig = true ∧
  Forall quiet (Interleaving.events (Interleaving.inTurn busyDay)) ∧
  Interleaving.oneAtATime (Interleaving.inTurn busyDay)
    (run [ConnectToMongo true] (init enabledConfig), []) = true ∧
  (Interleaving.play (Interleaving.inTurn busyDay)
     (run [ConnectToMongo true] (init enabledConfig))).2 = [] ∧
  "c2" ∈ subscribers
           (Interleaving.play (Interleaving.inTurn busyDay)
              (run [ConnectToMongo true] (init enabledConfig))).1 "acct-1" ∧
  openSocket (Interleaving.play (Interleaving.inTurn busyDay)
                (run [ConnectToMongo true] (init enabledConfig))).1 "c2" ∧
  ∃ sid,
    changeStreams
      (mongoManager (Interleaving.play (Interleaving.inTurn busyDay)
                       (run [ConnectToMongo true] (init enabledConfig))).1)
      !! "acct-1" = Some sid ∧
    "c2" ∈ recipients
             (Interleaving.play (Interleaving.inTurn busyDay)
                (run [ConnectToMongo true] (init enabledConfig))).1 "acct-1".
Proof.
  assert (Hquiet : Forall quiet (Interleaving.events (Interleaving.inTurn busyDay)))
    by (cbn; settled_events).
  assert (Hturn : Interleaving.oneAtATime (Interleaving.inTurn busyDay)
                    (run [ConnectToMongo true] (init enabledConfig), []) = true)
    by (vm_compute; reflexivity).
  assert (Hnone : (Interleaving.play (Interleaving.inTurn busyDay)
                     (run [ConnectToMongo true] (init enabledConfig))).2 = [])
    by (vm_compute; reflexivity).
  assert (Hsub : "c2" ∈ subscribers
                   (Interleaving.play (Interleaving.inTurn busyDay)
                      (run [ConnectToMongo true] (init enabledConfig))).1 "acct-1")
    by evaluated.
  assert (Hopen : openSocket
                    (Interleaving.play (Interleaving.inTurn busyDay)
                       (run [ConnectToMongo true] (init enabledConfig))).1 "c2")
    by (vm_compute; reflexivity).
  refine (conj eq_refl (conj Hquiet (conj Hturn (conj Hnone
            (conj Hsub (conj Hopen _)))))).
  destruct (open_subscribers_receive_each_change enabledConfig
              (Interleaving.inTurn busyDay) "acct-1" "c2" "books" 8
              eq_refl Hquiet Hturn Hnone Hsub Hopen)
    as (sid & Hsid & _ & Hin & _).
  exists sid. exact (conj Hsid Hin).
Defined.

Lemma store_disconnect_is_all_or_nothing_witness :
  (∀ sid, closeOk (calm 2) sid = true) ∧
  changeStreams (mongoManager (disconnect (calm 2) acct1Watched)) = ∅ ∧
  isConnected (mongoManager (disconnect (calm 2) acct1Watched)) = false.
Proof.
  assert (Hok : ∀ sid, closeOk (calm 2) sid = true) by done.
  refine (conj Hok _).
  destruct (proj1 (proj2 (proj2 (proj2
              (store_disconnect_is_all_or_nothing (calm 2) acct1Watched)))) Hok)
    as (Hempty & _ & Hclosed & _).
  refine (conj Hempty _).
  exact (proj1 (Hclosed eq_refl eq_refl)).
Defined.


Lemma a_departed_client_receives_nothing_witness :
  clients (run quietDay (run [ConnectToMongo true] (init enabledConfig))) !! "c1" = None ∧
  (∀ t, Connection "c1" t ∉ afterwards) ∧
  framesFor "c1"
    (wire (run afterwards
             (run quietDay (run [ConnectToMongo true] (init enabledConfig))))) =
  framesFor "c1"
    (wire (run quietDay (run [ConnectToMongo true] (init enabledConfig)))).
Proof.
  assert (Hgone : clients (run quietDay (run [ConnectToMongo true]
                                             (init enabledConfig))) !! "c1" = None)
    by (vm_compute; reflexivity).
  assert (Hnew : ∀ t, Connection "c1" t ∉ afterwards).
  { intros t Hin. unfold afterwards in Hin.
    repeat (apply elem_of_cons in Hin as [Hin|Hin]; [discriminate|]).
    by apply elem_of_nil in Hin. }
  refine (conj Hgone (conj Hnew _)).
  exact (proj1 (a_departed_client_receives_nothing _ afterwards "c1" Hgone Hnew)).
Defined.

Lemma settled_entries_nonempty_witness :
  (Interleaving.play unsubscribeSettled (init enabledConfig)).2 = [] ∧
  entriesNonEmpty (Interleaving.play unsubscribeSettled (init enabledConfig)).1.
Proof.
  assert (Hnone : (Interleaving.play unsubscribeSettled (init enabledConfig)).2 = [])
    by (vm_compute; reflexivity).
  refine (conj Hnone _).
  exact (settled_entries_nonempty unsubscribeSettled enabledConfig Hnone).
Defined.


(* ================================================================== *)
(** * Properties of the business managers *)

(** ** The first element that matches *)

Section FirstMatch.
Context {A : Type} (P : A → Prop) `{!∀ x, Decision (P x)}.

Lemma find_cons x (l : list A) :
  list_find P (x :: l) =
  if decide (P x) then Some (0, x) else prod_map S id <$> list_find P l.
Proof. done. Qed.


(** Deleting an element that does not match leaves every search result
    what it was. *)
Lemma find_delete_other i x (l : list A) :
  l !! i = Some x → ¬ P x →
  snd <$> list_find P (delete i l) = snd <$> list_find P l.
Proof.
  revert i. induction l as [|y l IH]; intros i Hi Hx; [done|].
  destruct i as [|i].
  - injection Hi as ->. change (delete 0 (x :: l)) with l.
    rewrite find_cons, decide_False by done.
    by destruct (list_find P l) as [[j z]|].
  - change (delete (S i) (y :: l)) with (y :: delete i l).
    rewrite !find_cons. case_decide; [done|]. specialize (IH i Hi Hx).
    destruct (list_find P (delete i l)) as [[j z]|],
             (list_find P l) as [[j' z']|]; simpl in *; congruence.
Qed.

(** Deleting the first match: what is found next is the next match. *)
Lemma find_delete_first i x (l : list A) :
  list_find P l = Some (i, x) →
  snd <$> list_find P (delete i l) = snd <$> list_find P (drop (S i) l).
Proof.
  revert i. induction l as [|y l IH]; intros i; [done|].
  rewrite find_cons. case_decide as Hy.
  - intros [= <- <-]. done.
  - destruct (list_find P l) as [[j z]|] eqn:Hfind; simpl; [|done].
    intros [= <- <-]. change (delete (S j) (y :: l)) with (y :: delete j l).
    rewrite find_cons, decide_False by done.
    change (drop (S (S j)) (y :: l)) with (drop (S j) l).
    specialize (IH j eq_refl).
    destruct (list_find P (delete j l)) as [[j1 z1]|],
             (list_find P (drop (S j) l)) as [[j2 z2]|]; simpl in *; congruence.
Qed.

(** Replacing an element by one that matches exactly when it did. *)
Lemma find_insert i x y (l : list A) :
  l !! i = Some x → (P y ↔ P x) →
  list_find P (<[i:=y]> l) =
  (λ found : nat * A, (found.1, if decide (found.1 = i) then y else found.2))
    <$> list_find P l.
Proof.
  revert i. induction l as [|z l IH]; intros i Hi Hy; [done|].
  destruct i as [|i].
  - injection Hi as ->. change (<[0:=y]> (x :: l)) with (y :: l).
    rewrite !find_cons. rewrite (decide_ext (P y) (P x)) by done.
    case_decide; [done|]. destruct (list_find P l) as [[j w]|]; done.
  - change (<[S i:=y]> (z :: l)) with (z :: <[i:=y]> l).
    rewrite !find_cons, (IH i Hi Hy). case_decide; [done|].
    destruct (list_find P l) as [[j w]|]; simpl; [|done].
    f_equal. f_equal. by repeat case_decide; try lia.
Qed.

Lemma find_snoc x (l : list A) :
  snd <$> list_find P (l ++ [x]) =
  match list_find P l with
  | Some found => Some found.2
  | None => if decide (P x) then Some x else None
  end.
Proof.
  destruct (list_find P l) as [[i y]|] eqn:Hfind.
  - by rewrite (list_find_app_l P l [x] i y Hfind).
  - rewrite list_find_app_r by done. simpl. by case_decide.
Qed.

Lemma find_is_Some (l : list A) :
  is_Some (list_find P l) ↔ ∃ x, x ∈ l ∧ P x.
Proof.
  split.
  - intros [[i x] Hfind]. apply list_find_Some in Hfind as (Hi & Hx & _).
    exists x. split; [|done]. by eapply list_elem_of_lookup_2.
  - intros (x & Hin & Hx). by eapply list_find_elem_of.
Qed.
End FirstMatch.


Lemma delete_app_left {A} i (l k : list A) :
  i < length l → delete i (l ++ k) = delete i l ++ k.
Proof.
  revert i. induction l as [|x l IH]; intros i Hi; simpl in Hi; [lia|].
  destruct i as [|i]; [done|].
  change (delete (S i) ((x :: l) ++ k)) with (x :: delete i (l ++ k)).
  rewrite IH by lia. done.
Qed.

(** ** [PaymentManager] *)

Section Payments.
Context {N : Type} `{JSNumber N}.
Implicit Types s : PaymentManager.t N.

Lemma getPayment_is_Some paymentId s :
  is_Some (PaymentManager.getPayment paymentId s) ↔
  ∃ p, p ∈ s ∧ Payment.id p = paymentId.
Proof.
  unfold PaymentManager.getPayment, PaymentManager.index.
  rewrite fmap_is_Some. apply find_is_Some.
Qed.

Lemma getPayment_None paymentId s :
  PaymentManager.getPayment paymentId s = None ↔
  Forall (λ p, Payment.id p ≠ paymentId) s.
Proof.
  unfold PaymentManager.getPayment, PaymentManager.index.
  rewrite fmap_None. apply list_find_None.
Qed.

(** X10.  [createPayment] appends one payment, pending, for the challan,
    customer and amount given.  Looking a payment up by identifier
    afterwards finds what was found before, and finds the new payment
    under its identifier unless an older payment has the same one: with a
    fresh identifier the new payment is found. *)
Theorem a_created_payment_is_pending_and_found
    (challanId customerId : string) (amount : N) (method : Payment.Method)
    (referenceNumber notes : option string) (o : Outside) s :
  let created := PaymentManager.createPayment challanId customerId amount method
                   referenceNumber notes o s in
  let p := created.2 in
  created.1 = s ++ [p] ∧
  Payment.status p = Payment.pending ∧
  Payment.challanId p = challanId ∧ Payment.customerId p = customerId ∧
  Payment.amount p = amount ∧
  (∀ paymentId,
     PaymentManager.getPayment paymentId created.1 =
     match PaymentManager.getPayment paymentId s with
     | Some older => Some older
     | None => if decide (Payment.id p = paymentId) then Some p else None
     end) ∧
  (Forall (λ q, Payment.id q ≠ Payment.id p) s →
   PaymentManager.getPayment (Payment.id p) created.1 = Some p).
Proof.
  intros created p.
  assert (Hget : ∀ paymentId,
             PaymentManager.getPayment paymentId created.1 =
             match PaymentManager.getPayment paymentId s with
             | Some older => Some older
             | None => if decide (Payment.id p = paymentId) then Some p else None
             end).
  { intros paymentId. unfold PaymentManager.getPayment, PaymentManager.index.
    simpl. rewrite find_snoc.
    by destruct (list_find _ s) as [[i q]|]. }
  split_and!; try done.
  intros Hfresh. rewrite Hget.
  apply getPayment_None in Hfresh. rewrite Hfresh. by rewrite decide_True.
Qed.


(** X12.  [deletePayment] returns [false] and changes nothing when no
    payment has the identifier.  Otherwise it removes exactly one
    payment, the first with that identifier: the payments before it,
    none of which has the identifier, and the payments after it, of which
    some may, are left as they were and in their order.  Lookups of other
    identifiers find what they found before, and when identifiers are
    unique the deleted one is found no more. *)
Theorem deletePayment_removes_the_first_match (paymentId : string) s :
  let deleted := PaymentManager.deletePayment paymentId s in
  (deleted.2 = true ↔ ∃ p, p ∈ s ∧ Payment.id p = paymentId) ∧
  (deleted.2 = false → deleted.1 = s) ∧
  (deleted.2 = true → length s = S (length deleted.1)) ∧
  (deleted.2 = true →
   ∃ before p after,
     s = before ++ p :: after ∧ Payment.id p = paymentId ∧
     Forall (λ q, Payment.id q ≠ paymentId) before ∧
     deleted.1 = before ++ after) ∧
  (∀ other, other ≠ paymentId →
            PaymentManager.getPayment other deleted.1 =
            PaymentManager.getPayment other s) ∧
  (NoDup (Payment.id <$> s) →
   PaymentManager.getPayment paymentId deleted.1 = None).
Proof.
  intros deleted. unfold deleted, PaymentManager.deletePayment.
  pose proof (getPayment_is_Some paymentId s) as Hsome.
  unfold PaymentManager.getPayment in *.
  destruct (PaymentManager.index paymentId s) as [[i p]|] eqn:Hfind; simpl.
  - apply list_find_Some in Hfind as Hi. destruct Hi as (Hi & Hid & Hfirst).
    split_and!.
    + split; [intros _; apply Hsome; by eexists|done].
    + done.
    + intros _. rewrite length_delete by eauto.
      apply lookup_lt_Some in Hi. lia.
    + intros _. exists (take i s), p, (drop (S i) s). split_and!.
      * by rewrite take_drop_middle.
      * done.
      * apply Forall_lookup_2. intros j q Hj.
        apply lookup_take_Some in Hj as [Hj Hlt]. by eapply Hfirst.
      * apply delete_take_drop.
    + intros other Hother. unfold PaymentManager.index.
      apply (find_delete_other _ i p); [done|congruence].
    + intros Hnodup. unfold PaymentManager.index.
      rewrite (find_delete_first _ i p) by done.
      apply fmap_None, list_find_None, Forall_forall. intros q Hq Hqid.
      apply list_elem_of_lookup in Hq as [j Hj].
      rewrite lookup_drop in Hj.
      assert (Hinj : S i + j = i); [|lia].
      eapply (NoDup_lookup _ _ _ _ Hnodup).
      * by rewrite list_lookup_fmap, Hj.
      * rewrite list_lookup_fmap, Hi. simpl. congruence.
  - split_and!; try done.
    + split; [done|]. intros Hex. apply Hsome in Hex. by destruct Hex.
    + intros _. apply fmap_None. exact Hfind.
Qed.

Lemma amountOf_snoc status s p :
  PaymentManager.amountOf status (s ++ [p]) =
  if decide (Payment.status p = status)
  then jsAdd (PaymentManager.amountOf status s) (Payment.amount p)
  else PaymentManager.amountOf status s.
Proof.
  unfold PaymentManager.amountOf, PaymentManager.getPaymentsByStatus.
  rewrite filter_app, filter_cons, filter_nil.
  case_decide; [|by rewrite app_nil_r]. by rewrite foldl_app.
Qed.

Lemma count_snoc status s p :
  length (PaymentManager.getPaymentsByStatus status (s ++ [p])) =
  if decide (Payment.status p = status)
  then S (length (PaymentManager.getPaymentsByStatus status s))
  else length (PaymentManager.getPaymentsByStatus status s).
Proof.
  unfold PaymentManager.getPaymentsByStatus.
  rewrite filter_app, filter_cons, filter_nil, length_app.
  case_decide; simpl; lia.
Qed.

(** X13.  A payment just created is counted as pending and as nothing
    else: [getPaymentStats] has one more payment and one more pending
    payment, its pending amount (also [getPendingRevenue]) is the former
    one plus the new amount, and the completed, failed and refunded
    counts and the revenue are what they were. *)
Lemma countPayment_loop (payments : list (Payment.t N))
    (stats : Payment.Method → nat * N) (method : Payment.Method) :
  foldl PaymentManager.countPayment stats payments method =
  ((stats method).1 +
     length (filter (λ p, Payment.paymentMethod p = method) payments),
   foldl (λ sum p, jsAdd sum (Payment.amount p)) (stats method).2
         (filter (λ p, Payment.paymentMethod p = method) payments)).
Proof.
  revert stats. induction payments as [|p payments IH]; intros stats.
  { simpl. rewrite Nat.add_0_r. by destruct (stats method). }
  cbn [foldl]. rewrite IH, filter_cons. unfold PaymentManager.countPayment.
  destruct (decide (method = Payment.paymentMethod p)) as [->|Hne].
  - rewrite decide_True by done. simpl. f_equal. lia.
  - by rewrite decide_False by done.
Qed.

Lemma payments_by_method (payments : list (Payment.t N)) :
  length payments =
  length (filter (λ p, Payment.paymentMethod p = Payment.cash) payments) +
  length (filter (λ p, Payment.paymentMethod p = Payment.card) payments) +
  length (filter (λ p, Payment.paymentMethod p = Payment.bank_transfer) payments) +
  length (filter (λ p, Payment.paymentMethod p = Payment.upi) payments) +
  length (filter (λ p, Payment.paymentMethod p = Payment.cheque) payments).
Proof.
  induction payments as [|p payments IH]; [done|]. rewrite !filter_cons.
  destruct (Payment.paymentMethod p); simpl; lia.
Qed.

(** X24.  [getPaymentStatsByMethod] looks at the completed payments only:
    for each method the count is the number of completed payments made by
    it and the amount is the sum, from 0 and in order, of their amounts;
    the five counts add up to the number of completed payments that
    [getPaymentStats] reports. *)
Theorem stats_by_method_cover_the_completed_payments s :
  let stats := PaymentManager.getPaymentStatsByMethod s in
  (∀ method,
     (stats method).1 = length (PaymentManager.completedBy method s) ∧
     (stats method).2 =
       foldl (λ sum p, jsAdd sum (Payment.amount p)) jsZero
             (PaymentManager.completedBy method s)) ∧
  (stats Payment.cash).1 + (stats Payment.card).1 +
  (stats Payment.bank_transfer).1 + (stats Payment.upi).1 +
  (stats Payment.cheque).1 =
  PaymentManager.completedPayments (PaymentManager.getPaymentStats s).
Proof.
  intros stats.
  assert (Hstats : ∀ method,
            stats method =
            (length (PaymentManager.completedBy method s),
             foldl (λ sum p, jsAdd sum (Payment.amount p)) jsZero
                   (PaymentManager.completedBy method s))).
  { intros method. unfold stats, PaymentManager.getPaymentStatsByMethod.
    by rewrite countPayment_loop. }
  split.
  - intros method. by rewrite Hstats.
  - rewrite !Hstats. simpl. unfold PaymentManager.completedBy.
    symmetry. apply payments_by_method.
Qed.

Theorem a_new_payment_counts_as_pending_only
    (challanId customerId : string) (amount : N) (method : Payment.Method)
    (referenceNumber notes : option string) (o : Outside) s :
  let before := PaymentManager.getPaymentStats s in
  let after :=
    PaymentManager.getPaymentStats
      (PaymentManager.createPayment challanId customerId amount method
         referenceNumber notes o s).1 in
  after =
  PaymentManager.mkStats
    (S (PaymentManager.totalPayments before))
    (S (PaymentManager.pendingPayments before))
    (PaymentManager.completedPayments before)
    (PaymentManager.failedPayments before)
    (PaymentManager.refundedPayments before)
    (PaymentManager.totalAmount before)
    (jsAdd (PaymentManager.pendingAmount before) amount) ∧
  PaymentManager.getTotalRevenue
    (PaymentManager.createPayment challanId customerId amount method
       referenceNumber notes o s).1 = PaymentManager.getTotalRevenue s ∧
  PaymentManager.getPendingRevenue
    (PaymentManager.createPayment challanId customerId amount method
       referenceNumber notes o s).1 =
  jsAdd (PaymentManager.getPendingRevenue s) amount.
Proof.
  intros before after. unfold after, before, PaymentManager.getPaymentStats,
    PaymentManager.getTotalRevenue, PaymentManager.getPendingRevenue.
  cbn [PaymentManager.createPayment fst].
  rewrite !amountOf_snoc, !count_snoc, length_app. simpl.
  split; [|done]. f_equal. lia.
Qed.

Lemma count_alter {A} (P : A → Prop) `{!∀ x, Decision (P x)} (g : A → A) i x
    (l : list A) :
  l !! i = Some x →
  length (filter P (alter g i l)) + (if decide (P x) then 1 else 0) =
  length (filter P l) + (if decide (P (g x)) then 1 else 0).
Proof.
  revert i. induction l as [|y l IH]; intros [|i] Hi; try done.
  - injection Hi as ->. change (alter g 0 (x :: l)) with (g x :: l).
    rewrite !filter_cons. repeat case_decide; simpl; lia.
  - change (alter g (S i) (y :: l)) with (y :: alter g i l).
    rewrite !filter_cons. specialize (IH i Hi).
    repeat case_decide; simpl in *; lia.
Qed.

(** X25.  Updating the status of a payment moves that payment, and no
    other, from the count of its former status to the count of the new
    one in [getPaymentStats]; the number of payments stays. *)
Theorem a_status_update_moves_one_payment_between_the_counts
    (paymentId : string) (status : Payment.Status) (now : Time) s p :
  PaymentManager.getPayment paymentId s = Some p →
  let s' := (PaymentManager.updatePaymentStatus paymentId status now s).1 in
  PaymentManager.totalPayments (PaymentManager.getPaymentStats s') =
  PaymentManager.totalPayments (PaymentManager.getPaymentStats s) ∧
  ∀ counted,
    length (PaymentManager.getPaymentsByStatus counted s') +
    (if decide (Payment.status p = counted) then 1 else 0) =
    length (PaymentManager.getPaymentsByStatus counted s) +
    (if decide (status = counted) then 1 else 0).
Proof.
  unfold PaymentManager.getPayment, PaymentManager.updatePaymentStatus.
  destruct (PaymentManager.index paymentId s) as [[i q]|] eqn:Hfind; [|done].
  simpl. intros [= ->].
  apply list_find_Some in Hfind as (Hi & _). split.
  - apply length_alter.
  - intros counted. unfold PaymentManager.getPaymentsByStatus.
    pose proof (count_alter (λ q, Payment.status q = counted)
                  (PaymentManager.setStatus status now) i p s Hi) as Hcount.
    simpl in Hcount. exact Hcount.
Qed.
End Payments.

(** ** [ChallanManager] *)

Section Challans.
Context {N : Type} `{JSNumber N}.
Implicit Types s : ChallanManager.t N.

Lemma withoutName_named (items : list (Challan.itemInput N)) :
  Challan.withoutName <$> (ChallanManager.named <$> items) = items.
Proof.
  induction items as [|[] items IH]; [done|].
  rewrite !fmap_cons, IH. done.
Qed.

Lemma createChallan_consistent customerId customerName items notes o s :
  ChallanManager.consistent
    (ChallanManager.createChallan customerId customerName items notes o s).2.
Proof.
  unfold ChallanManager.consistent. simpl. by rewrite withoutName_named.
Qed.

Lemma call_consistent s c :
  Forall ChallanManager.consistent s →
  Forall ChallanManager.consistent (ChallanManager.call s c).
Proof.
  intros Hs. destruct c; simpl.
  - apply Forall_app. split; [done|]. apply Forall_singleton.
    apply (createChallan_consistent customerId customerName items notes o s).
  - unfold ChallanManager.updateChallanStatus.
    destruct (ChallanManager.index challanId s) as [[i c]|]; [|done].
    by apply Forall_alter.
  - unfold ChallanManager.updateChallanItems.
    destruct (ChallanManager.index challanId s) as [[i c]|]; [|done].
    by apply Forall_alter.
  - unfold ChallanManager.addChallanNotes.
    destruct (ChallanManager.index challanId s) as [[i c]|]; [|done].
    by apply Forall_alter.
  - unfold ChallanManager.deleteChallan.
    destruct (ChallanManager.index challanId s) as [[i c]|]; [|done].
    by apply Forall_delete.
Qed.

(** X14.  If the challans a [ChallanManager] is built on have totals
    that agree with their items, then so has every challan after any
    sequence of [createChallan], [updateChallanStatus],
    [updateChallanItems], [addChallanNotes] and [deleteChallan]:
    [totalAmount] is the sum, from 0 and in order, of quantity times
    daily rate over the items the challan lists. *)
Theorem challan_totals_follow_the_items
    (challans : option (list (Challan.t N))) (calls : list (ChallanManager.Call N)) :
  Forall ChallanManager.consistent (default [] challans) →
  Forall ChallanManager.consistent
         (foldl ChallanManager.call (ChallanManager.new challans) calls).
Proof.
  unfold ChallanManager.new. generalize (default [] challans). intros s.
  revert s. induction calls as [|c calls IH]; intros s Hs; [done|].
  simpl. by apply IH, call_consistent.
Qed.

Lemma index_older challanId s (c : Challan.t N) :
  is_Some (ChallanManager.getChallan challanId s) →
  ∃ i, ChallanManager.index challanId (s ++ [c]) = ChallanManager.index challanId s ∧
       fst <$> ChallanManager.index challanId s = Some i ∧ i < length s.
Proof.
  unfold ChallanManager.getChallan. rewrite fmap_is_Some.
  intros [[i d] Hfind]. exists i. unfold ChallanManager.index in *.
  rewrite (list_find_app_l _ s [c] i d Hfind), Hfind. split; [done|].
  split; [done|]. apply list_find_Some in Hfind as (Hi & _).
  by eapply lookup_lt_Some.
Qed.

(** X15.  Challan numbers count the challans held, not the challans
    created: when a challan is created, an older one is deleted, and
    another is created in the same month, the two created challans stand
    next to each other in the list with the same [challanNumber]. *)
Theorem challan_numbers_repeat_after_a_deletion
    (customerId1 customerName1 customerId2 customerName2 victim : string)
    (items1 items2 : list (Challan.itemInput N)) (notes1 notes2 : option string)
    (o1 o2 : Outside) s :
  let first := ChallanManager.createChallan customerId1 customerName1 items1
                 notes1 o1 s in
  let deleted := ChallanManager.deleteChallan victim first.1 in
  let second := ChallanManager.createChallan customerId2 customerName2 items2
                  notes2 o2 deleted.1 in
  is_Some (ChallanManager.getChallan victim s) →
  fullYear o1 = fullYear o2 → month o1 = month o2 →
  Challan.challanNumber second.2 = Challan.challanNumber first.2 ∧
  second.1 !! (length s - 1) = Some first.2 ∧
  second.1 !! length s = Some second.2.
Proof.
  intros first deleted second Hvictim Hyear Hmonth.
  destruct (index_older victim s first.2 Hvictim) as (i & Hsame & Hi & Hlt).
  assert (Hdeleted : deleted.1 = delete i s ++ [first.2]).
  { unfold deleted, ChallanManager.deleteChallan.
    change first.1 with (s ++ [first.2]). rewrite Hsame.
    destruct (ChallanManager.index victim s) as [[j d]|]; [|done].
    injection Hi as ->. simpl. by rewrite delete_app_left. }
  assert (Hlen : length (delete i s) = length s - 1).
  { apply length_delete, lookup_lt_is_Some. lia. }
  assert (Hcount : length deleted.1 = length s).
  { rewrite Hdeleted, length_app, Hlen. simpl. lia. }
  split_and!.
  - simpl. unfold ChallanManager.generateChallanNumber.
    rewrite Hcount. fold first. by rewrite Hyear, Hmonth.
  - change second.1 with (deleted.1 ++ [second.2]).
    rewrite lookup_app_l by lia. rewrite Hdeleted.
    rewrite lookup_app_r by lia. by rewrite Hlen, Nat.sub_diag.
  - change second.1 with (deleted.1 ++ [second.2]).
    rewrite lookup_app_r by lia. by rewrite Hcount, Nat.sub_diag.
Qed.
End Challans.

(** ** [Map] *)

Section Maps.
Context {V : Type}.
Implicit Types m : JSMap.t V.

Lemma JSMap_has_get k m : JSMap.has k m = true ↔ is_Some (JSMap.get k m).
Proof.
  unfold JSMap.has, JSMap.get. rewrite bool_decide_eq_true. by rewrite fmap_is_Some.
Qed.

Lemma JSMap_get_keys k m : is_Some (JSMap.get k m) ↔ k ∈ JSMap.keys m.
Proof.
  unfold JSMap.get, JSMap.index, JSMap.keys. rewrite fmap_is_Some, find_is_Some.
  rewrite list_elem_of_fmap. split.
  - intros (kv & Hin & Hk). by exists kv.
  - intros (kv & Hk & Hin). by exists kv.
Qed.

Lemma JSMap_get_elem_of k v m : JSMap.get k m = Some v → (k, v) ∈ m.
Proof.
  unfold JSMap.get, JSMap.index. intros ([i [k' v']] & Hfind & Hv)%fmap_Some.
  apply list_find_Some in Hfind as (Hi & Hk & _). simpl in *. subst.
  by eapply list_elem_of_lookup_2.
Qed.

Lemma JSMap_elem_of_get k v m : NoDup (JSMap.keys m) → (k, v) ∈ m → JSMap.get k m = Some v.
Proof.
  intros Hnodup Hin. destruct (JSMap.get k m) as [v'|] eqn:Hget.
  - apply JSMap_get_elem_of in Hget.
    apply list_elem_of_lookup in Hin as [i Hi], Hget as [j Hj].
    assert (i = j) as ->; [|congruence].
    eapply (NoDup_lookup _ _ _ k Hnodup); unfold JSMap.keys;
      rewrite list_lookup_fmap; [by rewrite Hi|by rewrite Hj].
  - exfalso. apply eq_None_not_Some in Hget. apply Hget, JSMap_get_keys.
    unfold JSMap.keys. apply list_elem_of_fmap. by exists (k, v).
Qed.

Lemma JSMap_get_set k k' v m :
  JSMap.get k' (JSMap.set k v m) =
  if decide (k' = k) then Some v else JSMap.get k' m.
Proof.
  unfold JSMap.set, JSMap.get, JSMap.index.
  destruct (list_find (λ kv : string * V, kv.1 = k) m) as [[i [k0 v0]]|] eqn:Hfind.
  - apply list_find_Some in Hfind as Hi. destruct Hi as (Hi & Hk & _).
    simpl in Hk. subst k0.
    rewrite (find_insert _ i (k, v0) (k, v)) by done.
    case_decide as Hk'.
    + subst k'. rewrite Hfind. simpl. by rewrite decide_True.
    + destruct (list_find (λ kv : string * V, kv.1 = k') m) as [[j [k1 v1]]|] eqn:Hj;
        simpl; [|done].
      rewrite decide_False; [done|]. intros ->.
      apply list_find_Some in Hj as (Hj & Hk1 & _). simpl in *. congruence.
  - generalize (find_snoc (λ kv : string * V, kv.1 = k') (k, v) m). simpl.
    destruct (list_find _ (m ++ [(k, v)])) as [[j [k1 v1]]|] eqn:Hj,
             (list_find (λ kv : string * V, kv.1 = k') m) as [[j' [k2 v2]]|] eqn:Hj';
      simpl.
    + intros [= -> ->]. rewrite decide_False; [done|]. intros ->.
      apply list_find_None in Hfind.
      apply list_find_Some in Hj' as (Hj' & Hk2 & _).
      eapply Forall_lookup_1 in Hfind; [|done]. done.
    + case_decide; [|done]. intros [= -> ->]. by rewrite decide_True.
    + done.
    + case_decide as Hk; [done|]. intros _. by rewrite decide_False by congruence.
Qed.

Lemma JSMap_keys_set k v m :
  JSMap.keys (JSMap.set k v m) =
  if JSMap.has k m then JSMap.keys m else JSMap.keys m ++ [k].
Proof.
  unfold JSMap.set, JSMap.has, JSMap.keys.
  destruct (JSMap.index k m) as [[i [k0 v0]]|] eqn:Hfind.
  - rewrite bool_decide_eq_true_2 by eauto.
    apply list_find_Some in Hfind as (Hi & Hk & _). simpl in Hk. subst k0.
    rewrite list_fmap_insert. apply list_insert_id.
    by rewrite list_lookup_fmap, Hi.
  - rewrite bool_decide_eq_false_2 by (by intros [? ?]).
    by rewrite fmap_app.
Qed.

Lemma JSMap_set_NoDup k v m :
  NoDup (JSMap.keys m) → NoDup (JSMap.keys (JSMap.set k v m)).
Proof.
  intros Hnodup. rewrite JSMap_keys_set.
  destruct (JSMap.has k m) eqn:Hhas; [done|].
  apply NoDup_app. split; [done|]. split; [|apply NoDup_singleton].
  intros k' Hin ->%list_elem_of_singleton.
  apply JSMap_get_keys, JSMap_has_get in Hin. congruence.
Qed.

Lemma JSMap_set_absent k v m : JSMap.has k m = false → JSMap.set k v m = m ++ [(k, v)].
Proof.
  unfold JSMap.has, JSMap.set. intros Hhas%bool_decide_eq_false.
  destruct (JSMap.index k m) as [[i kv]|]; [|done]. destruct Hhas. by eexists.
Qed.
End Maps.

(** ** [CustomerManager] *)

Section Customers.
Context {N : Type}.
Implicit Types m : CustomerManager.t N.
Implicit Types c : Customer.t N.

Lemma addCustomer_get c m id :
  CustomerManager.getCustomer id (CustomerManager.addCustomer c m).1 =
  match CustomerManager.getCustomer id m with
  | Some older => Some older
  | None => if decide (Customer.id c = id) then Some c else None
  end.
Proof.
  unfold CustomerManager.addCustomer, CustomerManager.getCustomer.
  destruct (JSMap.has (Customer.id c) m) eqn:Hhas; simpl.
  - destruct (JSMap.get id m) eqn:Hget; [done|].
    rewrite decide_False; [done|]. intros Hid. subst id.
    apply JSMap_has_get in Hhas. rewrite Hget in Hhas. by destruct Hhas.
  - rewrite JSMap_get_set. case_decide as Hid.
    + subst id. destruct (JSMap.get (Customer.id c) m) eqn:Hget.
      * assert (JSMap.has (Customer.id c) m = true) by (apply JSMap_has_get; eauto).
        congruence.
      * by rewrite decide_True.
    + destruct (JSMap.get id m); [done|]. by rewrite decide_False by congruence.
Qed.

Lemma addCustomer_wellKeyed c m :
  CustomerManager.wellKeyed m →
  CustomerManager.wellKeyed (CustomerManager.addCustomer c m).1.
Proof.
  intros [Hnodup Hkeyed]. unfold CustomerManager.addCustomer.
  destruct (JSMap.has (Customer.id c) m) eqn:Hhas; simpl; [done|]. split.
  - by apply JSMap_set_NoDup.
  - rewrite JSMap_set_absent by done. apply Forall_app. split; [done|].
    by apply Forall_singleton.
Qed.

Lemma new_loop (customers : list (Customer.t N)) m id :
  CustomerManager.getCustomer id
    (foldl (λ m c, (CustomerManager.addCustomer c m).1) m customers) =
  match CustomerManager.getCustomer id m with
  | Some older => Some older
  | None => snd <$> list_find (λ c, Customer.id c = id) customers
  end.
Proof.
  revert m. induction customers as [|c customers IH]; intros m; simpl.
  { by destruct (CustomerManager.getCustomer id m). }
  rewrite IH, addCustomer_get.
  destruct (CustomerManager.getCustomer id m); [done|].
  case_decide; [done|]. by destruct (list_find _ customers) as [[i c']|].
Qed.

Lemma new_loop_wellKeyed (customers : list (Customer.t N)) m :
  CustomerManager.wellKeyed m →
  CustomerManager.wellKeyed
    (foldl (λ m c, (CustomerManager.addCustomer c m).1) m customers).
Proof.
  revert m. induction customers as [|c customers IH]; intros m Hm; [done|].
  simpl. by apply IH, addCustomer_wellKeyed.
Qed.

(** X16.  [addCustomer] never overwrites: it returns [false] and changes
    nothing when a customer is stored under the identifier, and otherwise
    puts the customer last, where [getCustomer] finds it.  Of the
    customers handed to the constructor, the first of each identifier is
    the one kept, each stored once under its own identifier. *)
Theorem the_first_customer_of_an_id_is_kept
    (customers : list (Customer.t N)) (c : Customer.t N) m :
  let added := CustomerManager.addCustomer c m in
  (added.2 = false ↔ is_Some (CustomerManager.getCustomer (Customer.id c) m)) ∧
  (added.2 = false → added.1 = m) ∧
  (added.2 = true →
   added.1 = m ++ [(Customer.id c, c)] ∧
   CustomerManager.getCustomer (Customer.id c) added.1 = Some c) ∧
  (∀ id, CustomerManager.getCustomer id (CustomerManager.new (Some customers)) =
         snd <$> list_find (λ c', Customer.id c' = id) customers) ∧
  CustomerManager.wellKeyed (CustomerManager.new (Some customers)).
Proof.
  intros added. unfold added.
  pose proof (addCustomer_get c m (Customer.id c)) as Hget.
  unfold CustomerManager.addCustomer in *.
  destruct (JSMap.has (Customer.id c) m) eqn:Hhas; simpl in *.
  - apply JSMap_has_get in Hhas. split_and!; try done.
    + intros id. apply (new_loop customers [] id).
    + apply new_loop_wellKeyed. split; [apply NoDup_nil_2|done].
  - assert (Hnone : CustomerManager.getCustomer (Customer.id c) m = None).
    { apply eq_None_not_Some. intros Hsome. apply JSMap_has_get in Hsome.
      congruence. }
    split_and!; try done.
    + split; [done|]. rewrite Hnone. by intros [? ?].
    + intros _. split; [by apply JSMap_set_absent|].
      by rewrite Hget, Hnone, decide_True.
    + intros id. apply (new_loop customers [] id).
    + apply new_loop_wellKeyed. split; [apply NoDup_nil_2|done].
Qed.

Lemma updateCustomer_spec id updates m c :
  CustomerManager.getCustomer id m = Some c →
  ∃ i, JSMap.index id m = Some (i, (id, c)) ∧
       CustomerManager.updateCustomer id updates m =
       (<[i := (id, Customer.merge c updates)]> m, true).
Proof.
  unfold CustomerManager.getCustomer, CustomerManager.updateCustomer, JSMap.get,
    JSMap.set.
  destruct (JSMap.index id m) as [[i [k c']]|] eqn:Hfind; simpl; [|done].
  intros [= ->]. exists i.
  apply list_find_Some in Hfind as (Hi & Hk & _). simpl in Hk. by subst k.
Qed.

Lemma index_insert_first id i c c' m :
  JSMap.index id m = Some (i, (id, c)) →
  JSMap.index id (<[i := (id, c')]> m) = Some (i, (id, c')).
Proof.
  intros Hfind. unfold JSMap.index in *.
  apply list_find_Some in Hfind as Hi. destruct Hi as (Hi & _).
  rewrite (find_insert _ i (id, c) (id, c')) by done.
  rewrite Hfind. simpl. by rewrite decide_True.
Qed.

Lemma get_insert_other id i c c' m other :
  m !! i = Some (id, c) → other ≠ id →
  CustomerManager.getCustomer other (<[i := (id, c')]> m) =
  CustomerManager.getCustomer other m.
Proof.
  intros Hi Hother. unfold CustomerManager.getCustomer, JSMap.get, JSMap.index.
  rewrite (find_insert _ i (id, c) (id, c')) by done.
  destruct (list_find (λ kv : string * Customer.t N, kv.1 = other) m)
    as [[j [k d]]|] eqn:Hj; simpl; [|done].
  rewrite decide_False; [done|]. intros ->.
  apply list_find_Some in Hj as (Hj & Hk & _). simpl in Hk. congruence.
Qed.

(** X17.  [deactivateCustomer] on a stored customer succeeds, keeps the
    keys and their order and every other customer; the customer is still
    found by [getCustomer] and listed by [getAllCustomers(false)], now
    inactive, and is missing from [getAllCustomers()].  If the customer
    was active, [activateCustomer] then gives back the manager exactly as
    it was. *)
Theorem reactivating_restores_a_customer (id : string) m c :
  CustomerManager.getCustomer id m = Some c →
  let off := CustomerManager.deactivateCustomer id m in
  off.2 = true ∧
  JSMap.keys off.1 = JSMap.keys m ∧
  (∃ c', CustomerManager.getCustomer id off.1 = Some c' ∧
         Customer.isActive c' = false ∧
         (c' ∉ CustomerManager.getAllCustomers true off.1) ∧
         c' ∈ CustomerManager.getAllCustomers false off.1) ∧
  (∀ other, other ≠ id →
            CustomerManager.getCustomer other off.1 =
            CustomerManager.getCustomer other m) ∧
  (Customer.isActive c = true →
   CustomerManager.activateCustomer id off.1 = (m, true)).
Proof.
  intros Hget off. unfold off, CustomerManager.deactivateCustomer.
  destruct (updateCustomer_spec id
              (Customer.mkPartial None None None None None None None (Some false))
              m c Hget) as (i & Hfind & ->).
  set (c' := Customer.merge c
               (Customer.mkPartial None None None None None None None (Some false))).
  cbn [fst snd].
  assert (Hi : m !! i = Some (id, c)).
  { by apply list_find_Some in Hfind as (Hi & _). }
  pose proof (index_insert_first id i c c' m Hfind) as Hfind'.
  assert (Hoff : CustomerManager.getCustomer id (<[i:=(id, c')]> m) = Some c').
  { unfold CustomerManager.getCustomer, JSMap.get. by rewrite Hfind'. }
  split_and!.
  - done.
  - unfold JSMap.keys. rewrite list_fmap_insert. apply list_insert_id.
    by rewrite list_lookup_fmap, Hi.
  - exists c'. split; [done|]. split; [done|]. split.
    + unfold CustomerManager.getAllCustomers. rewrite list_elem_of_filter.
      by intros [Hactive _].
    + unfold CustomerManager.getAllCustomers, JSMap.values.
      apply list_elem_of_fmap. exists (id, c'). split; [done|].
      apply list_elem_of_lookup. exists i.
      apply list_lookup_insert_eq. by eapply lookup_lt_Some.
  - intros other Hother. by apply (get_insert_other id i c c' m other).
  - intros Hactive. unfold CustomerManager.activateCustomer,
      CustomerManager.updateCustomer, JSMap.get, JSMap.set.
    rewrite Hfind'. simpl. f_equal.
    rewrite list_insert_insert_eq. apply list_insert_id. rewrite Hi. f_equal.
    f_equal. destruct c. simpl in *. by subst.
Qed.
End Customers.

(** ** [RentalItemManager] *)

Lemma sum_list_insert (l : list nat) i x y :
  l !! i = Some x → sum_list (<[i:=y]> l) + x = sum_list l + y.
Proof.
  revert i. induction l as [|z l IH]; intros [|i] Hi; try done; simpl in *.
  - injection Hi as ->. lia.
  - specialize (IH i Hi). lia.
Qed.

Section Items.
Context {N : Type}.
Implicit Types m : RentalItemManager.t N.

(** One turn of the loop of [getItemCountByCategory]. *)
Lemma count_turn (category : string) (counts : JSMap.t nat) :
  let counts' := JSMap.set category (default 0 (JSMap.get category counts) + 1)
                           counts in
  (∀ other, default 0 (JSMap.get other counts') =
            default 0 (JSMap.get other counts) +
            (if decide (other = category) then 1 else 0)) ∧
  sum_list (JSMap.values counts') = S (sum_list (JSMap.values counts)) ∧
  (NoDup (JSMap.keys counts) → NoDup (JSMap.keys counts')) ∧
  (Forall (λ kv, 0 < kv.2) counts → Forall (λ kv, 0 < kv.2) counts').
Proof.
  intros counts'. split_and!.
  - intros other. unfold counts'. rewrite JSMap_get_set.
    case_decide; [by subst|]. lia.
  - unfold counts', JSMap.set, JSMap.get, JSMap.values.
    destruct (JSMap.index category counts) as [[i [k n]]|] eqn:Hfind; simpl.
    + apply list_find_Some in Hfind as (Hi & _).
      rewrite list_fmap_insert. simpl.
      pose proof (sum_list_insert (counts.*2) i n (n + 1)) as Hsum.
      rewrite list_lookup_fmap, Hi in Hsum. specialize (Hsum eq_refl). lia.
    + rewrite fmap_app, sum_list_with_app. simpl. lia.
  - apply JSMap_set_NoDup.
  - intros Hpos. unfold counts', JSMap.set.
    destruct (JSMap.index category counts) as [[i [k n]]|] eqn:Hfind.
    + apply Forall_insert; [done|]. simpl. lia.
    + apply Forall_app. split; [done|]. apply Forall_singleton. simpl. lia.
Qed.

Lemma count_loop (items : list (RentalItem.t N)) (counts : JSMap.t nat) :
  let counts' := foldl RentalItemManager.countItem counts items in
  (∀ category,
     default 0 (JSMap.get category counts') =
     default 0 (JSMap.get category counts) +
     length (filter (λ item, RentalItemManager.categoryOf item = category) items)) ∧
  sum_list (JSMap.values counts') = sum_list (JSMap.values counts) + length items ∧
  (NoDup (JSMap.keys counts) → NoDup (JSMap.keys counts')) ∧
  (Forall (λ kv, 0 < kv.2) counts → Forall (λ kv, 0 < kv.2) counts').
Proof.
  revert counts. induction items as [|item items IH]; intros counts.
  { simpl. split_and!; try done; intros; lia. }
  cbn [foldl].
  destruct (count_turn (RentalItemManager.categoryOf item) counts)
    as (Hget & Hsum & Hnodup & Hpos).
  fold (RentalItemManager.countItem counts item) in Hget, Hsum, Hnodup, Hpos.
  destruct (IH (RentalItemManager.countItem counts item))
    as (Hget' & Hsum' & Hnodup' & Hpos').
  split_and!.
  - intros category. rewrite Hget', Hget, filter_cons.
    repeat case_decide; simpl; try congruence; lia.
  - rewrite Hsum', Hsum. simpl. lia.
  - auto.
  - auto.
Qed.

(** X18.  [getItemCountByCategory] maps each category to the number of
    listed items in it and has no entry for a category without items; the
    counts add up to the number of items listed; an item with no category
    or with the empty string as category is counted under
    'Uncategorized'. *)
Theorem category_counts_add_up (activeOnly : bool) m :
  let counts := RentalItemManager.getItemCountByCategory activeOnly m in
  let listed := RentalItemManager.getAllItems activeOnly m in
  (∀ category,
     JSMap.get category counts =
     match length (filter (λ item, RentalItemManager.categoryOf item = category)
                          listed) with
     | 0 => None
     | S n => Some (S n)
     end) ∧
  sum_list (JSMap.values counts) = length listed ∧
  NoDup (JSMap.keys counts) ∧
  (∀ item, item ∈ listed →
           RentalItem.category item = None ∨ RentalItem.category item = Some "" →
           is_Some (JSMap.get "Uncategorized" counts)).
Proof.
  intros counts listed.
  destruct (count_loop listed []) as (Hget & Hsum & Hnodup & Hpos).
  change (foldl RentalItemManager.countItem [] listed) with counts
    in Hget, Hsum, Hnodup, Hpos.
  specialize (Hnodup (NoDup_nil_2)). specialize (Hpos (Forall_nil_2 _)).
  assert (Hexact : ∀ category,
            JSMap.get category counts =
            match length (filter (λ item, RentalItemManager.categoryOf item = category)
                                 listed) with
            | 0 => None
            | S n => Some (S n)
            end).
  { intros category. specialize (Hget category). simpl in Hget.
    destruct (JSMap.get category counts) as [n|] eqn:Hn; simpl in Hget.
    - apply JSMap_get_elem_of in Hn.
      eapply Forall_forall in Hpos; [|done]. simpl in Hpos.
      rewrite <- Hget. by destruct n; [lia|].
    - by rewrite <- Hget. }
  split_and!; try done.
  intros item Hin Hcat. rewrite Hexact.
  assert (Hitem : item ∈ filter (λ item, RentalItemManager.categoryOf item
                                         = "Uncategorized") listed).
  { apply list_elem_of_filter. split; [|done].
    unfold RentalItemManager.categoryOf. by destruct Hcat as [-> | ->]. }
  destruct (filter _ listed) as [|x l]; [by apply elem_of_nil in Hitem|].
  simpl. by eexists.
Qed.
End Items.

(** ** [BusinessManager] *)

Section Business.
Context {N B : Type} `{JSNumber N}.
Implicit Types b : BusinessManager.t N B.

Lemma getChallan_elem_of challanId (s : ChallanManager.t N) challan :
  ChallanManager.getChallan challanId s = Some challan →
  challan ∈ s ∧ Challan.id challan = challanId.
Proof.
  unfold ChallanManager.getChallan, ChallanManager.index.
  intros ([i c] & Hfind & ->)%fmap_Some.
  apply list_find_Some in Hfind as (Hi & Hid & _).
  split; [by eapply list_elem_of_lookup_2|done].
Qed.

Lemma forChallan_more b b' challanId customerId :
  (∀ challan, challan ∈ BusinessManager.challanManager b →
              challan ∈ BusinessManager.challanManager b') →
  BusinessManager.forChallan b challanId customerId →
  BusinessManager.forChallan b' challanId customerId.
Proof. intros Hmore (challan & Hin & Hid & Hc). exists challan. auto. Qed.

Lemma handle_linked b r :
  BusinessManager.linked b → BusinessManager.linked (BusinessManager.handle b r).
Proof.
  intros (Hchallans & Hdeliveries & Hpayments). destruct r; simpl.
  - unfold BusinessManager.createChallan.
    destruct (CustomerManager.getCustomer customerId (BusinessManager.customerManager b))
      as [customer|] eqn:Hcustomer; simpl; [|done].
    split_and!.
    + apply Forall_app. split; [done|]. apply Forall_singleton. simpl. eauto.
    + eapply Forall_impl; [exact Hdeliveries|]. intros d. simpl.
      apply forChallan_more. intros c Hc. simpl. apply elem_of_app. by left.
    + eapply Forall_impl; [exact Hpayments|]. intros p. simpl.
      apply forChallan_more. intros c Hc. simpl. apply elem_of_app. by left.
  - unfold BusinessManager.createDelivery.
    destruct (ChallanManager.getChallan challanId (BusinessManager.challanManager b))
      as [challan|] eqn:Hchallan; simpl; [|done].
    apply getChallan_elem_of in Hchallan as [Hin Hid].
    split_and!; [done| |done].
    apply Forall_app. split.
    + eapply Forall_impl; [exact Hdeliveries|]. intros d. by apply forChallan_more.
    + apply Forall_singleton. by exists challan.
  - unfold BusinessManager.createPayment.
    destruct (ChallanManager.getChallan challanId (BusinessManager.challanManager b))
      as [challan|] eqn:Hchallan; simpl; [|done].
    apply getChallan_elem_of in Hchallan as [Hin Hid].
    split_and!; [done|done|].
    apply Forall_app. split.
    + eapply Forall_impl; [exact Hpayments|]. intros p. by apply forChallan_more.
    + apply Forall_singleton. by exists challan.
Qed.

(** X20.  [createChallan], [createDelivery] and [createPayment] of
    [BusinessManager], in any sequence and whether they succeed or throw,
    keep the records linked: every challan is for a customer of the
    customer manager and carries its name, every delivery and every
    payment is for a challan of the challan manager and for that challan's
    customer. *)
Theorem orchestrated_records_stay_linked b (requests : list (BusinessManager.Request)) :
  BusinessManager.linked b →
  BusinessManager.linked (foldl BusinessManager.handle b requests).
Proof.
  revert b. induction requests as [|r requests IH]; intros b Hb; [done|].
  simpl. by apply IH, handle_linked.
Qed.


Lemma challans_by_status (s : ChallanManager.t N) :
  length s =
  length (ChallanManager.getChallansByStatus Challan.pending s) +
  length (ChallanManager.getChallansByStatus Challan.delivered s) +
  length (ChallanManager.getChallansByStatus Challan.returned s) +
  length (ChallanManager.getChallansByStatus Challan.cancelled s).
Proof.
  unfold ChallanManager.getChallansByStatus.
  induction s as [|c s IH]; [done|]. rewrite !filter_cons.
  destruct (Challan.status c); simpl; lia.
Qed.

Lemma deliveries_by_status (s : DeliveryManager.t N) :
  length s =
  length (DeliveryManager.getDeliveriesByStatus Delivery.scheduled s) +
  length (DeliveryManager.getDeliveriesByStatus Delivery.in_transit s) +
  length (DeliveryManager.getDeliveriesByStatus Delivery.delivered s) +
  length (DeliveryManager.getDeliveriesByStatus Delivery.failed s) ∧
  length (DeliveryManager.getPendingDeliveries s) =
  length (DeliveryManager.getDeliveriesByStatus Delivery.scheduled s) +
  length (DeliveryManager.getDeliveriesByStatus Delivery.in_transit s).
Proof.
  unfold DeliveryManager.getDeliveriesByStatus, DeliveryManager.getPendingDeliveries.
  induction s as [|d s [IH1 IH2]]; [done|]. rewrite !filter_cons.
  destruct (Delivery.status d); simpl; lia.
Qed.

Lemma payments_by_status (s : PaymentManager.t N) :
  length s =
  length (PaymentManager.getPaymentsByStatus Payment.pending s) +
  length (PaymentManager.getPaymentsByStatus Payment.completed s) +
  length (PaymentManager.getPaymentsByStatus Payment.failed s) +
  length (PaymentManager.getPaymentsByStatus Payment.refunded s).
Proof.
  unfold PaymentManager.getPaymentsByStatus.
  induction s as [|p s IH]; [done|]. rewrite !filter_cons.
  destruct (Payment.status p); simpl; lia.
Qed.

(** X22.  In [getBusinessStats] the challans are the pending, delivered,
    returned and cancelled ones together; the deliveries are the pending
    (scheduled or in transit), delivered and failed ones together; the
    payments are the pending, completed and failed ones together with the
    refunded ones, which the statistics do not show; and the customers and
    items counted are the active ones. *)
Theorem business_stats_add_up b :
  let stats := BusinessManager.getBusinessStats b in
  BusinessManager.totalChallans stats =
    BusinessManager.pendingChallans stats + BusinessManager.deliveredChallans stats +
    BusinessManager.returnedChallans stats + BusinessManager.cancelledChallans stats ∧
  BusinessManager.totalDeliveries stats =
    BusinessManager.pendingDeliveries stats +
    BusinessManager.deliveredDeliveries stats +
    BusinessManager.failedDeliveries stats ∧
  BusinessManager.pendingDeliveries stats =
    length (DeliveryManager.getPendingDeliveries (BusinessManager.deliveryManager b)) ∧
  BusinessManager.totalPayments stats =
    BusinessManager.pendingPayments stats + BusinessManager.completedPayments stats +
    BusinessManager.failedPayments stats +
    length (PaymentManager.getPaymentsByStatus Payment.refunded
              (BusinessManager.paymentManager b)) ∧
  BusinessManager.totalCustomers stats =
    length (CustomerManager.getAllCustomers true (BusinessManager.customerManager b)) ∧
  BusinessManager.totalInventory stats =
    length (RentalItemManager.getAllItems true (BusinessManager.itemManager b)).
Proof.
  intros stats. unfold stats, BusinessManager.getBusinessStats. simpl.
  destruct (deliveries_by_status (BusinessManager.deliveryManager b)) as [Hd Hp].
  split_and!.
  - apply challans_by_status.
  - lia.
  - by rewrite Hp.
  - apply payments_by_status.
  - f_equal. rewrite list_filter_filter. apply list_filter_iff. tauto.
  - f_equal. rewrite list_filter_filter. apply list_filter_iff. tauto.
Qed.

(** *** Through the data store and back *)

Lemma filter_values {V} (P : V → Prop) `{!∀ x, Decision (P x)} (m : JSMap.t V) :
  filter P (JSMap.values m) = JSMap.values (filter (λ kv, P kv.2) m).
Proof.
  unfold JSMap.values. induction m as [|[k v] m IH]; [done|].
  rewrite fmap_cons, !filter_cons. simpl. case_decide; [|done].
  by rewrite fmap_cons, IH.
Qed.

Lemma customers_back (l acc : CustomerManager.t N) :
  NoDup (JSMap.keys (acc ++ l)) → Forall (λ kv, Customer.id kv.2 = kv.1) l →
  foldl (λ m c, (CustomerManager.addCustomer c m).1) acc (JSMap.values l) = acc ++ l.
Proof.
  revert acc. induction l as [|[k c] l IH]; intros acc Hnodup Hkeyed.
  { by rewrite app_nil_r. }
  apply Forall_cons in Hkeyed as [Hk Hkeyed]. simpl in Hk. subst k.
  change (JSMap.values ((Customer.id c, c) :: l)) with (c :: JSMap.values l).
  cbn [foldl].
  assert (Hfresh : JSMap.has (Customer.id c) acc = false).
  { apply not_true_is_false. intros Hhas%JSMap_has_get%JSMap_get_keys.
    unfold JSMap.keys in Hnodup. rewrite fmap_app, fmap_cons in Hnodup.
    apply NoDup_app in Hnodup as (_ & Hdisjoint & _).
    apply (Hdisjoint _ Hhas). apply list_elem_of_here. }
  assert (Hadd : (CustomerManager.addCustomer c acc).1 = acc ++ [(Customer.id c, c)]).
  { unfold CustomerManager.addCustomer. rewrite Hfresh. simpl.
    by apply JSMap_set_absent. }
  rewrite Hadd.
  rewrite (IH (acc ++ [(Customer.id c, c)])); [by rewrite <- app_assoc| |done].
  by rewrite <- app_assoc.
Qed.

Lemma items_back (l acc : RentalItemManager.t N) :
  NoDup (JSMap.keys (acc ++ l)) → Forall (λ kv, RentalItem.id kv.2 = kv.1) l →
  foldl (λ m i, (RentalItemManager.addItem i m).1) acc (JSMap.values l) = acc ++ l.
Proof.
  revert acc. induction l as [|[k c] l IH]; intros acc Hnodup Hkeyed.
  { by rewrite app_nil_r. }
  apply Forall_cons in Hkeyed as [Hk Hkeyed]. simpl in Hk. subst k.
  change (JSMap.values ((RentalItem.id c, c) :: l)) with (c :: JSMap.values l).
  cbn [foldl].
  assert (Hfresh : JSMap.has (RentalItem.id c) acc = false).
  { apply not_true_is_false. intros Hhas%JSMap_has_get%JSMap_get_keys.
    unfold JSMap.keys in Hnodup. rewrite fmap_app, fmap_cons in Hnodup.
    apply NoDup_app in Hnodup as (_ & Hdisjoint & _).
    apply (Hdisjoint _ Hhas). apply list_elem_of_here. }
  assert (Hadd : (RentalItemManager.addItem c acc).1 = acc ++ [(RentalItem.id c, c)]).
  { unfold RentalItemManager.addItem. rewrite Hfresh. simpl.
    by apply JSMap_set_absent. }
  rewrite Hadd.
  rewrite (IH (acc ++ [(RentalItem.id c, c)])); [by rewrite <- app_assoc| |done].
  by rewrite <- app_assoc.
Qed.

Lemma Forall_kept {A} (P Q : A → Prop) `{!∀ x, Decision (P x)} (l : list A) :
  Forall Q l → Forall Q (filter P l).
Proof.
  rewrite !Forall_forall. intros HQ x [_ Hin]%list_elem_of_filter. by apply HQ.
Qed.

Lemma filter_keys_NoDup {V} (P : string * V → Prop) `{!∀ x, Decision (P x)}
    (m : JSMap.t V) :
  NoDup (JSMap.keys m) → NoDup (JSMap.keys (filter P m)).
Proof.
  unfold JSMap.keys. intros Hnodup.
  apply (sublist_NoDup ((filter P m).*1) (m.*1) Hnodup).
  apply fmap_sublist, sublist_filter.
Qed.

Lemma get_filter {V} (P : V → Prop) `{!∀ x, Decision (P x)} (m : JSMap.t V) id :
  NoDup (JSMap.keys m) →
  JSMap.get id (filter (λ kv, P kv.2) m) =
  match JSMap.get id m with
  | Some v => if decide (P v) then Some v else None
  | None => None
  end.
Proof.
  intros Hnodup.
  pose proof (filter_keys_NoDup (λ kv : string * V, P kv.2) m Hnodup) as Hnodup'.
  destruct (JSMap.get id m) as [v|] eqn:Hget.
  - apply JSMap_get_elem_of in Hget as Hin. case_decide as HP.
    + apply JSMap_elem_of_get; [done|]. by apply list_elem_of_filter.
    + apply eq_None_not_Some. intros [v' Hv'].
      apply JSMap_get_elem_of, list_elem_of_filter in Hv' as [HP' Hin'].
      simpl in HP'.
      assert (v' = v); [|by subst].
      apply (JSMap_elem_of_get id v' m Hnodup) in Hin'. congruence.
  - apply eq_None_not_Some. intros [v' Hv'].
    apply JSMap_get_elem_of, list_elem_of_filter in Hv' as [_ Hin'].
    apply (JSMap_elem_of_get id v' m Hnodup) in Hin'. congruence.
Qed.

(** X23.  A [BusinessManager] built on what [getDataStore] returns has
    the same challans, deliveries and payments, and the active customers
    and items in the same order, but not the inactive ones: a customer
    that was deactivated is found no more, so [createChallan] for it,
    which succeeded before, throws 'Customer not found'. *)
Theorem rebuilding_from_the_data_store_drops_the_inactive (now : Time) b :
  CustomerManager.wellKeyed (BusinessManager.customerManager b) →
  RentalItemManager.wellKeyed (BusinessManager.itemManager b) →
  let rebuilt := BusinessManager.new (BusinessManager.getDataStore now b).2 in
  BusinessManager.customerManager rebuilt =
    filter (λ kv, Customer.isActive kv.2 = true) (BusinessManager.customerManager b) ∧
  BusinessManager.itemManager rebuilt =
    filter (λ kv, RentalItem.isActive kv.2 = true) (BusinessManager.itemManager b) ∧
  BusinessManager.challanManager rebuilt = BusinessManager.challanManager b ∧
  BusinessManager.deliveryManager rebuilt = BusinessManager.deliveryManager b ∧
  BusinessManager.paymentManager rebuilt = BusinessManager.paymentManager b ∧
  (∀ id,
     CustomerManager.getCustomer id (BusinessManager.customerManager rebuilt) =
     match CustomerManager.getCustomer id (BusinessManager.customerManager b) with
     | Some customer => if Customer.isActive customer then Some customer else None
     | None => None
     end) ∧
  (∀ customerId items notes o customer,
     CustomerManager.getCustomer customerId (BusinessManager.customerManager b)
       = Some customer →
     Customer.isActive customer = false →
     (∃ challan, (BusinessManager.createChallan customerId items notes o b).2
                 = Ok challan) ∧
     BusinessManager.createChallan customerId items notes o rebuilt =
       (rebuilt, Error "Customer not found")).
Proof.
  intros [Hnodup Hkeyed] [Hnodup' Hkeyed'] rebuilt.
  assert (Hcustomers :
            BusinessManager.customerManager rebuilt =
            filter (λ kv, Customer.isActive kv.2 = true)
                   (BusinessManager.customerManager b)).
  { unfold rebuilt. simpl. unfold CustomerManager.new, CustomerManager.getAllCustomers.
    simpl. rewrite filter_values.
    rewrite (customers_back _ []); [done| |].
    - by apply filter_keys_NoDup.
    - by apply Forall_kept. }
  assert (Hget : ∀ id,
     CustomerManager.getCustomer id (BusinessManager.customerManager rebuilt) =
     match CustomerManager.getCustomer id (BusinessManager.customerManager b) with
     | Some customer => if Customer.isActive customer then Some customer else None
     | None => None
     end).
  { intros id. rewrite Hcustomers. unfold CustomerManager.getCustomer.
    pose proof (get_filter (λ c : Customer.t N, Customer.isActive c = true)
                  (BusinessManager.customerManager b) id Hnodup) as Hfilter.
    simpl in Hfilter. rewrite Hfilter.
    destruct (JSMap.get id (BusinessManager.customerManager b)) as [c|]; [|done].
    by destruct (Customer.isActive c). }
  split_and!; try done.
  - unfold rebuilt. simpl. unfold RentalItemManager.new, RentalItemManager.getAllItems.
    simpl. rewrite filter_values.
    rewrite (items_back _ []); [done| |].
    + by apply filter_keys_NoDup.
    + by apply Forall_kept.
  - intros customerId items notes o customer Hcustomer Hoff. split.
    + unfold BusinessManager.createChallan. rewrite Hcustomer. by eexists.
    + unfold BusinessManager.createChallan. by rewrite Hget, Hcustomer, Hoff.
Qed.
End Business.

(** ** [DeliveryManager] *)

Section Deliveries.
Context {N : Type}.
Implicit Types s : DeliveryManager.t N.


End Deliveries.

(** ** The business managers at concrete inputs *)

Lemma challan_totals_follow_the_items_witness :
  Forall (ChallanManager.consistent (N:=Z)) (default [] None) ∧
  Forall ChallanManager.consistent
    (foldl ChallanManager.call (ChallanManager.new None)
       [ChallanManager.CreateChallan "cust-1" "Acme" twoChairs None monday;
        ChallanManager.UpdateChallanItems (ChallanManager.generateId monday)
                                          threeTables 1500]).
Proof.
  assert (Hnone : Forall (ChallanManager.consistent (N:=Z)) (default [] None))
    by apply Forall_nil_2.
  refine (conj Hnone _).
  exact (challan_totals_follow_the_items None
           [ChallanManager.CreateChallan "cust-1" "Acme" twoChairs None monday;
            ChallanManager.UpdateChallanItems (ChallanManager.generateId monday)
                                              threeTables 1500] Hnone).
Defined.

Lemma a_status_update_moves_one_payment_between_the_counts_witness :
  PaymentManager.getPayment (PaymentManager.generateId monday) onePayment.1
    = Some onePayment.2 ∧
  PaymentManager.totalPayments
    (PaymentManager.getPaymentStats
       (PaymentManager.updatePaymentStatus (PaymentManager.generateId monday)
          Payment.completed 1500 onePayment.1).1) =
  PaymentManager.totalPayments (PaymentManager.getPaymentStats onePayment.1).
Proof.
  assert (Hget : PaymentManager.getPayment (PaymentManager.generateId monday)
                   onePayment.1 = Some onePayment.2)
    by (vm_compute; reflexivity).
  refine (conj Hget _).
  exact (proj1 (a_status_update_moves_one_payment_between_the_counts
                  (PaymentManager.generateId monday) Payment.completed 1500
                  onePayment.1 onePayment.2 Hget)).
Defined.

Lemma challan_numbers_repeat_after_a_deletion_witness :
  is_Some (ChallanManager.getChallan (ChallanManager.generateId monday) oneChallan) ∧
  Challan.challanNumber
    (ChallanManager.createChallan "cust-1" "Acme" twoChairs None tuesday
       (ChallanManager.deleteChallan (ChallanManager.generateId monday)
          (ChallanManager.createChallan "cust-1" "Acme" twoChairs None monday
             oneChallan).1).1).2 =
  Challan.challanNumber
    (ChallanManager.createChallan "cust-1" "Acme" twoChairs None monday
       oneChallan).2.
Proof.
  assert (Hvictim : is_Some (ChallanManager.getChallan
                               (ChallanManager.generateId monday) oneChallan))
    by (eexists; vm_compute; reflexivity).
  refine (conj Hvictim _).
  exact (proj1 (challan_numbers_repeat_after_a_deletion
                  "cust-1" "Acme" "cust-1" "Acme" (ChallanManager.generateId monday)
                  twoChairs twoChairs None None monday tuesday oneChallan
                  Hvictim eq_refl eq_refl)).
Defined.

Lemma reactivating_restores_a_customer_witness :
  CustomerManager.getCustomer "cust-1" (CustomerManager.new (Some [acme])) = Some acme ∧
  CustomerManager.activateCustomer "cust-1"
    (CustomerManager.deactivateCustomer "cust-1"
       (CustomerManager.new (Some [acme]))).1 =
  (CustomerManager.new (Some [acme]), true).
Proof.
  assert (Hget : CustomerManager.getCustomer "cust-1"
                   (CustomerManager.new (Some [acme])) = Some acme)
    by (vm_compute; reflexivity).
  refine (conj Hget _).
  exact (proj2 (proj2 (proj2 (proj2
           (reactivating_restores_a_customer "cust-1"
              (CustomerManager.new (Some [acme])) acme Hget)))) eq_refl).
Defined.

Lemma orchestrated_records_stay_linked_witness :
  BusinessManager.linked shop ∧
  BusinessManager.linked
    (foldl BusinessManager.handle shop
       [BusinessManager.CreateChallan "cust-1" twoChairs None monday;
        BusinessManager.CreateDelivery (ChallanManager.generateId monday)
                                       "12 Mill Road" "Ravi" tuesday;
        BusinessManager.CreatePayment (ChallanManager.generateId monday) 300%Z
                                      Payment.upi None None tuesday]).
Proof.
  assert (Hshop : BusinessManager.linked shop).
  { split_and!; apply Forall_nil_2. }
  refine (conj Hshop _).
  exact (orchestrated_records_stay_linked shop _ Hshop).
Defined.

Lemma rebuilding_from_the_data_store_drops_the_inactive_witness :
  CustomerManager.wellKeyed (BusinessManager.customerManager shopWithoutAcme) ∧
  RentalItemManager.wellKeyed (BusinessManager.itemManager shopWithoutAcme) ∧
  BusinessManager.customerManager
    (BusinessManager.new (BusinessManager.getDataStore 5 shopWithoutAcme).2) =
  filter (λ kv, Customer.isActive kv.2 = true)
         (BusinessManager.customerManager shopWithoutAcme).
Proof.
  assert (Hcustomers : CustomerManager.wellKeyed
                         (BusinessManager.customerManager shopWithoutAcme)).
  { split; [apply (bool_decide_unpack _); vm_compute; exact I|].
    apply Forall_singleton. reflexivity. }
  assert (Hitems : RentalItemManager.wellKeyed
                     (BusinessManager.itemManager shopWithoutAcme)).
  { split; [apply NoDup_nil_2|apply Forall_nil_2]. }
  refine (conj Hcustomers (conj Hitems _)).
  exact (proj1 (rebuilding_from_the_data_store_drops_the_inactive 5
                  shopWithoutAcme Hcustomers Hitems)).
Defined.
